(** * Social-network graph: user store, friendships and popularity scores

    A shallow embedding of the back end of the repository and of the state
    of its client:
      - the Mongoose model [User] (schema, document methods
        [calculatePopularityScore], [addFriend], [removeFriend],
        [updateHobbies], the pre-save hook, the statics [getGraphData] and
        [canDeleteUser]);
      - the service layer [UserService] (create, update, delete, link,
        unlink, hobby removal, statistics, lookup of a user, the list of
        all hobbies);
      - the handlers of [UserController] with the responses of
        [ApiResponse], and the middleware [validateUUID];
      - the reducers of the client ([appReducer], [undoRedoReducer]) and
        what its node component computes ([UserNode]).

    Modelling decisions.
      - The collection is a list of documents in insertion order.  A document
        loaded by [findOne] is a copy; a method that mutates [this] returns
        the updated copy, and [save] writes it back.  Inside one operation the
        two documents that are saved are never the same record with different
        pending changes, so writing the whole record is what Mongoose's
        write of the modified paths does.
      - An [async] function is a computation in the monad [M]: it reads and
        writes the store and either returns a value or throws an [Error],
        kept as its message.  The store a failed computation leaves behind is
        part of the result.  [Promise.all] of two calls is modelled as the two
        calls in sequence (the calls touch different records and the reads of
        one do not see the fields the other writes).
      - A JavaScript number is an exact rational ([Q]) where the code does
        arithmetic on scores and counts (all values there are multiples of
        1/2 or small integers, which doubles represent exactly), and a real
        ([R]) in the layout of the graph, which uses [Math.cos], [Math.sin].
      - Strings are Rocq strings, the UTF-8 text of the JavaScript strings.
        The request validation trims the strings it lets through, so the
        schema's [trim] setters act as the identity and are not modelled;
        schema validation and failures of the database connection are
        outside the model: every [save] succeeds.  The model is therefore
        the code on documents and input that the schema accepts, which
        [valid_store], [valid_input] and [valid_update] spell out from the
        validators of [UserSchema]; a theorem that speaks of every failure
        of an operation, or of what is stored for the strings given,
        assumes them.  A collection of valid documents stays one
        ([valid_store_preserved]).
      - A handler of the controller is a computation in [M] that returns
        the response it sends: the status and the body [IApiResponse].  The
        regular expression of [validateUUID] is the list of its bracket
        expressions with their repetition counts, matched against the whole
        string.
      - The reducers of the client are pure functions on the records
        [AppState] and [UndoRedoState]. *)

From Stdlib Require Import Ascii String QArith Qround Qreduction Qminmax Reals Lra.
From Stdlib Require OrderedTypeEx Lqa.
From stdpp Require Import base decidable option list gmap sets strings pretty sorting.

(** ** Documents *)

(** [IUserDocument]: the fields of the schema.  [createdAt] is a time stamp
    in milliseconds. *)
Record User := mkUser {
  id : string;
  username : string;
  age : Z;
  hobbies : list string;
  friends : list string;
  createdAt : Z;
  popularityScore : Q
}.

Definition set_username (u : User) (x : string) : User :=
  mkUser (id u) x (age u) (hobbies u) (friends u) (createdAt u) (popularityScore u).
Definition set_age (u : User) (x : Z) : User :=
  mkUser (id u) (username u) x (hobbies u) (friends u) (createdAt u) (popularityScore u).
Definition set_hobbies (u : User) (x : list string) : User :=
  mkUser (id u) (username u) (age u) x (friends u) (createdAt u) (popularityScore u).
Definition set_friends (u : User) (x : list string) : User :=
  mkUser (id u) (username u) (age u) (hobbies u) x (createdAt u) (popularityScore u).
Definition set_popularityScore (u : User) (x : Q) : User :=
  mkUser (id u) (username u) (age u) (hobbies u) (friends u) (createdAt u) x.

(** [IUserInput] and [IUserUpdate] ([None] is an absent field). *)
Record IUserInput := mkInput {
  in_username : string;
  in_age : Z;
  in_hobbies : list string
}.

Record IUserUpdate := mkUpdate {
  up_username : option string;
  up_age : option Z;
  up_hobbies : option (list string)
}.

(** ** JavaScript helpers *)

(** A JavaScript [Set] of strings keeps its elements in insertion order
    without repetition; [new_Set l] is [new Set(l)], read back with the
    spread operator. *)
Module JSSet.

Definition has (s : list string) (x : string) : bool := bool_decide (x ∈ s).

Definition add (s : list string) (x : string) : list string :=
  if has s x then s else s ++ [x].

Definition new_Set (l : list string) : list string := foldl add [] l.

End JSSet.

(** [Ascii.is_space] is the white space [String.prototype.trim] removes
    (its ASCII part). *)
Fixpoint trim_start (s : string) : string :=
  match s with
  | EmptyString => EmptyString
  | String c r => if Ascii.is_space c then trim_start r else s
  end.

(** [hobby.trim() !== ''] : some character of the string is not a space. *)
Definition not_blank (s : string) : Prop := trim_start s ≠ "".

(** [Math.round]: the nearest integer, halves go up. *)
Definition Math_round (x : Q) : Z := Qfloor (x + (1 # 2)).

(** [Math.round(x * 100) / 100]. *)
Definition round2 (x : Q) : Q := Qred (inject_Z (Math_round (x * 100)) / 100).

(** ** The store monad *)

Abbreviation Store := (list User).
Abbreviation Err := string (only parsing).

Definition M (A : Type) : Type := Store → (Err + A) * Store.

Definition ret {A} (a : A) : M A := λ s, (inr a, s).
Definition throw {A} (e : Err) : M A := λ s, (inl e, s).
Definition bind {A B} (m : M A) (k : A → M B) : M B :=
  λ s, match m s with
       | (inl e, s') => (inl e, s')
       | (inr a, s') => k a s'
       end.
(** [try { m } catch (error) { h error }]. *)
Definition try_catch {A} (m : M A) (h : Err → M A) : M A :=
  λ s, match m s with
       | (inl e, s') => h e s'
       | (inr a, s') => (inr a, s')
       end.

Notation "'let*' x := m 'in' k" := (bind m (λ x, k))
  (at level 10, x pattern, m at level 100, k at level 200).

(** ** Database primitives *)

Definition has_id (i : string) (u : User) : bool := bool_decide (id u = i).

(** [User.findOne({ id })]. *)
Definition findOne_id (i : string) : M (option User) :=
  λ s, (inr (List.find (has_id i) s), s).

(** [User.findOne({ username })]. *)
Definition findOne_username (n : string) : M (option User) :=
  λ s, (inr (List.find (λ u, bool_decide (username u = n)) s), s).

(** [User.findOne({ username, id: { $ne: id } })]. *)
Definition findOne_username_ne (n i : string) : M (option User) :=
  λ s, (inr (List.find (λ u, bool_decide (username u = n) && negb (has_id i u)) s), s).

(** [User.find({ id: { $in: ids } })]. *)
Definition find_id_in (ids : list string) : M (list User) :=
  λ s, (inr (filter (λ u, id u ∈ ids) s), s).

(** [User.find({})]. *)
Definition find_all : M (list User) := λ s, (inr s, s).

(** [User.countDocuments()]. *)
Definition countDocuments : M nat := λ s, (inr (length s), s).

(** The pre-save hook: blank hobbies are dropped, repetitions removed. *)
Definition pre_save (u : User) : User :=
  set_hobbies u
    (JSSet.new_Set (filter not_blank (hobbies u))).

Fixpoint replace_doc (d : User) (s : Store) : Store :=
  match s with
  | [] => []
  | u :: r => if has_id (id d) u then d :: r else u :: replace_doc d r
  end.

(** [doc.save()] for a document that was loaded from the collection: the
    hook runs, the record is overwritten; the document as it is after the
    hook is returned.  The setters and validators of the schema, which run
    before the hook, change and refuse nothing on a document the schema
    accepts ([valid_user]); they are not run here. *)
Definition save (d : User) : M User :=
  λ s, let d' := pre_save d in (inr d', replace_doc d' s).

(** [doc.save()] for a document made by [new User(...)], under the same
    proviso. *)
Definition save_new (d : User) : M User :=
  λ s, let d' := pre_save d in (inr d', s ++ [d']).

Fixpoint remove_doc (i : string) (s : Store) : Store :=
  match s with
  | [] => []
  | u :: r => if has_id i u then r else u :: remove_doc i r
  end.

(** [User.deleteOne({ id })]. *)
Definition deleteOne (i : string) : M unit :=
  λ s, (inr tt, remove_doc i s).

(** ** Document methods of the model *)

(** [[...userHobbies].filter(hobby => friendHobbies.has(hobby))]. *)
Definition sharedHobbies (userHobbies friendHobbies : list string) : list string :=
  filter (λ hobby, JSSet.has friendHobbies hobby) userHobbies.

(** The body of the [forEach] over the friends that were found. *)
Definition add_shared (userHobbies : list string) (acc : Q) (friend : User) : Q :=
  (acc + inject_Z (Z.of_nat (length
           (sharedHobbies userHobbies (JSSet.new_Set (hobbies friend))))) * (1 # 2))%Q.

(** [UserSchema.methods.calculatePopularityScore]; the result is the number
    returned and [this] as the call leaves it. *)
Definition calculatePopularityScore (this : User) : M (Q * User) :=
  let friendsCount := length (friends this) in
  if bool_decide (friendsCount = 0%nat) then ret (0%Q, this)
  else
    let* found := find_id_in (friends this) in
    let userHobbies := JSSet.new_Set (hobbies this) in
    let sharedHobbiesScore := foldl (add_shared userHobbies) 0%Q found in
    let totalScore := (inject_Z (Z.of_nat friendsCount) + sharedHobbiesScore)%Q in
    let* this := save (set_popularityScore this (round2 totalScore)) in
    ret (popularityScore this, this).

Definition E_already_friends : Err := "Users are already friends".
Definition E_self_friend : Err := "User cannot be friends with themselves".
Definition E_friend_not_found : Err := "Friend not found".
Definition E_user_not_found : Err := "User not found".
Definition E_not_friends : Err := "Users are not friends".
Definition E_username_exists : Err := "Username already exists".
Definition E_has_friends : Err :=
  "Cannot delete user with existing friendships. Please remove all friendships first.".
Definition E_hobby_not_found : Err := "Hobby not found".

(** [UserSchema.methods.addFriend]. *)
Definition addFriend (this : User) (friendId : string) : M unit :=
  if bool_decide (friendId ∈ friends this) then throw E_already_friends
  else if bool_decide (friendId = id this) then throw E_self_friend
  else
    let* friend := findOne_id friendId in
    match friend with
    | None => throw E_friend_not_found
    | Some friend =>
      let this := set_friends this (friends this ++ [friendId]) in
      let friend := set_friends friend (friends friend ++ [id this]) in
      let* this := save this in
      let* friend := save friend in
      let* _ := calculatePopularityScore this in
      let* _ := calculatePopularityScore friend in
      ret tt
    end.

(** [UserSchema.methods.removeFriend]. *)
Definition removeFriend (this : User) (friendId : string) : M unit :=
  if negb (bool_decide (friendId ∈ friends this)) then throw E_not_friends
  else
    let* friend := findOne_id friendId in
    match friend with
    | None => throw E_friend_not_found
    | Some friend =>
      let this :=
        set_friends this
          (filter (λ i, i ≠ friendId) (friends this)) in
      let friend :=
        set_friends friend
          (filter (λ i, i ≠ id this) (friends friend)) in
      let* this := save this in
      let* friend := save friend in
      let* _ := calculatePopularityScore this in
      let* _ := calculatePopularityScore friend in
      ret tt
    end.

(** [UserSchema.methods.updateHobbies]. *)
Definition updateHobbies (this : User) (newHobbies : list string) : M unit :=
  let* this := save (set_hobbies this newHobbies) in
  let* _ := calculatePopularityScore this in
  ret tt.

(** [UserSchema.statics.canDeleteUser]. *)
Definition canDeleteUser (userId : string) : M bool :=
  let* user := findOne_id userId in
  match user with
  | None => ret false
  | Some user => ret (bool_decide (length (friends user) = 0%nat))
  end.

(** ** The service layer *)

(** [String.prototype.includes]. *)
Definition includes (s sub : string) : bool :=
  match String.index 0 sub s with Some _ => true | None => false end.

(** The [catch] blocks of the service: an error whose message the block
    recognises is thrown again, any other is wrapped. *)
Definition rethrow {A} (known : Err → bool) (wrap : string) (e : Err) : M A :=
  if known e then throw e else throw (wrap +:+ "Error: " +:+ e).

Definition is_one_of (l : list Err) (e : Err) : bool := bool_decide (e ∈ l).

(** [new User(userData)] with the defaults of the schema; the identifier is
    the one [uuidv4] draws and the time stamp the clock's.  The [trim]
    setters leave input that the schema accepts ([valid_input]) as it
    is. *)
Definition new_User (newId : string) (now : Z) (userData : IUserInput) : User :=
  mkUser newId (in_username userData) (in_age userData) (in_hobbies userData)
         [] now 0%Q.

(** [UserService.createUser]. *)
Definition createUser (newId : string) (now : Z) (userData : IUserInput) : M User :=
  try_catch
    (let* existingUser := findOne_username (in_username userData) in
     match existingUser with
     | Some _ => throw E_username_exists
     | None =>
       let* user := save_new (new_User newId now userData) in
       let* r := calculatePopularityScore user in
       ret (snd r)
     end)
    (rethrow (is_one_of [E_username_exists]) "Failed to create user: ").

Definition truthy (x : string) : bool := negb (bool_decide (x = "")).

(** [Object.assign(user, updateData)]; the [trim] setters leave an update
    that the schema accepts ([valid_update]) as it is. *)
Definition Object_assign (user : User) (updateData : IUserUpdate) : User :=
  let user := from_option (set_username user) user (up_username updateData) in
  let user := from_option (set_age user) user (up_age updateData) in
  from_option (set_hobbies user) user (up_hobbies updateData).

(** [UserService.updateUser]; [None] is the [null] returned for an unknown
    identifier. *)
Definition updateUser (i : string) (updateData : IUserUpdate) : M (option User) :=
  try_catch
    (let* user := findOne_id i in
     match user with
     | None => ret None
     | Some user =>
       let* _ :=
         match up_username updateData with
         | Some n =>
           if truthy n && negb (bool_decide (n = username user)) then
             let* existingUser := findOne_username_ne n i in
             match existingUser with
             | Some _ => throw E_username_exists
             | None => ret tt
             end
           else ret tt
         | None => ret tt
         end in
       let* user := save (Object_assign user updateData) in
       match up_hobbies updateData with
       | Some _ =>
         let* r := calculatePopularityScore user in
         ret (Some (snd r))
       | None => ret (Some user)
       end
     end)
    (rethrow (is_one_of [E_username_exists]) "Failed to update user: ").

(** [UserService.deleteUser]; [false] is returned for an unknown identifier. *)
Definition deleteUser (i : string) : M bool :=
  try_catch
    (let* user := findOne_id i in
     match user with
     | None => ret false
     | Some _ =>
       let* canDelete := canDeleteUser i in
       if negb canDelete then throw E_has_friends
       else
         let* _ := deleteOne i in
         ret true
     end)
    (rethrow (λ e, includes e "Cannot delete user") "Failed to delete user: ").

(** [UserService.addFriendship]. *)
Definition addFriendship (userId friendId : string) : M unit :=
  try_catch
    (let* user := findOne_id userId in
     match user with
     | None => throw E_user_not_found
     | Some user =>
       if bool_decide (userId = friendId) then throw E_self_friend
       else addFriend user friendId
     end)
    (rethrow
       (is_one_of [E_user_not_found; E_friend_not_found; E_already_friends; E_self_friend])
       "Failed to add friendship: ").

(** [UserService.removeFriendship]. *)
Definition removeFriendship (userId friendId : string) : M unit :=
  try_catch
    (let* user := findOne_id userId in
     match user with
     | None => throw E_user_not_found
     | Some user => removeFriend user friendId
     end)
    (rethrow
       (is_one_of [E_user_not_found; E_friend_not_found; E_not_friends])
       "Failed to remove friendship: ").

(** [UserService.removeHobby]. *)
Definition removeHobby (userId hobby : string) : M (option User) :=
  try_catch
    (let* user := findOne_id userId in
     match user with
     | None => ret None
     | Some user =>
       if negb (bool_decide (hobby ∈ hobbies user)) then throw E_hobby_not_found
       else
         let user :=
           set_hobbies user
             (filter (λ h, h ≠ hobby) (hobbies user)) in
         let* user := save user in
         let* r := calculatePopularityScore user in
         ret (Some (snd r))
     end)
    (rethrow (is_one_of [E_hobby_not_found]) "Failed to remove hobby: ").

(** The numbers [UserService.getUserStats] computes from the collection
    (the list of the five best users, which the database sorts, is left
    out).  The average is the exact one; the code divides and rounds
    doubles, which can differ from it in the last digit, and nothing is
    proved about it. *)
Record Stats := mkStats {
  totalUsers : nat;
  totalFriendships : Q;
  averagePopularityScore : Q
}.

Definition getUserStats : M Stats :=
  try_catch
    (let* total := countDocuments in
     let* users := find_all in
     let friendships :=
       (inject_Z (foldl (λ sum user, sum + Z.of_nat (length (friends user)))%Z 0%Z users)
        / 2)%Q in
     let average :=
       if bool_decide (0 < length users)%nat then
         (foldl (λ sum user, sum + popularityScore user) 0 users
          / inject_Z (Z.of_nat (length users)))%Q
       else 0%Q in
     ret (mkStats total (Qred friendships) (round2 average)))
    (rethrow (λ _, false) "Failed to fetch user statistics: ").

(** ** Mutations as data *)

Inductive Op :=
| OpCreate (newId : string) (now : Z) (userData : IUserInput)
| OpUpdate (i : string) (updateData : IUserUpdate)
| OpDelete (i : string)
| OpLink (userId friendId : string)
| OpUnlink (userId friendId : string)
| OpRemoveHobby (userId hobby : string).

Definition forget {A} (m : M A) : M unit := let* _ := m in ret tt.

Definition run (op : Op) : M unit :=
  match op with
  | OpCreate newId now userData => forget (createUser newId now userData)
  | OpUpdate i updateData => forget (updateUser i updateData)
  | OpDelete i => forget (deleteUser i)
  | OpLink a b => addFriendship a b
  | OpUnlink a b => removeFriendship a b
  | OpRemoveHobby i h => forget (removeHobby i h)
  end.

(** ** The projection of the graph *)

Inductive NodeType := HighScoreNode | LowScoreNode.

Record NodeData := mkNodeData {
  label : string;
  nd_username : string;
  nd_age : Z;
  nd_hobbies : list string;
  nd_popularityScore : Q
}.

Record Position := mkPosition { pos_x : R; pos_y : R }.

Record GraphNode := mkNode {
  node_id : string;
  data : NodeData;
  position : Position;
  type : NodeType
}.

Record GraphEdge := mkEdge {
  edge_id : string;
  source : string;
  target : string;
  edge_type : string
}.

Record GraphData := mkGraph { nodes : list GraphNode; edges : list GraphEdge }.

(** The callback of [users.map]: [n] is [users.length]; the two calls of
    [Math.random] made for the node at [index] are the draws [2 * index]
    and [2 * index + 1] of [random]. *)
Definition graph_node (random : nat → R) (n index : nat) (user : User) : GraphNode :=
  let angle := (INR index * 2 * PI / INR n)%R in
  let radius := 200%R in
  let centerX := 400%R in
  let centerY := 300%R in
  mkNode (id user)
    (mkNodeData (username user +:+ " (" +:+ pretty (age user) +:+ ")")
                (username user) (age user) (hobbies user) (popularityScore user))
    (mkPosition
       (centerX + radius * cos angle + (random (2 * index)%nat - 1 / 2) * 100)%R
       (centerY + radius * sin angle + (random (2 * index + 1)%nat - 1 / 2) * 100)%R)
    (if negb (Qle_bool (popularityScore user) 5) then HighScoreNode else LowScoreNode).

(** [[a, b].sort()], the default order of strings. *)
Definition sort_pair (a b : string) : list string :=
  if String.ltb b a then [b; a] else [a; b].

(** [[user.id, friendId].sort().join('-')]. *)
Definition pairKey (a b : string) : string := String.concat "-" (sort_pair a b).

(** The body of the inner [forEach]; the state is [edges] and
    [processedPairs]. *)
Definition edge_step (user : User) (st : list GraphEdge * list string)
    (friendId : string) : list GraphEdge * list string :=
  let key := pairKey (id user) friendId in
  if negb (JSSet.has (snd st) key) then
    (fst st ++ [mkEdge ("edge-" +:+ id user +:+ "-" +:+ friendId)
                       (id user) friendId "smoothstep"],
     JSSet.add (snd st) key)
  else st.

Definition graph_edges (users : list User) : list GraphEdge :=
  fst (foldl (λ st user, foldl (edge_step user) st (friends user)) ([], []) users).

(** [UserSchema.statics.getGraphData], given the draws of [Math.random]. *)
Definition getGraphData (random : nat → R) : M GraphData :=
  let* users := find_all in
  ret (mkGraph (imap (graph_node random (length users)) users) (graph_edges users)).

(** ** Well-formed stores

    The invariants of the data model: identifiers are unique (the unique
    index of the schema); a list of friends has no repetition, names users
    of the collection and not its owner; friendship is symmetric. *)

Definition ids_unique (s : Store) : Prop := NoDup (id <$> s).

Definition friends_are_sets (s : Store) : Prop :=
  Forall (λ u, NoDup (friends u)) s.

Definition friends_exist (s : Store) : Prop :=
  Forall (λ u, Forall (λ f, f ∈ id <$> s) (friends u)) s.

Definition irreflexive (s : Store) : Prop :=
  Forall (λ u, id u ∉ friends u) s.

Definition symmetric (s : Store) : Prop :=
  Forall (λ a, Forall (λ b, id b ∈ friends a ↔ id a ∈ friends b) s) s.

Definition no_blank_hobbies (s : Store) : Prop :=
  Forall (λ u, Forall not_blank (hobbies u)) s.

Definition consistent (s : Store) : Prop :=
  ids_unique s ∧ friends_are_sets s ∧ friends_exist s ∧ irreflexive s ∧ symmetric s.

Global Instance consistent_dec s : Decision (consistent s).
Proof. unfold consistent, ids_unique, friends_are_sets, friends_exist, irreflexive, symmetric. apply _. Defined.

Global Instance no_blank_hobbies_dec s : Decision (no_blank_hobbies s).
Proof. unfold no_blank_hobbies, not_blank. apply _. Defined.

(** The number of unordered pairs of users of the collection that are
    friends: each user is paired with the users after it. *)
Fixpoint friend_pairs (s : Store) : nat :=
  match s with
  | [] => 0
  | u :: r => length (filter (λ v, id v ∈ friends u) r) + friend_pairs r
  end.

(** ** The score as the specification words it

    [score = |friends| + 0.5 × Σ_{f ∈ friends} |hobbies(user) ∩ hobbies(f)|],
    rounded to two decimal places; friends and hobbies are sets, and
    [hobbies(f)] is read from the collection (nothing for an identifier
    that names no user). *)

Definition hobby_set (u : User) : gset string := list_to_set (hobbies u).

Definition friend_set (u : User) : gset string := list_to_set (friends u).

Definition hobbies_of (s : Store) (f : string) : gset string :=
  from_option hobby_set ∅ (List.find (has_id f) s).

Definition shared_with (s : Store) (u : User) (f : string) : nat :=
  size (hobby_set u ∩ hobbies_of s f).

Definition shared_total (s : Store) (u : User) : nat :=
  sum_list_with (shared_with s u) (elements (friend_set u)).

Definition exact_score (s : Store) (u : User) : Q :=
  (inject_Z (Z.of_nat (size (friend_set u)))
   + (1 # 2) * inject_Z (Z.of_nat (shared_total s u)))%Q.

Definition score_formula (s : Store) (u : User) : Q := round2 (exact_score s u).

(** The stored score of a user agrees with the formula. *)
Definition score_ok (s : Store) (u : User) : Prop :=
  popularityScore u = score_formula s u.

(** ** What the methods compute, in closed form *)

(** The number [calculatePopularityScore] stores for a user with friends. *)
Definition code_score (this : User) (s : Store) : Q :=
  round2 (inject_Z (Z.of_nat (length (friends this)))
          + foldl (add_shared (JSSet.new_Set (hobbies this))) 0
                  (filter (λ u, id u ∈ friends this) s))%Q.

Definition scored (this : User) (s : Store) : User :=
  pre_save (set_popularityScore this (code_score this s)).

(** The collection after [calculatePopularityScore]. *)
Definition calc_store (this : User) (s : Store) : Store :=
  if bool_decide (length (friends this) = 0%nat) then s
  else replace_doc (scored this s) s.

Definition calc_doc (this : User) (s : Store) : User :=
  if bool_decide (length (friends this) = 0%nat) then this else scored this s.

(** ** What a completed operation leaves behind *)

(** The business-rule errors of [link] and [unlink]. *)
Definition link_errors : list Err :=
  [E_self_friend; E_user_not_found; E_friend_not_found; E_already_friends; E_not_friends].

(** The value a computation returns, if it returns. *)
Definition value_of {A} (r : (Err + A) * Store) : option A :=
  match fst r with inl _ => None | inr a => Some a end.

(** The collection after a successful [addFriend] between the stored
    records [ua] and [ub]. *)
Definition link_store (ua ub : User) (s : Store) : Store :=
  let this1 := pre_save (set_friends ua (friends ua ++ [id ub])) in
  let friend1 := pre_save (set_friends ub (friends ub ++ [id ua])) in
  calc_store friend1 (calc_store this1 (replace_doc friend1 (replace_doc this1 s))).

(** The collection after a successful [removeFriend]. *)
Definition unlink_store (ua ub : User) (s : Store) : Store :=
  let this1 := pre_save (set_friends ua (filter (λ i, i ≠ (id ub)) (friends ua))) in
  let friend1 := pre_save (set_friends ub (filter (λ i, i ≠ (id ua)) (friends ub))) in
  calc_store friend1 (calc_store this1 (replace_doc friend1 (replace_doc this1 s))).

(** The collection after [updateUser] found the record [u]. *)
Definition update_store (u : User) (d : IUserUpdate) (s : Store) : Store :=
  let u1 := pre_save (Object_assign u d) in
  match up_hobbies d with
  | Some _ => calc_store u1 (replace_doc u1 s)
  | None => replace_doc u1 s
  end.

(** The collection after [removeHobby] took [h] from the record [u]. *)
Definition removeHobby_store (u : User) (h : string) (s : Store) : Store :=
  let u1 := pre_save (set_hobbies u (filter (λ x, x ≠ h) (hobbies u))) in
  calc_store u1 (replace_doc u1 s).

(** The identifier [uuidv4] hands to a creation is not in use: no record
    has it and no list of friends mentions it. *)
Definition op_fresh (s : Store) (op : Op) : Prop :=
  match op with
  | OpCreate newId _ _ => (newId ∉ id <$> s) ∧ Forall (λ u, newId ∉ friends u) s
  | _ => True
  end.

(** The friends of the user [x] as the collection records them. *)
Definition friends_of (s : Store) (x : string) : option (list string) :=
  friends <$> List.find (has_id x) s.

(** Symmetry, read through [findOne]. *)
Definition sym_find (s : Store) : Prop :=
  ∀ x y fx fy, friends_of s x = Some fx → friends_of s y = Some fy →
               y ∈ fx → x ∈ fy.

Abbreviation adj u := (λ v : User, id v ∈ friends u).

(** The invariants on the lists of friends, read through [findOne]. *)
Definition friends_wf (s : Store) : Prop :=
  ∀ x fx, friends_of s x = Some fx →
          NoDup fx ∧ (x ∉ fx) ∧ ∀ f, f ∈ fx → is_Some (friends_of s f).

(** The states of the collection: the empty collection and what a
    completed operation makes of a state. *)
Inductive reachable : Store → Prop :=
| reach_empty : reachable []
| reach_step s op r s' :
    reachable s → op_fresh s op → run op s = (inr r, s') → reachable s'.

(** The users whose stored score an operation may leave behind the
    formula: after an unlink, an end of the removed friendship that has no
    friend left; after a change of hobbies, the friends of the edited user
    (their records are the ones they had). *)
Definition stale (s : Store) (op : Op) (u : User) : Prop :=
  match op with
  | OpUnlink a b => friends u = [] ∧ (id u = a ∨ id u = b)
  | OpUpdate i d => is_Some (up_hobbies d) ∧ i ∈ friends u ∧ u ∈ s
  | OpRemoveHobby i _ => i ∈ friends u ∧ u ∈ s
  | _ => False
  end.

(** ** Keys of the edges *)

(** The keys the two nested loops of [getGraphData] look up, in order. *)
Fixpoint all_keys (users : list User) : list string :=
  match users with
  | [] => []
  | u :: r => (pairKey (id u) <$> friends u) ++ all_keys r
  end.

(** One key for each pair counted by [friend_pairs]. *)
Fixpoint canon_keys (s : Store) : list string :=
  match s with
  | [] => []
  | u :: r =>
    ((λ v, pairKey (id u) (id v)) <$> filter (λ v, id v ∈ friends u) r) ++ canon_keys r
  end.

(** All identifiers have [n] characters, as the 36 of a UUID. *)
Definition same_length (n : nat) (s : Store) : Prop :=
  Forall (λ u, String.length (id u) = n) s.

(** The point of the circle on which node [index] of [n] is laid out. *)
Definition circle_x (n index : nat) : R :=
  (400 + 200 * cos (INR index * 2 * PI / INR n))%R.

Definition circle_y (n index : nat) : R :=
  (300 + 200 * sin (INR index * 2 * PI / INR n))%R.

(** A node without its position. *)
Definition without_position (nd : GraphNode) : string * NodeData * NodeType :=
  (node_id nd, data nd, type nd).

(** ** Decidable equality of records *)

Global Instance Q_eq_dec : EqDecision Q.
Proof. solve_decision. Defined.

Global Instance User_eq_dec : EqDecision User.
Proof. solve_decision. Defined.

(** A closed decidable proposition, by evaluation. *)
Ltac by_computation := apply (bool_decide_unpack _); vm_compute; exact I.

(** ** Example collections *)

Definition ex_A : User := mkUser "A" "alice" 25 ["coding"; "gaming"] [] 0 0.
Definition ex_B : User := mkUser "B" "bob" 30 ["coding"; "music"] [] 0 0.
Definition ex_C : User := mkUser "C" "carol" 28 ["gaming"; "sports"] [] 0 0.

Definition ex_unlinked : Store := [ex_A; ex_B; ex_C].

(** [A] befriends [B], then [C]. *)
Definition ex_linked : Store :=
  snd (addFriendship "A" "C" (snd (addFriendship "A" "B" ex_unlinked))).

Definition ex_A_linked : User := mkUser "A" "alice" 25 ["coding"; "gaming"] ["B"; "C"] 0 3.
Definition ex_B_linked : User := mkUser "B" "bob" 30 ["coding"; "music"] ["A"] 0 (3 # 2).
Definition ex_C_linked : User := mkUser "C" "carol" 28 ["gaming"; "sports"] ["A"] 0 (3 # 2).

Definition ex_after_unlink : Store := snd (removeFriendship "A" "B" ex_linked).

(** Two friends with one shared hobby, scores as the link left them. *)
Definition ex_pair_A : User := mkUser "A" "alice" 25 ["coding"] ["B"] 0 (3 # 2).
Definition ex_pair_B : User := mkUser "B" "bob" 30 ["coding"; "gaming"] ["A"] 0 (3 # 2).

Definition ex_pair : Store := [ex_pair_A; ex_pair_B].

Definition ex_pair_unlinked : Store :=
  [ mkUser "A" "alice" 25 ["coding"] [] 0 (3 # 2);
    mkUser "B" "bob" 30 ["coding"; "gaming"] [] 0 (3 # 2) ].

Definition ex_pair_updated : Store :=
  snd (updateUser "A" (mkUpdate None None (Some ["coding"; "gaming"])) ex_pair).

(** Identifiers of different lengths that contain the separator of
    [pairKey]: the friendships a-b/c and a/b-c have one key. *)
Definition ex_collide : Store :=
  [ mkUser "a-b" "ann" 20 ["chess"] ["c"] 0 1;
    mkUser "c" "cat" 21 ["chess"] ["a-b"] 0 1;
    mkUser "a" "abe" 22 ["go"] ["b-c"] 0 1;
    mkUser "b-c" "bea" 23 ["go"] ["a"] 0 1 ].

Definition ex_uuid_1 : string := "550e8400-e29b-41d4-a716-446655440001".
Definition ex_uuid_2 : string := "550e8400-e29b-41d4-a716-446655440002".
Definition ex_uuid_3 : string := "550e8400-e29b-41d4-a716-446655440003".

Definition ex_uuid_store : Store :=
  [ mkUser ex_uuid_1 "alice" 25 ["coding"; "gaming"] [ex_uuid_2; ex_uuid_3] 0 3;
    mkUser ex_uuid_2 "bob" 30 ["coding"; "music"] [ex_uuid_1] 0 (3 # 2);
    mkUser ex_uuid_3 "carol" 28 ["gaming"; "sports"] [ex_uuid_1] 0 (3 # 2) ].

(** ** Documents the schema accepts *)

(** A string given by its bytes. *)
Definition bytes (l : list nat) : string := string_of_list_ascii (ascii_of_nat <$> l).

(** The white space and the line terminators of JavaScript, which
    [String.prototype.trim] removes, in UTF-8: U+0009 to U+000D, U+0020,
    U+00A0, U+1680, U+2000 to U+200A, U+2028, U+2029, U+202F, U+205F,
    U+3000 and U+FEFF. *)
Definition js_white_space : list string :=
  bytes <$>
    [ [9]; [10]; [11]; [12]; [13]; [32]; [194; 160]; [225; 154; 128];
      [226; 128; 128]; [226; 128; 129]; [226; 128; 130]; [226; 128; 131];
      [226; 128; 132]; [226; 128; 133]; [226; 128; 134]; [226; 128; 135];
      [226; 128; 136]; [226; 128; 137]; [226; 128; 138];
      [226; 128; 168]; [226; 128; 169]; [226; 128; 175]; [226; 129; 159];
      [227; 128; 128]; [239; 187; 191] ]%nat.

Definition starts_with_space (s : string) : bool :=
  existsb (λ w, String.prefix w s) js_white_space.

Definition ends_with_space (s : string) : bool :=
  existsb (λ w, String.prefix (String.rev w) (String.rev s)) js_white_space.

(** [x.trim() === x]: the [trim] setter of the schema leaves [x] as it is. *)
Definition trimmed (x : string) : Prop :=
  starts_with_space x = false ∧ ends_with_space x = false.

(** [x.length], the number of UTF-16 code units of a string kept in UTF-8:
    one for each character, and one more for each character outside the
    basic plane (four bytes, the first from 240 on). *)
Definition utf16_length (x : string) : nat :=
  let bs := nat_of_ascii <$> list_ascii_of_string x in
  (length (filter (λ b, ¬ (128 ≤ b < 192)) bs) + length (filter (λ b, 240 ≤ b) bs))%nat.

(** The validators of [UserSchema]. *)
Definition valid_username (x : string) : Prop :=
  trimmed x ∧ (2 ≤ utf16_length x ≤ 50)%nat.

Definition valid_age (a : Z) : Prop := (13 ≤ a ≤ 120)%Z.

Definition valid_hobby (h : string) : Prop :=
  trimmed h ∧ (1 ≤ utf16_length h ≤ 100)%nat.

(** Input of [createUser] that [new User(userData)] takes as it is and
    [save] accepts. *)
Definition valid_input (d : IUserInput) : Prop :=
  valid_username (in_username d) ∧ valid_age (in_age d) ∧
  Forall valid_hobby (in_hobbies d).

(** The same for the fields an update carries. *)
Definition valid_update (d : IUserUpdate) : Prop :=
  match up_username d with Some x => valid_username x | None => True end ∧
  match up_age d with Some a => valid_age a | None => True end ∧
  match up_hobbies d with Some hs => Forall valid_hobby hs | None => True end.

(** A stored document that passes the validators again when it is saved. *)
Definition valid_user (u : User) : Prop :=
  valid_username (username u) ∧ valid_age (age u) ∧
  Forall valid_hobby (hobbies u) ∧ (id u ∉ friends u) ∧
  (0 <= popularityScore u)%Q.

Definition valid_store (s : Store) : Prop := Forall valid_user s.

Definition valid_op (op : Op) : Prop :=
  match op with
  | OpCreate _ _ userData => valid_input userData
  | OpUpdate _ updateData => valid_update updateData
  | _ => True
  end.

Global Instance trimmed_dec x : Decision (trimmed x).
Proof. unfold trimmed. apply _. Defined.

Global Instance valid_username_dec x : Decision (valid_username x).
Proof. unfold valid_username. apply _. Defined.

Global Instance valid_age_dec a : Decision (valid_age a).
Proof. unfold valid_age. apply _. Defined.

Global Instance valid_hobby_dec h : Decision (valid_hobby h).
Proof. unfold valid_hobby. apply _. Defined.

Global Instance valid_input_dec d : Decision (valid_input d).
Proof. unfold valid_input. apply _. Defined.

Global Instance valid_update_dec d : Decision (valid_update d).
Proof.
  unfold valid_update.
  destruct (up_username d), (up_age d), (up_hobbies d); apply _.
Defined.

Global Instance Qle_decision (a b : Q) : Decision (a <= b)%Q.
Proof. unfold Qle. apply _. Defined.

Global Instance valid_user_dec u : Decision (valid_user u).
Proof. unfold valid_user. apply _. Defined.

Global Instance valid_store_dec s : Decision (valid_store s).
Proof. unfold valid_store. apply _. Defined.

(** ** The rest of the service, the controllers and the client *)

(** [UserService.getUserById]. *)
Definition getUserById (i : string) : M (option User) :=
  try_catch (findOne_id i) (rethrow (λ _, false) "Failed to fetch user: ").

(** The errors the service throws on purpose. *)
Definition business_errors : list Err :=
  [E_username_exists; E_has_friends; E_hobby_not_found; E_self_friend;
   E_user_not_found; E_friend_not_found; E_already_friends; E_not_friends].

(** The check of [updateUser] on the new user name. *)
Definition name_taken (i : string) (user : User) (d : IUserUpdate) (s : Store) : bool :=
  match up_username d with
  | Some n =>
    truthy n && negb (bool_decide (n = username user)) &&
    bool_decide (is_Some (List.find
      (λ u, bool_decide (username u = n) && negb (has_id i u)) s))
  | None => false
  end.

(** Calls in sequence, as a chain of [await]s. *)
Fixpoint sequence_ (ms : list (M unit)) : M unit :=
  match ms with
  | [] => ret tt
  | m :: r => let* _ := m in sequence_ r
  end.

(** [Array.prototype.sort()] without a comparator orders strings by their
    UTF-16 code units.  On strings kept in UTF-8 the order of the bytes is
    the order of the code points; the two differ only in that the
    characters from U+E000 to U+FFFF (first byte 238 or 239) come after the
    characters outside the basic plane (first byte 240 to 244, a surrogate
    pair in UTF-16).  Moving the bytes 238 and 239 to the end of the bytes
    (254 and 255 occur in no UTF-8 text) turns one order into the other. *)
Definition utf16_key_byte (c : ascii) : ascii :=
  match c with
  | "238" => "254" | "239" => "255" | "254" => "238" | "255" => "239" | _ => c
  end%char.

Fixpoint utf16_key (s : string) : string :=
  match s with
  | EmptyString => EmptyString
  | String c r => String (utf16_key_byte c) (utf16_key r)
  end.

(** [a] is before [b] in the order of [sort()]. *)
Definition str_lt (a b : string) : Prop := String.ltb (utf16_key a) (utf16_key b) = true.

(** [a] is not after [b]. *)
Definition str_le (a b : string) : Prop := String.ltb (utf16_key b) (utf16_key a) = false.

Global Instance str_le_dec a b : Decision (str_le a b).
Proof. unfold str_le. apply _. Defined.

(** [UserService.getAllHobbies].  The elements that are sorted are distinct
    and the order is total, so the sorted array is the same whatever
    algorithm the engine uses. *)
Definition getAllHobbies : M (list string) :=
  try_catch
    (let* users := find_all in
     let allHobbies := users ≫= hobbies in
     let uniqueHobbies := merge_sort str_le (JSSet.new_Set allHobbies) in
     ret uniqueHobbies)
    (rethrow (λ _, false) "Failed to fetch hobbies: ").

(** The key [getGraphData] computes for an edge. *)
Definition edge_key (e : GraphEdge) : string := pairKey (source e) (target e).

(** The edges made so far, as the loops of [getGraphData] keep them: the
    keys of the edges are the set of processed pairs, in order, and each
    edge was made from a friend of a user. *)
Definition edges_inv (users : list User) (st : list GraphEdge * list string) : Prop :=
  edge_key <$> fst st = snd st ∧
  Forall (λ e, ∃ u, u ∈ users ∧ source e = id u ∧ target e ∈ friends u ∧
               edge_id e = "edge-" +:+ source e +:+ "-" +:+ target e ∧
               edge_type e = "smoothstep") (fst st).

(** ** Request validation *)

(** [c] lies in the range [lo-hi] of a bracket expression. *)
Definition in_range (lo hi c : ascii) : bool :=
  (nat_of_ascii lo <=? nat_of_ascii c)%nat && (nat_of_ascii c <=? nat_of_ascii hi)%nat.

(** The flag [i] compares letters up to case. *)
Definition to_lower (c : ascii) : ascii :=
  if in_range "A" "Z" c then ascii_of_nat (nat_of_ascii c + 32) else c.

(** A bracket expression, as its ranges (a single character is the range
    from it to itself), under the flag [i]. *)
Definition char_class (ranges : list (ascii * ascii)) (c : ascii) : bool :=
  existsb (λ r, in_range (fst r) (snd r) (to_lower c)) ranges.

(** An anchored pattern [^ C1{n1} C2{n2} ... $]. *)
Fixpoint matches (classes : list (list (ascii * ascii))) (cs : list ascii) : bool :=
  match classes, cs with
  | [], [] => true
  | cl :: classes, c :: cs => char_class cl c && matches classes cs
  | _, _ => false
  end.

Definition regex_test (pat : list (list (ascii * ascii) * nat)) (s : string) : bool :=
  matches (pat ≫= λ p, replicate (snd p) (fst p)) (list_ascii_of_string s).

(** [/^[0-9a-f]{8}-[0-9a-f]{4}-[1-5][0-9a-f]{3}-[89ab][0-9a-f]{3}-[0-9a-f]{12}$/i]. *)
Definition uuidRegex : list (list (ascii * ascii) * nat) :=
  let hex := [("0", "9"); ("a", "f")]%char in
  let dash := [("-", "-")]%char in
  [ (hex, 8); (dash, 1); (hex, 4); (dash, 1);
    ([("1", "5")]%char, 1); (hex, 3); (dash, 1);
    ([("8", "8"); ("9", "9"); ("a", "a"); ("b", "b")]%char, 1); (hex, 3); (dash, 1);
    (hex, 12) ]%nat.

(** ** Responses *)

(** [IApiResponse]; an absent field is [None]. *)
Record IApiResponse (A : Type) := mkResponse {
  statusCode : nat;
  success : bool;
  resp_data : option A;
  resp_message : string;
  resp_error : option string
}.
Arguments mkResponse {A}.
Arguments statusCode {A}.
Arguments success {A}.
Arguments resp_data {A}.
Arguments resp_message {A}.
Arguments resp_error {A}.

(** [validateUUID]: the request goes on to [next] or is answered here. *)
Definition validateUUID {A} (i : string) (next : M (IApiResponse A)) : M (IApiResponse A) :=
  if negb (regex_test uuidRegex i) then
    ret (mkResponse 400 false None "Invalid user ID format" None)
  else next.

Section Controller.

(** [process.env.NODE_ENV === 'development']. *)
Variable development : bool.

(** [ApiResponse.success]; [data] is [None] for [null]. *)
Definition ApiResponse_success {A} (data : option A) (message : string)
    (status : nat) : IApiResponse A :=
  mkResponse status true data message None.

(** [ApiResponse.error]; [error] is the message of the error passed, if one
    was. *)
Definition ApiResponse_error {A} (message : string) (status : nat)
    (error : option Err) : IApiResponse A :=
  mkResponse status false None message (if development then error else None).

Definition ApiResponse_notFound {A} (resource : string) : IApiResponse A :=
  mkResponse 404 false None (resource +:+ " not found") None.

Definition ApiResponse_conflict {A} (message : string) : IApiResponse A :=
  mkResponse 409 false None message None.

(** [UserController.getUserById]. *)
Definition UserController_getUserById (i : string) : M (IApiResponse User) :=
  try_catch
    (let* user := getUserById i in
     match user with
     | None => ret (ApiResponse_notFound "User")
     | Some user => ret (ApiResponse_success (Some user) "User fetched successfully" 200)
     end)
    (λ e, ret (ApiResponse_error "Failed to fetch user" 500 (Some e))).

(** [UserController.createUser]. *)
Definition UserController_createUser (newId : string) (now : Z) (body : IUserInput)
    : M (IApiResponse User) :=
  try_catch
    (let* user := createUser newId now body in
     ret (ApiResponse_success (Some user) "User created successfully" 201))
    (λ e, if bool_decide (e = E_username_exists) then ret (ApiResponse_conflict e)
          else ret (ApiResponse_error "Failed to create user" 500 (Some e))).

(** [UserController.updateUser]. *)
Definition UserController_updateUser (i : string) (body : IUserUpdate)
    : M (IApiResponse User) :=
  try_catch
    (let* user := updateUser i body in
     match user with
     | None => ret (ApiResponse_notFound "User")
     | Some user => ret (ApiResponse_success (Some user) "User updated successfully" 200)
     end)
    (λ e, if bool_decide (e = E_username_exists) then ret (ApiResponse_conflict e)
          else ret (ApiResponse_error "Failed to update user" 500 (Some e))).

(** [UserController.deleteUser]. *)
Definition UserController_deleteUser (i : string) : M (IApiResponse unit) :=
  try_catch
    (let* deleted := deleteUser i in
     if negb deleted then ret (ApiResponse_notFound "User")
     else ret (ApiResponse_success None "User deleted successfully" 200))
    (λ e, if includes e "Cannot delete user" then ret (ApiResponse_conflict e)
          else ret (ApiResponse_error "Failed to delete user" 500 (Some e))).

(** [!friendId] for a field of the body that is a string or absent. *)
Definition falsy (x : option string) : bool :=
  match x with Some v => negb (truthy v) | None => true end.

(** [UserController.addFriendship]. *)
Definition UserController_addFriendship (i : string) (friendId : option string)
    : M (IApiResponse unit) :=
  try_catch
    (if falsy friendId then ret (ApiResponse_error "Friend ID is required" 400 None)
     else
       let* _ := addFriendship i (default "" friendId) in
       ret (ApiResponse_success None "Friendship created successfully" 200))
    (λ e, if is_one_of [E_user_not_found; E_friend_not_found; E_already_friends;
                        E_self_friend] e
          then ret (ApiResponse_conflict e)
          else ret (ApiResponse_error "Failed to create friendship" 500 (Some e))).

(** [UserController.removeFriendship]. *)
Definition UserController_removeFriendship (i : string) (friendId : option string)
    : M (IApiResponse unit) :=
  try_catch
    (if falsy friendId then ret (ApiResponse_error "Friend ID is required" 400 None)
     else
       let* _ := removeFriendship i (default "" friendId) in
       ret (ApiResponse_success None "Friendship removed successfully" 200))
    (λ e, if is_one_of [E_user_not_found; E_friend_not_found; E_not_friends] e
          then ret (ApiResponse_conflict e)
          else ret (ApiResponse_error "Failed to remove friendship" 500 (Some e))).

(** [UserController.removeHobby]. *)
Definition UserController_removeHobby (i hobby : string) : M (IApiResponse User) :=
  try_catch
    (if negb (truthy hobby) then ret (ApiResponse_error "Hobby is required" 400 None)
     else
       let* user := removeHobby i hobby in
       match user with
       | None => ret (ApiResponse_notFound "User")
       | Some user => ret (ApiResponse_success (Some user) "Hobby removed successfully" 200)
       end)
    (λ e, if bool_decide (e = E_hobby_not_found) then ret (ApiResponse_conflict e)
          else ret (ApiResponse_error "Failed to remove hobby" 500 (Some e))).

(** A handler answers every request on a collection that satisfies [pre],
    with one of the statuses of the API; [success] tells 2xx from the rest,
    and a request that is not answered with success leaves the collection
    as it was. *)
Definition answers {A} (pre : Store → Prop) (h : M (IApiResponse A)) : Prop :=
  ∀ s, pre s → ∃ r s', h s = (inr r, s') ∧
    statusCode r ∈ [200; 201; 400; 404; 409]%nat ∧
    (success r = true ↔ (statusCode r < 300)%nat) ∧
    (success r = false → s' = s ∧ resp_data r = None).

End Controller.

Ltac status_in_list :=
  repeat first [apply list_elem_of_here | apply list_elem_of_further].

Ltac answered :=
  eexists _, _; split; [reflexivity|];
  cbn [statusCode success resp_data ApiResponse_success ApiResponse_error
       ApiResponse_notFound ApiResponse_conflict];
  split; [status_in_list|]; split; [split; [intros; lia|done || (intros; lia)]|done].

(** ** The state of the client

    [AppContext.tsx].  The client's [User] and [GraphData] have the fields of
    the server's (the time stamp travels as a string; the reducers never
    read it), so the records of the server are used. *)

Record AppState := mkAppState {
  st_users : list User;
  st_hobbies : list string;
  st_graphData : GraphData;
  st_loading : bool;
  st_error : option string;
  st_selectedUser : option User;
  st_searchQuery : string;
  st_filterHobbies : list string
}.

Inductive AppAction :=
| SET_LOADING (payload : bool)
| SET_ERROR (payload : option string)
| SET_USERS (payload : list User)
| SET_HOBBIES (payload : list string)
| ADD_HOBBY (payload : string)
| SET_GRAPH_DATA (payload : GraphData)
| SET_SELECTED_USER (payload : option User)
| SET_SEARCH_QUERY (payload : string)
| SET_FILTER_HOBBIES (payload : list string)
| ADD_USER (payload : User)
| UPDATE_USER (payload : User)
| DELETE_USER (payload : string)
| ADD_FRIENDSHIP (userId friendId : string)
| REMOVE_FRIENDSHIP (userId friendId : string)
| UNDO
| REDO
| SAVE_STATE.

Definition initialState : AppState :=
  mkAppState [] [] (mkGraph [] []) false None None "" [].

(** [{ ...state, users }] and [{ ...state, users, selectedUser }]. *)
Definition with_users (state : AppState) (users : list User) : AppState :=
  mkAppState users (st_hobbies state) (st_graphData state) (st_loading state)
    (st_error state) (st_selectedUser state) (st_searchQuery state) (st_filterHobbies state).

Definition with_users_selected (state : AppState) (users : list User)
    (selectedUser : option User) : AppState :=
  mkAppState users (st_hobbies state) (st_graphData state) (st_loading state)
    (st_error state) selectedUser (st_searchQuery state) (st_filterHobbies state).

(** [state.selectedUser?.id === i]. *)
Definition selected_is (state : AppState) (i : string) : bool :=
  match st_selectedUser state with
  | Some u => bool_decide (id u = i)
  | None => false
  end.

Definition appReducer (state : AppState) (action : AppAction) : AppState :=
  match action with
  | SET_LOADING payload =>
    mkAppState (st_users state) (st_hobbies state) (st_graphData state) payload
      (st_error state) (st_selectedUser state) (st_searchQuery state) (st_filterHobbies state)
  | SET_ERROR payload =>
    mkAppState (st_users state) (st_hobbies state) (st_graphData state) (st_loading state)
      payload (st_selectedUser state) (st_searchQuery state) (st_filterHobbies state)
  | SET_USERS payload => with_users state payload
  | SET_HOBBIES payload =>
    mkAppState (st_users state) payload (st_graphData state) (st_loading state)
      (st_error state) (st_selectedUser state) (st_searchQuery state) (st_filterHobbies state)
  | ADD_HOBBY payload =>
    mkAppState (st_users state)
      (if bool_decide (payload ∈ st_hobbies state) then st_hobbies state
       else st_hobbies state ++ [payload])
      (st_graphData state) (st_loading state)
      (st_error state) (st_selectedUser state) (st_searchQuery state) (st_filterHobbies state)
  | SET_GRAPH_DATA payload =>
    mkAppState (st_users state) (st_hobbies state) payload (st_loading state)
      (st_error state) (st_selectedUser state) (st_searchQuery state) (st_filterHobbies state)
  | SET_SELECTED_USER payload =>
    mkAppState (st_users state) (st_hobbies state) (st_graphData state) (st_loading state)
      (st_error state) payload (st_searchQuery state) (st_filterHobbies state)
  | SET_SEARCH_QUERY payload =>
    mkAppState (st_users state) (st_hobbies state) (st_graphData state) (st_loading state)
      (st_error state) (st_selectedUser state) payload (st_filterHobbies state)
  | SET_FILTER_HOBBIES payload =>
    mkAppState (st_users state) (st_hobbies state) (st_graphData state) (st_loading state)
      (st_error state) (st_selectedUser state) (st_searchQuery state) payload
  | ADD_USER payload => with_users state (st_users state ++ [payload])
  | UPDATE_USER payload =>
    with_users_selected state
      ((λ user, if bool_decide (id user = id payload) then payload else user)
         <$> st_users state)
      (if selected_is state (id payload) then Some payload else st_selectedUser state)
  | DELETE_USER payload =>
    with_users_selected state
      (filter (λ user, id user ≠ payload) (st_users state))
      (if selected_is state payload then None else st_selectedUser state)
  | ADD_FRIENDSHIP userId friendId =>
    with_users state
      ((λ user,
          if bool_decide (id user = userId) then
            set_friends user (friends user ++ [friendId])
          else if bool_decide (id user = friendId) then
            set_friends user (friends user ++ [userId])
          else user) <$> st_users state)
  | REMOVE_FRIENDSHIP userId friendId =>
    with_users state
      ((λ user,
          if bool_decide (id user = userId) then
            set_friends user (filter (λ i, i ≠ friendId) (friends user))
          else if bool_decide (id user = friendId) then
            set_friends user (filter (λ i, i ≠ userId) (friends user))
          else user) <$> st_users state)
  | UNDO | REDO | SAVE_STATE => state
  end.

Record UndoRedoState := mkUndoRedo {
  past : list AppState;
  present : AppState;
  future : list AppState
}.

Definition undoRedoInitialState : UndoRedoState := mkUndoRedo [] initialState [].

(** The element read from an array of known positive length is there; the
    [None] branches are not reached. *)
Definition undoRedoReducer (state : UndoRedoState) (action : AppAction) : UndoRedoState :=
  match action with
  | SAVE_STATE => mkUndoRedo (past state ++ [present state]) (present state) []
  | UNDO =>
    if bool_decide (length (past state) = 0%nat) then state
    else
      match past state !! (length (past state) - 1)%nat with
      | Some previous =>
        let newPast := take (length (past state) - 1) (past state) in
        mkUndoRedo newPast previous (present state :: future state)
      | None => state
      end
  | REDO =>
    if bool_decide (length (future state) = 0%nat) then state
    else
      match future state !! 0%nat with
      | Some next =>
        let newFuture := drop 1 (future state) in
        mkUndoRedo (past state ++ [present state]) next newFuture
      | None => state
      end
  | _ => mkUndoRedo (past state) (appReducer (present state) action) (future state)
  end.

(** The states of the history, oldest first. *)
Definition timeline (state : UndoRedoState) : list AppState :=
  past state ++ present state :: future state.

(** The actions the history reducer hands to [appReducer]. *)
Definition is_edit (action : AppAction) : bool :=
  match action with UNDO | REDO | SAVE_STATE => false | _ => true end.

(** ** The node component of the client

    [UserNode.tsx]: what the component computes from the data of a node. *)

Definition isHighScore (data : NodeData) : bool :=
  negb (Qle_bool (nd_popularityScore data) 5).

Definition getNodeColor (data : NodeData) (selected isConnecting : bool) : string :=
  if isConnecting then "#ff9800"
  else if selected then (if isHighScore data then "#4caf50" else "#2196f3")
  else (if isHighScore data then "#66bb6a" else "#42a5f5").

Definition getNodeSize (data : NodeData) : Q :=
  let baseSize := 200%Q in
  let scoreMultiplier := Qmin (nd_popularityScore data / 10) 2 in
  (baseSize + scoreMultiplier * 50)%Q.

(** * Proofs *)

(** ** Evaluation lemmas *)

Lemma calc_eq (this : User) (s : Store) :
  calculatePopularityScore this s =
  (inr (if bool_decide (length (friends this) = 0%nat) then 0%Q
        else popularityScore (scored this s), calc_doc this s),
   calc_store this s).
Proof.
  unfold calculatePopularityScore, calc_doc, calc_store.
  case_bool_decide; reflexivity.
Qed.

Lemma rethrow_known {A} (known : Err → bool) (wrap : string) (e : Err) (s : Store) :
  known e = true → @rethrow A known wrap e s = (inl e, s).
Proof. intros H. unfold rethrow. rewrite H. reflexivity. Qed.

Lemma find_has_id (i : string) (s : Store) (u : User) :
  List.find (has_id i) s = Some u → u ∈ s ∧ id u = i.
Proof.
  intros H. apply find_some in H as [Hin Hid].
  split; [by apply list_elem_of_In|].
  unfold has_id in Hid. by apply bool_decide_eq_true in Hid.
Qed.

Lemma find_has_id_None (i : string) (s : Store) :
  List.find (has_id i) s = None ↔ i ∉ id <$> s.
Proof.
  induction s as [|u r IH]; simpl.
  - split; [intros _ H; by apply elem_of_nil in H|done].
  - unfold has_id at 1. case_bool_decide as Hu.
    + split; [done|]. intros H. exfalso. apply H. rewrite <- Hu. apply list_elem_of_here.
    + rewrite IH, elem_of_cons. intuition congruence.
Qed.

Lemma find_has_id_Some (i : string) (s : Store) :
  i ∈ id <$> s → is_Some (List.find (has_id i) s).
Proof.
  intros H. destruct (List.find (has_id i) s) eqn:E; [eauto|].
  by apply find_has_id_None in E.
Qed.

(** ** Failed links and unlinks *)

Lemma addFriend_eq (this : User) (friendId : string) (s : Store) :
  addFriend this friendId s =
  if bool_decide (friendId ∈ friends this) then (inl E_already_friends, s)
  else if bool_decide (friendId = id this) then (inl E_self_friend, s)
  else match List.find (has_id friendId) s with
       | None => (inl E_friend_not_found, s)
       | Some friend =>
         let this1 := pre_save (set_friends this (friends this ++ [friendId])) in
         let friend1 := pre_save (set_friends friend (friends friend ++ [id this])) in
         let s2 := replace_doc friend1 (replace_doc this1 s) in
         (inr tt, calc_store friend1 (calc_store this1 s2))
       end.
Proof.
  unfold addFriend. do 2 (case_bool_decide; [reflexivity|]).
  unfold bind, findOne_id. destruct (List.find (has_id friendId) s); [|reflexivity].
  simpl. rewrite !calc_eq. reflexivity.
Qed.

Lemma removeFriend_eq (this : User) (friendId : string) (s : Store) :
  removeFriend this friendId s =
  if bool_decide (friendId ∈ friends this) then
    match List.find (has_id friendId) s with
    | None => (inl E_friend_not_found, s)
    | Some friend =>
      let this1 := pre_save (set_friends this (filter (λ i, i ≠ friendId) (friends this))) in
      let friend1 := pre_save (set_friends friend (filter (λ i, i ≠ id this) (friends friend))) in
      let s2 := replace_doc friend1 (replace_doc this1 s) in
      (inr tt, calc_store friend1 (calc_store this1 s2))
    end
  else (inl E_not_friends, s).
Proof.
  unfold removeFriend. case_bool_decide; [|reflexivity]. simpl.
  unfold bind, findOne_id. destruct (List.find (has_id friendId) s); [|reflexivity].
  simpl. rewrite !calc_eq. reflexivity.
Qed.

Lemma addFriendship_eq (a b : string) (s : Store) :
  addFriendship a b s =
  match List.find (has_id a) s with
  | None => (inl E_user_not_found, s)
  | Some user =>
    if bool_decide (a = b) then (inl E_self_friend, s) else addFriend user b s
  end.
Proof.
  unfold addFriendship, try_catch, bind, findOne_id.
  destruct (List.find (has_id a) s) as [user|]; [|reflexivity].
  case_bool_decide; [reflexivity|].
  rewrite addFriend_eq.
  repeat case_bool_decide; try reflexivity.
  destruct (List.find (has_id b) s); reflexivity.
Qed.

Lemma removeFriendship_eq (a b : string) (s : Store) :
  removeFriendship a b s =
  match List.find (has_id a) s with
  | None => (inl E_user_not_found, s)
  | Some user => removeFriend user b s
  end.
Proof.
  unfold removeFriendship, try_catch, bind, findOne_id.
  destruct (List.find (has_id a) s) as [user|]; [|reflexivity].
  rewrite removeFriend_eq.
  case_bool_decide; [|reflexivity].
  destruct (List.find (has_id b) s); reflexivity.
Qed.

(** C4. When [addFriendship] (link) or [removeFriendship] (unlink) fails,
    the error is one of the business-rule violations (self link, user or
    friend not found, already friends, not friends) and the collection the
    call leaves behind is the collection it started from: no record, and so
    neither of the two users involved, has been changed. *)
Theorem failed_link_unlink_changes_nothing (s s' : Store) (a b : string) (e : Err) :
  addFriendship a b s = (inl e, s') ∨ removeFriendship a b s = (inl e, s') →
  e ∈ link_errors ∧ s' = s.
Proof.
  unfold link_errors.
  intros [H|H].
  - rewrite addFriendship_eq in H.
    destruct (List.find (has_id a) s) as [user|].
    + case_bool_decide; [simplify_eq; split; [set_solver|done]|].
      rewrite addFriend_eq in H.
      repeat case_bool_decide; try (simplify_eq; split; [set_solver|done]).
      destruct (List.find (has_id b) s); simplify_eq.
      split; [set_solver|done].
    + simplify_eq. split; [set_solver|done].
  - rewrite removeFriendship_eq in H.
    destruct (List.find (has_id a) s) as [user|].
    + rewrite removeFriend_eq in H.
      case_bool_decide; [|simplify_eq; split; [set_solver|done]].
      destruct (List.find (has_id b) s); simplify_eq.
      split; [set_solver|done].
    + simplify_eq. split; [set_solver|done].
Qed.

(** ** Deletion *)

Lemma remove_doc_length (i : string) (s : Store) :
  i ∈ id <$> s → S (length (remove_doc i s)) = length s.
Proof.
  induction s as [|u r IH]; simpl; [by intros ?%elem_of_nil|].
  intros H. unfold has_id at 1. case_bool_decide as Hu; [done|].
  apply elem_of_cons in H as [H|H]; [congruence|].
  simpl. by rewrite IH.
Qed.

Lemma remove_doc_ids (i : string) (s : Store) :
  ids_unique s → ∀ v, v ∈ remove_doc i s ↔ v ∈ s ∧ id v ≠ i.
Proof.
  unfold ids_unique. induction s as [|u r IH]; simpl; intros Hnd v.
  - rewrite elem_of_nil. tauto.
  - apply NoDup_cons in Hnd as [Hu Hr].
    unfold has_id at 1. case_bool_decide as E.
    + rewrite elem_of_cons. split.
      * intros Hv. split; [by right|]. intros Hi. apply Hu. rewrite E, <- Hi.
        by apply list_elem_of_fmap_2.
      * intros [[->|Hv] Hi]; [congruence|done].
    + rewrite !elem_of_cons, (IH Hr). split.
      * intros [->|[? ?]]; [split; [by left|done]|split; [by right|done]].
      * intros [[->|Hv] Hi]; [by left|by right].
Qed.

(** C7. For a user that exists, [deleteUser] fails with the has-friends
    error when the user's list of friends is not empty, and the collection
    stays as it was; when the list is empty it returns [true] and the
    collection loses exactly that user's record. *)
Theorem delete_guard (s : Store) (i : string) (u : User) :
  ids_unique s →
  List.find (has_id i) s = Some u →
  (friends u ≠ [] → deleteUser i s = (inl E_has_friends, s)) ∧
  (friends u = [] →
     ∃ s', deleteUser i s = (inr true, s') ∧ S (length s') = length s ∧
           ∀ v, v ∈ s' ↔ v ∈ s ∧ id v ≠ i).
Proof.
  intros Hnd Hu.
  unfold deleteUser, try_catch, bind, findOne_id, canDeleteUser, bind, findOne_id.
  rewrite Hu. simpl. rewrite Hu. simpl. split; intros Hf.
  - rewrite bool_decide_eq_false_2; [reflexivity|].
    destruct (friends u); [done|simpl; lia].
  - rewrite Hf. simpl. eexists. split; [reflexivity|]. split.
    + apply remove_doc_length. apply find_has_id in Hu as [Hin <-].
      by apply list_elem_of_fmap_2.
    + by apply remove_doc_ids.
Qed.

(** ** Unique user names *)

Lemma find_username_Some (n : string) (s : Store) (v : User) :
  v ∈ s → username v = n →
  is_Some (List.find (λ u, bool_decide (username u = n)) s).
Proof.
  intros Hv Hn. destruct (List.find _ s) eqn:E; [eauto|].
  apply list_elem_of_In in Hv.
  pose proof (find_none _ _ E _ Hv) as H. simpl in H.
  by apply bool_decide_eq_false in H.
Qed.

Lemma createUser_duplicate (newId : string) (now : Z) (d : IUserInput)
    (s : Store) (v : User) :
  v ∈ s → username v = in_username d →
  createUser newId now d s = (inl E_username_exists, s).
Proof.
  intros Hv Hn. unfold createUser, try_catch, bind, findOne_username.
  destruct (find_username_Some _ _ _ Hv Hn) as [w ->]. reflexivity.
Qed.

Lemma createUser_success (newId : string) (now : Z) (d : IUserInput)
    (s s' : Store) (u : User) :
  createUser newId now d s = (inr u, s') →
  u = pre_save (new_User newId now d) ∧ s' = s ++ [u] ∧
  List.find (λ u, bool_decide (username u = in_username d)) s = None.
Proof.
  unfold createUser, try_catch, bind, findOne_username.
  destruct (List.find _ s) eqn:E; [discriminate|].
  unfold save_new. rewrite calc_eq. simpl.
  intros H. by simplify_eq.
Qed.

(** C8. [createUser] with a user name that a user of the collection holds
    fails with the user-name-exists error, so the second of two creations
    with one name fails; [updateUser] that renames a user to a (non-empty)
    name held by another user fails with the same error.  In each case the
    collection is left as it was. *)
Theorem duplicate_name_rejected (s : Store) :
  (∀ newId now d v, v ∈ s → username v = in_username d →
     createUser newId now d s = (inl E_username_exists, s)) ∧
  (∀ newId now d u s1 newId' now' d',
     createUser newId now d s = (inr u, s1) → in_username d' = in_username d →
     createUser newId' now' d' s1 = (inl E_username_exists, s1)) ∧
  (∀ i d n u v, List.find (has_id i) s = Some u → up_username d = Some n →
     n ≠ "" → n ≠ username u → v ∈ s → username v = n → id v ≠ i →
     updateUser i d s = (inl E_username_exists, s)).
Proof.
  split; [|split].
  - intros. by eapply createUser_duplicate.
  - intros newId now d u s1 newId' now' d' H Hn.
    apply createUser_success in H as (Hu & -> & _).
    apply (createUser_duplicate _ _ _ _ u).
    + apply elem_of_app. right. apply list_elem_of_here.
    + rewrite Hn, Hu. reflexivity.
  - intros i d n u v Hu Hd Hne Hneu Hv Hvn Hvi.
    unfold updateUser, try_catch, bind, findOne_id. rewrite Hu, Hd.
    unfold truthy. rewrite (bool_decide_eq_false_2 _ Hne).
    rewrite (bool_decide_eq_false_2 _ Hneu). simpl.
    unfold findOne_username_ne.
    destruct (List.find (λ w, bool_decide (username w = n) && negb (has_id i w)) s)
      eqn:E; [reflexivity|].
    apply list_elem_of_In in Hv.
    pose proof (find_none _ _ E _ Hv) as H. simpl in H.
    rewrite (bool_decide_eq_true_2 _ Hvn) in H. unfold has_id in H.
    rewrite (bool_decide_eq_false_2 _ Hvi) in H. discriminate.
Qed.

(** ** Linking a user to itself *)

(** C9, as the code has it.  [addFriendship] loads the first user before it
    compares the two identifiers: for the identifier of a user of the
    collection, linking it to itself fails with the self-friendship error
    (before the second user is looked up and before any record is written);
    for an identifier that names no user it fails with the user-not-found
    error. *)
Theorem self_link_rejected (s : Store) (a : string) :
  (a ∈ id <$> s → addFriendship a a s = (inl E_self_friend, s)) ∧
  (a ∉ id <$> s → addFriendship a a s = (inl E_user_not_found, s)).
Proof.
  rewrite addFriendship_eq. split; intros H.
  - destruct (find_has_id_Some _ _ H) as [u ->].
    by rewrite bool_decide_eq_true_2.
  - apply find_has_id_None in H. by rewrite H.
Qed.

(** C9 as stated fails: linking an identifier that names no user to itself
    is not answered with the self-friendship error. *)
Lemma self_link_unknown_user :
  fst (addFriendship "ghost" "ghost" []) = inl E_user_not_found ∧
  fst (addFriendship "ghost" "ghost" []) ≠ inl E_self_friend.
Proof. split; [reflexivity|discriminate]. Qed.


(** ** JavaScript sets *)

Lemma foldl_add_elem (l acc : list string) (x : string) :
  x ∈ foldl JSSet.add acc l ↔ x ∈ acc ∨ x ∈ l.
Proof.
  revert acc. induction l as [|y l IH]; intros acc; simpl.
  - rewrite elem_of_nil. tauto.
  - rewrite IH, elem_of_cons. unfold JSSet.add, JSSet.has.
    case_bool_decide as Hy.
    + split; [intros [?|?]; auto|intros [?|[->|?]]; auto].
    + rewrite elem_of_app, list_elem_of_singleton. tauto.
Qed.

Lemma foldl_add_NoDup (l acc : list string) :
  NoDup acc → NoDup (foldl JSSet.add acc l).
Proof.
  revert acc. induction l as [|y l IH]; intros acc Hacc; simpl; [done|].
  apply IH. unfold JSSet.add, JSSet.has. case_bool_decide as Hy; [done|].
  apply NoDup_app. split; [done|]. split.
  - intros x Hx ->%list_elem_of_singleton. done.
  - apply NoDup_singleton.
Qed.

Lemma new_Set_elem (l : list string) (x : string) : x ∈ JSSet.new_Set l ↔ x ∈ l.
Proof. unfold JSSet.new_Set. rewrite foldl_add_elem, elem_of_nil. tauto. Qed.

Lemma new_Set_NoDup (l : list string) : NoDup (JSSet.new_Set l).
Proof. apply foldl_add_NoDup, NoDup_nil_2. Qed.

Lemma new_Set_to_set (l : list string) :
  list_to_set (JSSet.new_Set l) =@{gset string} list_to_set l.
Proof. apply set_eq. intros x. rewrite !elem_of_list_to_set. apply new_Set_elem. Qed.

Lemma sharedHobbies_size (h1 h2 : list string) :
  length (sharedHobbies (JSSet.new_Set h1) (JSSet.new_Set h2)) =
  size (list_to_set h1 ∩ list_to_set h2 : gset string).
Proof.
  unfold sharedHobbies.
  rewrite <- (size_list_to_set (C:=gset string)).
  - f_equal. apply set_eq. intros x.
    rewrite elem_of_list_to_set, list_elem_of_filter, elem_of_intersection,
      !elem_of_list_to_set, new_Set_elem.
    unfold JSSet.has. rewrite bool_decide_spec, new_Set_elem. tauto.
  - apply NoDup_filter, new_Set_NoDup.
Qed.

(** ** Rounding *)

Lemma round2_compat (x y : Q) : (x == y)%Q → round2 x = round2 y.
Proof.
  intros H. unfold round2, Math_round. apply Qred_complete.
  rewrite H. reflexivity.
Qed.

Lemma Qfloor_half (m : Z) : Qfloor (inject_Z m + (1 # 2)) = m.
Proof.
  unfold Qfloor, inject_Z, Qplus. simpl.
  rewrite Z.mul_1_r. 
  replace (m * 2 + 1)%Z with (1 + m * 2)%Z by lia.
  rewrite Z.div_add by lia. reflexivity.
Qed.

Lemma round2_halves (n k : Z) :
  (round2 (inject_Z n + (1 # 2) * inject_Z k) == inject_Z n + (1 # 2) * inject_Z k)%Q.
Proof.
  unfold round2, Math_round. rewrite Qred_correct.
  assert (((inject_Z n + (1 # 2) * inject_Z k) * 100 + (1 # 2)
           == inject_Z (100 * n + 50 * k) + (1 # 2))%Q) as ->.
  { rewrite inject_Z_plus, !inject_Z_mult. field. }
  rewrite Qfloor_half, inject_Z_plus, !inject_Z_mult. field.
Qed.

(** ** Sums and filters over lists *)

Section ListFacts.
Context {A : Type}.

Lemma sum_list_with_ext (f g : A → nat) (l : list A) :
  (∀ x, x ∈ l → f x = g x) → sum_list_with f l = sum_list_with g l.
Proof.
  induction l as [|x l IH]; simpl; intros H; [done|].
  rewrite H by apply list_elem_of_here. rewrite IH; [done|].
  intros y Hy. apply H. by apply list_elem_of_further.
Qed.

Lemma sum_list_with_fmap {B} (f : B → nat) (g : A → B) (l : list A) :
  sum_list_with f (g <$> l) = sum_list_with (f ∘ g) l.
Proof. induction l as [|x l IH]; [done|]. rewrite fmap_cons. simpl. by rewrite IH. Qed.

Lemma sum_list_with_filter_zero (f : A → nat) (P : A → Prop)
    `{∀ x, Decision (P x)} (l : list A) :
  (∀ x, ¬ P x → f x = 0%nat) → sum_list_with f (filter P l) = sum_list_with f l.
Proof.
  intros Hz. induction l as [|x l IH]; [done|].
  rewrite filter_cons. destruct (decide (P x)) as [Hp|Hp]; simpl.
  - by rewrite IH.
  - rewrite IH, (Hz x Hp). done.
Qed.

Lemma filter_ext_in (P Q : A → Prop) `{∀ x, Decision (P x)} `{∀ x, Decision (Q x)}
    (l : list A) :
  (∀ x, x ∈ l → P x ↔ Q x) → filter P l = filter Q l.
Proof.
  induction l as [|x l IH]; intros HPQ; [done|].
  rewrite !filter_cons.
  assert (filter P l = filter Q l) as ->.
  { apply IH. intros y Hy. apply HPQ. by apply list_elem_of_further. }
  pose proof (HPQ x (list_elem_of_here _ _)).
  destruct (decide (P x)), (decide (Q x)); tauto.
Qed.

Lemma sum_list_with_add (f g : A → nat) (l : list A) :
  sum_list_with (λ x, f x + g x)%nat l = (sum_list_with f l + sum_list_with g l)%nat.
Proof. induction l as [|x l IH]; simpl; [done|]. rewrite IH. lia. Qed.

Lemma sum_list_with_indicator (P : A → Prop) `{∀ x, Decision (P x)} (l : list A) :
  sum_list_with (λ x, if decide (P x) then 1 else 0)%nat l = length (filter P l).
Proof.
  induction l as [|x l IH]; [done|]. simpl.
  rewrite filter_cons, IH. destruct (decide (P x)); simpl; lia.
Qed.

Lemma length_filter_cons (P : A → Prop) `{∀ x, Decision (P x)} (x : A) (l : list A) :
  length (filter P (x :: l)) = ((if decide (P x) then 1 else 0) + length (filter P l))%nat.
Proof. rewrite filter_cons. destruct (decide (P x)); simpl; lia. Qed.

End ListFacts.

(** ** The sum over the friends *)

Lemma foldl_add_shared (H : list string) (l : list User) (acc : Q) :
  (foldl (add_shared H) acc l ==
   acc + (1 # 2) * inject_Z (Z.of_nat (sum_list_with
     (λ v, length (sharedHobbies H (JSSet.new_Set (hobbies v)))) l)))%Q.
Proof.
  revert acc. induction l as [|v l IH]; intros acc; simpl.
  - ring.
  - rewrite IH. unfold add_shared. rewrite Nat2Z.inj_add, inject_Z_plus. ring.
Qed.

Lemma find_unique (s : Store) (v : User) :
  ids_unique s → v ∈ s → List.find (has_id (id v)) s = Some v.
Proof.
  unfold ids_unique. induction s as [|u r IH]; simpl; intros Hnd Hv.
  - by apply elem_of_nil in Hv.
  - apply NoDup_cons in Hnd as [Hu Hr]. unfold has_id at 1.
    apply elem_of_cons in Hv as [->|Hv].
    + by rewrite bool_decide_eq_true_2.
    + rewrite bool_decide_eq_false_2; [by apply IH|].
      intros E. apply Hu. rewrite E. by apply list_elem_of_fmap_2.
Qed.

Lemma filter_fmap_id (F : list string) (s : Store) :
  id <$> filter (λ v, id v ∈ F) s = filter (λ i, i ∈ F) (id <$> s).
Proof.
  induction s as [|u r IH]; [done|].
  rewrite fmap_cons, !filter_cons.
  destruct (decide (id u ∈ F)); [rewrite fmap_cons|]; by rewrite IH.
Qed.

Lemma found_shared_total (s : Store) (this : User) :
  ids_unique s → NoDup (friends this) →
  sum_list_with
    (λ v, length (sharedHobbies (JSSet.new_Set (hobbies this)) (JSSet.new_Set (hobbies v))))
    (filter (λ v, id v ∈ friends this) s)
  = shared_total s this.
Proof.
  intros Hs Hf. unfold shared_total.
  rewrite (sum_list_with_ext _ (shared_with s this ∘ id)).
  2:{ intros v [_ Hv]%list_elem_of_filter. simpl. unfold shared_with, hobbies_of.
      rewrite (find_unique _ _ Hs Hv). simpl. apply sharedHobbies_size. }
  rewrite <- sum_list_with_fmap, filter_fmap_id.
  unfold friend_set. rewrite (elements_list_to_set (C:=gset string)) by done.
  rewrite <- (sum_list_with_filter_zero _ (λ f, f ∈ id <$> s) (friends this)).
  2:{ intros f Hn. unfold shared_with, hobbies_of.
      apply find_has_id_None in Hn. rewrite Hn. simpl.
      by rewrite intersection_empty_r_L, size_empty. }
  apply sum_list_with_Permutation_proper.
  apply NoDup_Permutation.
  - by apply NoDup_filter.
  - by apply NoDup_filter.
  - intros x. rewrite !list_elem_of_filter. tauto.
Qed.

Lemma code_score_formula (s : Store) (this : User) :
  ids_unique s → NoDup (friends this) →
  code_score this s = score_formula s this.
Proof.
  intros Hs Hf. unfold code_score, score_formula, exact_score.
  apply round2_compat.
  rewrite foldl_add_shared, (found_shared_total _ _ Hs Hf).
  unfold friend_set. rewrite (size_list_to_set (C:=gset string)) by done.
  ring.
Qed.

Lemma score_formula_no_friends (s : Store) (this : User) :
  friends this = [] → score_formula s this = 0%Q.
Proof.
  intros H. unfold score_formula, exact_score, shared_total, friend_set.
  rewrite H, list_to_set_nil, elements_empty, size_empty. reflexivity.
Qed.

(** C2. On a collection with unique identifiers, for a user whose list of
    friends has no repetition, [calculatePopularityScore] returns the score
    of the formula: the number of friends plus half the number of hobbies
    shared with each friend, summed over the friends, rounded to two decimal
    places (the rounding changes nothing, the value being a multiple of
    1/2), and stores it when the user has a friend; a user without friends
    gets 0 whatever the hobbies.  For A (coding, gaming) linked to
    B (coding, music) and C (gaming, sports) the stored and the recomputed
    score are exactly 3. *)
Theorem recompute_formula (s : Store) (this : User) :
  ids_unique s → NoDup (friends this) →
  (∃ this' s',
     calculatePopularityScore this s = (inr (score_formula s this, this'), s') ∧
     (friends this ≠ [] → popularityScore this' = score_formula s this)) ∧
  (score_formula s this == exact_score s this)%Q ∧
  (friends this = [] → score_formula s this = 0%Q) ∧
  (∃ a, List.find (has_id "A") ex_linked = Some a ∧ friends a = ["B"; "C"] ∧
        popularityScore a = 3%Q ∧
        fst <$> value_of (calculatePopularityScore a ex_linked) = Some 3%Q).
Proof.
  intros Hs Hf. split; [|split; [|split]].
  - rewrite calc_eq. exists (calc_doc this s), (calc_store this s). split.
    + do 3 f_equal. case_bool_decide as E.
      * symmetry. apply score_formula_no_friends. by destruct (friends this).
      * simpl. by apply code_score_formula.
    + intros Hne. unfold calc_doc. rewrite bool_decide_eq_false_2.
      * simpl. by apply code_score_formula.
      * destruct (friends this); [done|simpl; lia].
  - apply round2_halves.
  - apply score_formula_no_friends.
  - eexists. split; [reflexivity|]. vm_compute. done.
Qed.

(** The formula on A of the example, through [recompute_formula]. *)
Lemma recompute_formula_witness :
  (score_formula ex_linked (mkUser "A" "alice" 25 ["coding"; "gaming"] ["B"; "C"] 0 0) == 3)%Q.
Proof.
  pose proof (recompute_formula ex_linked (mkUser "A" "alice" 25 ["coding"; "gaming"] ["B"; "C"] 0 0)) as H.
  destruct H as (_ & H & _).
  - unfold ids_unique. by_computation.
  - by_computation.
  - rewrite H. vm_compute. reflexivity.
Defined.


(** ** Counting friendships *)

Lemma ordered_pairs_double (s : Store) :
  (∀ a b, a ∈ s → b ∈ s → adj a b ↔ adj b a) →
  (∀ a, a ∈ s → ¬ adj a a) →
  sum_list_with (λ u, length (filter (adj u) s)) s = (2 * friend_pairs s)%nat.
Proof.
  induction s as [|x r IH]; intros Hsym Hirr; [done|].
  cbn [sum_list_with friend_pairs].
  rewrite (sum_list_with_ext _
    (λ u, (if decide (adj u x) then 1 else 0) + length (filter (adj u) r))%nat).
  2:{ intros u _. by rewrite (length_filter_cons (adj u)). }
  rewrite sum_list_with_add, sum_list_with_indicator, IH.
  - rewrite length_filter_cons.
    destruct (decide (id x ∈ friends x)) as [Hx|_].
    { exfalso. by apply (Hirr x), Hx; apply list_elem_of_here. }
    rewrite (filter_ext_in (λ u, adj u x) (adj x) r).
    + lia.
    + intros u Hu. apply Hsym; [by apply list_elem_of_further|apply list_elem_of_here].
  - intros a b Ha Hb. apply Hsym; by apply list_elem_of_further.
  - intros a Ha. apply Hirr. by apply list_elem_of_further.
Qed.

Lemma friends_length_filter (s : Store) (u : User) :
  ids_unique s → NoDup (friends u) → Forall (λ f, f ∈ id <$> s) (friends u) →
  length (friends u) = length (filter (adj u) s).
Proof.
  intros Hs Hnd Hex.
  rewrite <- (length_fmap id (filter _ s)), filter_fmap_id.
  apply Permutation_length, NoDup_Permutation; [done|by apply NoDup_filter|].
  intros f. rewrite list_elem_of_filter. rewrite Forall_forall in Hex.
  split; [intros Hf; split; [done|by apply Hex]|tauto].
Qed.

Lemma consistent_sym (s : Store) :
  symmetric s → ∀ a b, a ∈ s → b ∈ s → adj a b ↔ adj b a.
Proof.
  unfold symmetric. rewrite Forall_forall. intros H a b Ha Hb.
  specialize (H a Ha). rewrite Forall_forall in H. apply (H b Hb).
Qed.

Lemma friends_sum_double (s : Store) :
  consistent s →
  sum_list_with (λ u, length (friends u)) s = (2 * friend_pairs s)%nat.
Proof.
  intros (Hid & Hsets & Hex & Hirr & Hsym).
  rewrite <- ordered_pairs_double.
  - apply sum_list_with_ext. intros u Hu.
    unfold friends_are_sets, friends_exist in *. rewrite Forall_forall in Hsets, Hex.
    apply friends_length_filter; auto.
  - by apply consistent_sym.
  - unfold irreflexive in Hirr. rewrite Forall_forall in Hirr. exact Hirr.
Qed.

Lemma foldl_friends_length (users : list User) (acc : Z) :
  foldl (λ sum user, sum + Z.of_nat (length (friends user)))%Z acc users =
  (acc + Z.of_nat (sum_list_with (λ u, length (friends u)) users))%Z.
Proof.
  revert acc. induction users as [|u r IH]; intros acc; simpl; [lia|].
  rewrite IH. lia.
Qed.

Lemma Qred_inject_Z (z : Z) : Qred (inject_Z z) = inject_Z z.
Proof.
  unfold Qred, inject_Z.
  pose proof (Z.ggcd_gcd z 1) as Hg.
  pose proof (Z.ggcd_correct_divisors z 1) as Hd.
  destruct (Z.ggcd z 1) as [g [aa bb]]. simpl in *.
  rewrite Z.gcd_1_r in Hg. subst g. destruct Hd as [Ha Hb].
  assert (aa = z) as -> by lia. assert (bb = 1%Z) as -> by lia. reflexivity.
Qed.

(** C10. On a collection that satisfies the invariants of the data model
    (in particular a symmetric friendship relation) [getUserStats] succeeds,
    leaves the collection alone and reports as [totalFriendships] the sum of
    the lengths of the lists of friends divided by 2, which is the integer
    [friend_pairs s], the number of unordered pairs of friends. *)
Theorem stats_totalFriendships (s : Store) :
  consistent s →
  ∃ st, getUserStats s = (inr st, s) ∧
        totalUsers st = length s ∧
        totalFriendships st = inject_Z (Z.of_nat (friend_pairs s)) ∧
        (inject_Z (Z.of_nat (sum_list_with (λ u, length (friends u)) s)) / 2
         == inject_Z (Z.of_nat (friend_pairs s)))%Q.
Proof.
  intros Hc. pose proof (friends_sum_double s Hc) as Hsum.
  assert ((inject_Z (Z.of_nat (sum_list_with (λ u, length (friends u)) s)) / 2
           == inject_Z (Z.of_nat (friend_pairs s)))%Q) as Hq.
  { rewrite Hsum, Nat2Z.inj_mul, inject_Z_mult. simpl (Z.of_nat 2). field. }
  eexists. split; [reflexivity|]. simpl. split; [done|]. split; [|done].
  rewrite foldl_friends_length, Z.add_0_l.
  rewrite (Qred_complete _ _ Hq). apply Qred_inject_Z.
Qed.


(** ** Pair keys *)

Section Projection.

(** The common length of the identifiers. *)
Variable n : nat.

Lemma string_app_cons (c : ascii) (a b : string) :
  String c a +:+ b = String c (a +:+ b).
Proof. reflexivity. Qed.

Lemma string_app_inj_length (a c b d : string) :
  String.length a = String.length c → a +:+ b = c +:+ d → a = c ∧ b = d.
Proof.
  revert c. induction a as [|x a IH]; intros [|y c] Hlen H; simpl in Hlen; try discriminate.
  - done.
  - rewrite !string_app_cons in H. injection H as -> H.
    destruct (IH c) as [-> ->]; [lia|done|done].
Qed.

Lemma pairKey_eq (a b : string) :
  pairKey a b = if String.ltb b a then b +:+ "-" +:+ a else a +:+ "-" +:+ b.
Proof. unfold pairKey, sort_pair. destruct (String.ltb b a); reflexivity. Qed.

Lemma pairKey_comm (a b : string) : pairKey a b = pairKey b a.
Proof.
  rewrite !pairKey_eq. unfold String.ltb.
  rewrite (String.compare_antisym a b).
  destruct (String.compare b a) eqn:E; simpl; try reflexivity.
  apply String.compare_eq_iff in E. by subst.
Qed.

Lemma pairKey_inj (a b c d : string) :
  String.length a = n → String.length b = n →
  String.length c = n → String.length d = n →
  pairKey a b = pairKey c d → (a = c ∧ b = d) ∨ (a = d ∧ b = c).
Proof.
  intros Ha Hb Hc Hd. rewrite !pairKey_eq.
  destruct (String.ltb b a), (String.ltb d c); intros H;
    apply string_app_inj_length in H as [H1 H2]; try congruence;
    apply (inj (String.app "-")) in H2; auto.
Qed.

(** ** The edges of the projection *)

Lemma edge_step_snd (u : User) (st : list GraphEdge * list string) (f : string) :
  snd (edge_step u st f) = JSSet.add (snd st) (pairKey (id u) f).
Proof.
  unfold edge_step, JSSet.add.
  by destruct (JSSet.has (snd st) (pairKey (id u) f)).
Qed.

Lemma edge_step_length (u : User) (st : list GraphEdge * list string) (f : string) :
  length (fst st) = length (snd st) →
  length (fst (edge_step u st f)) = length (snd (edge_step u st f)).
Proof.
  intros H. unfold edge_step.
  destruct (JSSet.has (snd st) (pairKey (id u) f)) eqn:E; simpl; [done|].
  unfold JSSet.add. rewrite E, !length_app, H. done.
Qed.

Lemma inner_fold (u : User) (fs : list string) (st : list GraphEdge * list string) :
  length (fst st) = length (snd st) →
  let st' := foldl (edge_step u) st fs in
  length (fst st') = length (snd st') ∧
  snd st' = foldl JSSet.add (snd st) (pairKey (id u) <$> fs).
Proof.
  revert st. induction fs as [|f fs IH]; intros st H; simpl; [done|].
  destruct (IH (edge_step u st f)) as [H1 H2]; [by apply edge_step_length|].
  split; [done|]. by rewrite H2, edge_step_snd.
Qed.

Lemma outer_fold (users : list User) (st : list GraphEdge * list string) :
  length (fst st) = length (snd st) →
  let st' := foldl (λ st user, foldl (edge_step user) st (friends user)) st users in
  length (fst st') = length (snd st') ∧
  snd st' = foldl JSSet.add (snd st) (all_keys users).
Proof.
  revert st. induction users as [|u r IH]; intros st H; simpl; [done|].
  destruct (inner_fold u (friends u) st H) as [H1 H2].
  destruct (IH _ H1) as [H3 H4].
  split; [done|]. by rewrite H4, H2, foldl_app.
Qed.

Lemma graph_edges_length (users : list User) :
  length (graph_edges users) = length (JSSet.new_Set (all_keys users)).
Proof.
  unfold graph_edges, JSSet.new_Set.
  destruct (outer_fold users ([], [])) as [H1 H2]; [done|].
  by rewrite H1, H2.
Qed.

Lemma canon_keys_length (s : list User) : length (canon_keys s) = friend_pairs s.
Proof.
  induction s as [|u r IH]; simpl; [done|].
  by rewrite length_app, length_fmap, IH.
Qed.

Lemma canon_keys_elem (s : list User) (k : string) :
  k ∈ canon_keys s →
  ∃ u v, u ∈ s ∧ v ∈ s ∧ id v ∈ friends u ∧ k = pairKey (id u) (id v).
Proof.
  induction s as [|x r IH]; simpl; [by intros ?%elem_of_nil|].
  rewrite elem_of_app. intros [H|H].
  - apply list_elem_of_fmap in H as (v & -> & Hv).
    apply list_elem_of_filter in Hv as [Hadj Hv].
    exists x, v. split; [apply list_elem_of_here|].
    split; [by apply list_elem_of_further|done].
  - destruct (IH H) as (u & v & Hu & Hv & Hadj & ->).
    exists u, v. split; [by apply list_elem_of_further|].
    split; [by apply list_elem_of_further|done].
Qed.

Lemma canon_keys_complete (s : list User) (u v : User) :
  (∀ a b, a ∈ s → b ∈ s → id b ∈ friends a ↔ id a ∈ friends b) →
  u ∈ s → v ∈ s → id v ∈ friends u → id u ≠ id v →
  pairKey (id u) (id v) ∈ canon_keys s.
Proof.
  induction s as [|x r IH]; intros Hsym Hu Hv Hadj Hne; [by apply elem_of_nil in Hu|].
  simpl. rewrite elem_of_app.
  apply elem_of_cons in Hu as [->|Hu]; apply elem_of_cons in Hv as [->|Hv].
  - done.
  - left. apply list_elem_of_fmap. exists v. split; [done|].
    apply list_elem_of_filter. done.
  - left. rewrite pairKey_comm. apply list_elem_of_fmap. exists u. split; [done|].
    apply list_elem_of_filter. split; [|done].
    apply (Hsym u x); [by apply list_elem_of_further|apply list_elem_of_here|done].
  - right. apply IH; try done.
    intros a b Ha Hb. apply Hsym; by apply list_elem_of_further.
Qed.

Lemma same_id_same_user (s : list User) (u v : User) :
  ids_unique s → u ∈ s → v ∈ s → id u = id v → u = v.
Proof.
  intros Hs Hu Hv E.
  pose proof (find_unique s u Hs Hu) as H1.
  pose proof (find_unique s v Hs Hv) as H2.
  rewrite E in H1. congruence.
Qed.

Lemma canon_keys_NoDup (s : Store) :
  ids_unique s → same_length n s → NoDup (canon_keys s).
Proof.
  unfold same_length.
  induction s as [|x r IH]; intros Hs Hn; simpl; [apply NoDup_nil_2|].
  pose proof Hs as Hs'. unfold ids_unique in Hs'. rewrite fmap_cons in Hs'.
  apply NoDup_cons in Hs' as [Hx Hr].
  apply Forall_cons in Hn as [Hnx Hnr]. rewrite Forall_forall in Hnr.
  apply NoDup_app. split; [|split].
  - apply NoDup_fmap_2_strong.
    + intros v w [_ Hv]%list_elem_of_filter [_ Hw]%list_elem_of_filter E.
      apply pairKey_inj in E; auto.
      apply (same_id_same_user r); [done..|]. destruct E as [[_ E]|[E _]]; [done|].
      exfalso. apply Hx. rewrite E. by apply list_elem_of_fmap_2.
    + apply NoDup_filter. by apply NoDup_fmap_1 in Hr.
  - intros k Hk Hk'.
    apply list_elem_of_fmap in Hk as (v & -> & [_ Hv]%list_elem_of_filter).
    apply canon_keys_elem in Hk' as (a & b & Ha & Hb & _ & E).
    apply pairKey_inj in E; auto.
    apply Hx. destruct E as [[E _]|[E _]]; rewrite E; by apply list_elem_of_fmap_2.
  - apply IH; [exact Hr|by apply Forall_forall].
Qed.

Lemma all_keys_elem (s : list User) (k : string) :
  k ∈ all_keys s ↔ ∃ u f, u ∈ s ∧ f ∈ friends u ∧ k = pairKey (id u) f.
Proof.
  induction s as [|x r IH]; simpl.
  - split; [by intros ?%elem_of_nil|]. intros (u & f & Hu & _). by apply elem_of_nil in Hu.
  - rewrite elem_of_app, IH, list_elem_of_fmap. split.
    + intros [(f & -> & Hf)|(u & f & Hu & Hf & ->)].
      * exists x, f. split; [apply list_elem_of_here|done].
      * exists u, f. split; [by apply list_elem_of_further|done].
    + intros (u & f & Hu & Hf & ->).
      apply elem_of_cons in Hu as [->|Hu]; [left; eauto|right; eauto].
Qed.

Lemma graph_edges_count (s : Store) :
  consistent s → same_length n s → length (graph_edges s) = friend_pairs s.
Proof.
  intros (Hid & Hsets & Hex & Hirr & Hsym) Hn.
  rewrite graph_edges_length, <- canon_keys_length.
  apply Permutation_length, NoDup_Permutation.
  - apply new_Set_NoDup.
  - by apply canon_keys_NoDup.
  - intros k. rewrite new_Set_elem, all_keys_elem. split.
    + intros (u & f & Hu & Hf & ->).
      unfold friends_exist, irreflexive in *. rewrite Forall_forall in Hex, Hirr.
      specialize (Hex u Hu). rewrite Forall_forall in Hex.
      pose proof (Hex f Hf) as Hv. apply list_elem_of_fmap in Hv as (v & -> & Hv).
      apply canon_keys_complete; try done.
      * by apply consistent_sym.
      * intros E. apply (Hirr u Hu). by rewrite E.
    + intros (u & v & Hu & Hv & Hadj & ->)%canon_keys_elem. eauto.
Qed.

End Projection.


(** C5.  The identifiers of the collection are the UUIDs that the default
    [uuidv4] of the schema assigns (no operation takes an identifier from
    its input), 36 characters each, so they all have one length [n].  On
    such a collection that satisfies the invariants of the data model, in
    particular symmetry, [getGraphData] returns one node for each user, in
    order, and one edge for each unordered pair of friends: the sorted pair
    key collapses the two directions of a friendship and nothing else. *)
Theorem projection_counts (random : nat → R) (n : nat) (s : Store) :
  consistent s → same_length n s →
  ∃ g, getGraphData random s = (inr g, s) ∧
       node_id <$> nodes g = id <$> s ∧
       length (nodes g) = length s ∧
       length (edges g) = friend_pairs s.
Proof.
  intros Hc Hn. eexists. split; [reflexivity|]. simpl.
  split; [|split].
  - rewrite fmap_imap. apply imap_const.
  - apply length_imap.
  - by apply (graph_edges_count n).
Qed.

(** The projection of a collection with UUIDs. *)
Lemma projection_counts_witness :
  ∃ g, getGraphData (λ _, 0%R) ex_uuid_store = (inr g, ex_uuid_store) ∧
       node_id <$> nodes g = id <$> ex_uuid_store ∧
       length (nodes g) = length ex_uuid_store ∧
       length (edges g) = friend_pairs ex_uuid_store.
Proof.
  apply (projection_counts _ 36 ex_uuid_store).
  - by_computation.
  - unfold same_length. by_computation.
Defined.

(** The hypothesis on the identifiers is used.  With identifiers of
    different lengths that contain '-', which [uuidv4] never hands out and
    the collection therefore never holds, two friendships can have the same
    key: four such users with two friendships get one edge. *)
Lemma projection_key_collision :
  consistent ex_collide ∧ friend_pairs ex_collide = 2%nat ∧
  (λ g, (length (nodes g), length (edges g)))
    <$> value_of (getGraphData (λ _, 0%R) ex_collide) = Some (4%nat, 1%nat).
Proof. split; [by_computation|]. split; reflexivity. Qed.

(** ** Determinism *)

(** C6, as the code has it.  [getGraphData] leaves the collection as it
    is.  Two calls on one collection return the same edges and the same
    nodes up to their positions, whatever [Math.random] draws; the whole
    results are equal when the draws the two calls consume are; and with
    draws in [0, 1) each coordinate of a node is within 50 units of its
    point on the circle. *)
Theorem projection_up_to_jitter (random1 random2 : nat → R) (s : Store) :
  ∃ g1 g2,
    getGraphData random1 s = (inr g1, s) ∧
    getGraphData random2 s = (inr g2, s) ∧
    edges g1 = edges g2 ∧
    without_position <$> nodes g1 = without_position <$> nodes g2 ∧
    ((∀ k, (k < 2 * length s)%nat → random1 k = random2 k) → g1 = g2) ∧
    ((∀ k, (0 <= random1 k < 1)%R) →
     ∀ i nd, nodes g1 !! i = Some nd →
       (-50 <= pos_x (position nd) - circle_x (length s) i < 50)%R ∧
       (-50 <= pos_y (position nd) - circle_y (length s) i < 50)%R).
Proof.
  do 2 eexists. split; [reflexivity|]. split; [reflexivity|]. simpl.
  split; [done|]. split; [|split].
  - rewrite !fmap_imap. by apply imap_ext.
  - intros H. f_equal. apply imap_ext. intros i u Hi.
    apply lookup_lt_Some in Hi. unfold graph_node.
    rewrite !H by lia. done.
  - intros Hr i nd Hi. rewrite list_lookup_imap in Hi.
    destruct (s !! i) as [u|]; [|discriminate]. injection Hi as <-.
    unfold circle_x, circle_y, graph_node. cbn [position pos_x pos_y].
    pose proof (Hr (2 * i)%nat). pose proof (Hr (2 * i + 1)%nat). lra.
Qed.

(** C6 as stated fails: two calls on one collection of one user, with
    different draws of [Math.random], return different results. *)
Lemma projection_depends_on_random :
  getGraphData (λ _, 0%R) [mkUser "A" "alice" 25 ["coding"] [] 0 0]
  ≠ getGraphData (λ _, (1 / 2)%R) [mkUser "A" "alice" 25 ["coding"] [] 0 0].
Proof.
  intros H. unfold getGraphData, bind, find_all, ret in H. simpl in H.
  injection H as H _. lra.
Qed.


(** ** Looking records up after a write *)

Lemma ids_replace_doc (d : User) (s : Store) : id <$> replace_doc d s = id <$> s.
Proof.
  induction s as [|u r IH]; [done|]. simpl. unfold has_id at 1.
  case_bool_decide as E; rewrite !fmap_cons; [by rewrite E|by rewrite IH].
Qed.

Lemma find_replace_doc (x : string) (d : User) (s : Store) :
  List.find (has_id x) (replace_doc d s) =
  if bool_decide (x = id d) then (λ _, d) <$> List.find (has_id x) s
  else List.find (has_id x) s.
Proof.
  induction s as [|u r IH]; simpl; [by case_bool_decide|].
  destruct (has_id (id d) u) eqn:Eu, (has_id x u) eqn:Ex; simpl;
    unfold has_id in Eu, Ex;
    try apply bool_decide_eq_true in Eu; try apply bool_decide_eq_false in Eu;
    try apply bool_decide_eq_true in Ex; try apply bool_decide_eq_false in Ex.
  - rewrite bool_decide_eq_true_2 by congruence. unfold has_id at 1.
    by rewrite bool_decide_eq_true_2 by congruence.
  - rewrite bool_decide_eq_false_2 by congruence. unfold has_id at 1.
    by rewrite bool_decide_eq_false_2 by congruence.
  - unfold has_id at 1. rewrite bool_decide_eq_true_2 by done.
    rewrite bool_decide_eq_false_2 by congruence. done.
  - unfold has_id at 1. rewrite bool_decide_eq_false_2 by done. apply IH.
Qed.

Lemma ids_calc_store (this : User) (s : Store) : id <$> calc_store this s = id <$> s.
Proof. unfold calc_store. case_bool_decide; [done|apply ids_replace_doc]. Qed.

Lemma scored_id (this : User) (s : Store) : id (scored this s) = id this.
Proof. done. Qed.

Lemma scored_friends (this : User) (s : Store) : friends (scored this s) = friends this.
Proof. done. Qed.

Lemma friends_of_replace_doc (x : string) (d : User) (s : Store) :
  friends_of (replace_doc d s) x =
  if bool_decide (x = id d) then (λ _, friends d) <$> friends_of s x else friends_of s x.
Proof.
  unfold friends_of. rewrite find_replace_doc.
  case_bool_decide; [|done]. by destruct (List.find (has_id x) s).
Qed.

Lemma friends_of_calc_store (x : string) (this : User) (s : Store) :
  friends_of s (id this) = Some (friends this) →
  friends_of (calc_store this s) x = friends_of s x.
Proof.
  intros H. unfold calc_store. case_bool_decide; [done|].
  rewrite friends_of_replace_doc, scored_id. case_bool_decide as E; [|done].
  subst x. rewrite H. done.
Qed.

Lemma friends_of_Some (s : Store) (x : string) (fx : list string) :
  friends_of s x = Some fx → ∃ u, u ∈ s ∧ id u = x ∧ friends u = fx.
Proof.
  unfold friends_of. destruct (List.find (has_id x) s) as [u|] eqn:E; [|done].
  intros [= <-]. apply find_has_id in E as [? ?]. eauto.
Qed.

Lemma friends_of_elem (s : Store) (u : User) :
  ids_unique s → u ∈ s → friends_of s (id u) = Some (friends u).
Proof. intros Hs Hu. unfold friends_of. by rewrite (find_unique s u Hs Hu). Qed.

Lemma symmetric_sym_find (s : Store) : ids_unique s → symmetric s ↔ sym_find s.
Proof.
  intros Hs. split.
  - intros H x y fx fy (u & Hu & <- & <-)%friends_of_Some
      (v & Hv & <- & <-)%friends_of_Some.
    by apply (consistent_sym s H u v).
  - intros H. unfold symmetric. apply Forall_forall. intros a Ha.
    apply Forall_forall. intros b Hb.
    pose proof (friends_of_elem s a Hs Ha) as Fa.
    pose proof (friends_of_elem s b Hs Hb) as Fb.
    split; [apply (H _ _ _ _ Fa Fb)|apply (H _ _ _ _ Fb Fa)].
Qed.

Lemma sym_find_same (s s' : Store) :
  (∀ x, friends_of s' x = friends_of s x) → sym_find s → sym_find s'.
Proof. intros E H x y fx fy. rewrite !E. apply H. Qed.

(** ** What a completed operation leaves behind *)

Lemma link_success (a b : string) (s s' : Store) (r : unit) :
  addFriendship a b s = (inr r, s') →
  ∃ ua ub, List.find (has_id a) s = Some ua ∧ List.find (has_id b) s = Some ub ∧
           a ≠ b ∧ (b ∉ friends ua) ∧ s' = link_store ua ub s.
Proof.
  rewrite addFriendship_eq.
  destruct (List.find (has_id a) s) as [ua|] eqn:Ha; [|done].
  case_bool_decide as Hab; [done|]. rewrite addFriend_eq.
  case_bool_decide as Hin; [done|]. case_bool_decide; [done|].
  destruct (List.find (has_id b) s) as [ub|] eqn:Hb; [|done].
  intros Hrun. exists ua, ub.
  apply find_has_id in Ha as [_ Ha]. pose proof Hb as [_ Hb']%find_has_id.
  subst a b. unfold link_store. repeat split; try done. congruence.
Qed.

Lemma unlink_success (a b : string) (s s' : Store) (r : unit) :
  removeFriendship a b s = (inr r, s') →
  ∃ ua ub, List.find (has_id a) s = Some ua ∧ List.find (has_id b) s = Some ub ∧
           b ∈ friends ua ∧ s' = unlink_store ua ub s.
Proof.
  rewrite removeFriendship_eq.
  destruct (List.find (has_id a) s) as [ua|] eqn:Ha; [|done].
  rewrite removeFriend_eq. case_bool_decide as Hin; [|done].
  destruct (List.find (has_id b) s) as [ub|] eqn:Hb; [|done].
  intros Hrun. exists ua, ub.
  apply find_has_id in Ha as [_ Ha]. pose proof Hb as [_ Hb']%find_has_id.
  subst a b. unfold unlink_store. repeat split; try done. congruence.
Qed.

Lemma update_success (i : string) (d : IUserUpdate) (s s' : Store) (r : option User) :
  updateUser i d s = (inr r, s') →
  (List.find (has_id i) s = None ∧ s' = s) ∨
  (∃ u, List.find (has_id i) s = Some u ∧ s' = update_store u d s).
Proof.
  unfold updateUser, try_catch, bind, findOne_id.
  destruct (List.find (has_id i) s) as [u|] eqn:Hu; [|intros [= _ <-]; by left].
  intros H. right. exists u. split; [done|]. unfold update_store.
  destruct (up_username d) as [n|].
  - destruct (truthy n && negb (bool_decide (n = username u))).
    + unfold findOne_username_ne in H.
      destruct (List.find _ s) in H; [done|]. simpl in H.
      destruct (up_hobbies d); [rewrite calc_eq in H|]; by injection H.
    + simpl in H. destruct (up_hobbies d); [rewrite calc_eq in H|]; by injection H.
  - simpl in H. destruct (up_hobbies d); [rewrite calc_eq in H|]; by injection H.
Qed.

Lemma delete_success (i : string) (s s' : Store) (r : bool) :
  deleteUser i s = (inr r, s') →
  (List.find (has_id i) s = None ∧ s' = s) ∨
  (∃ u, List.find (has_id i) s = Some u ∧ friends u = [] ∧ s' = remove_doc i s).
Proof.
  unfold deleteUser, try_catch, bind, findOne_id, canDeleteUser, bind, findOne_id.
  destruct (List.find (has_id i) s) as [u|] eqn:Hu; [|intros [= _ <-]; by left].
  simpl. rewrite Hu. simpl. case_bool_decide as Hf; simpl; [|done].
  intros [= _ <-]. right. exists u. split; [done|]. split; [|done].
  by destruct (friends u).
Qed.

Lemma removeHobby_success (i h : string) (s s' : Store) (r : option User) :
  removeHobby i h s = (inr r, s') →
  (List.find (has_id i) s = None ∧ s' = s) ∨
  (∃ u, List.find (has_id i) s = Some u ∧ h ∈ hobbies u ∧ s' = removeHobby_store u h s).
Proof.
  unfold removeHobby, try_catch, bind, findOne_id.
  destruct (List.find (has_id i) s) as [u|] eqn:Hu; [|intros [= _ <-]; by left].
  case_bool_decide as Hh; simpl; [|done].
  rewrite calc_eq. intros [= _ <-]. right. exists u. done.
Qed.

Lemma run_forget {A} (m : M A) (s s' : Store) (r : unit) :
  forget m s = (inr r, s') → ∃ a, m s = (inr a, s').
Proof.
  unfold forget, bind. destruct (m s) as [[e|a] s1]; [done|].
  intros [= _ <-]. eauto.
Qed.

(** ** Symmetry is preserved *)

Lemma friends_of_find (s : Store) (x : string) (u : User) :
  List.find (has_id x) s = Some u → friends_of s x = Some (friends u).
Proof. intros H. unfold friends_of. by rewrite H. Qed.

Lemma friends_of_replace_same (x : string) (d : User) (s : Store) :
  friends_of s (id d) = Some (friends d) →
  friends_of (replace_doc d s) x = friends_of s x.
Proof.
  intros H. rewrite friends_of_replace_doc. case_bool_decide as E; [|done].
  subst x. by rewrite H.
Qed.

Lemma Object_assign_id (u : User) (d : IUserUpdate) : id (Object_assign u d) = id u.
Proof. unfold Object_assign. by destruct (up_username d), (up_age d), (up_hobbies d). Qed.

Lemma Object_assign_friends (u : User) (d : IUserUpdate) :
  friends (Object_assign u d) = friends u.
Proof. unfold Object_assign. by destruct (up_username d), (up_age d), (up_hobbies d). Qed.

Lemma same_friends_symmetric (s s' : Store) :
  ids_unique s → id <$> s' = id <$> s →
  (∀ x, friends_of s' x = friends_of s x) →
  symmetric s → ids_unique s' ∧ symmetric s'.
Proof.
  intros Hs Hid Hf Hsym.
  assert (ids_unique s') as Hs' by (unfold ids_unique; by rewrite Hid).
  split; [done|]. apply symmetric_sym_find; [done|].
  apply (sym_find_same s); [done|]. by apply symmetric_sym_find.
Qed.

Lemma update_store_friends (u : User) (d : IUserUpdate) (s : Store) (x : string) :
  List.find (has_id (id u)) s = Some u →
  friends_of (update_store u d s) x = friends_of s x.
Proof.
  intros Hu. unfold update_store.
  assert (∀ y, friends_of (replace_doc (pre_save (Object_assign u d)) s) y = friends_of s y) as H1.
  { intros y. apply friends_of_replace_same. simpl.
    rewrite Object_assign_id, Object_assign_friends. by apply friends_of_find. }
  destruct (up_hobbies d); [|apply H1].
  rewrite friends_of_calc_store; [apply H1|].
  rewrite H1. simpl. rewrite Object_assign_id, Object_assign_friends.
  by apply friends_of_find.
Qed.

Lemma removeHobby_store_friends (u : User) (h : string) (s : Store) (x : string) :
  List.find (has_id (id u)) s = Some u →
  friends_of (removeHobby_store u h s) x = friends_of s x.
Proof.
  intros Hu. unfold removeHobby_store.
  assert (∀ y, friends_of (replace_doc
      (pre_save (set_hobbies u (filter (λ x, x ≠ h) (hobbies u)))) s) y = friends_of s y) as H1.
  { intros y. apply friends_of_replace_same. simpl. by apply friends_of_find. }
  rewrite friends_of_calc_store; [apply H1|].
  rewrite H1. simpl. by apply friends_of_find.
Qed.

Lemma link_store_friends (ua ub : User) (s : Store) (x : string) :
  List.find (has_id (id ua)) s = Some ua → List.find (has_id (id ub)) s = Some ub →
  id ua ≠ id ub →
  friends_of (link_store ua ub s) x =
  if bool_decide (x = id ub) then Some (friends ub ++ [id ua])
  else if bool_decide (x = id ua) then Some (friends ua ++ [id ub])
  else friends_of s x.
Proof.
  intros Ha Hb Hab. unfold link_store.
  set (a1 := pre_save (set_friends ua (friends ua ++ [id ub]))).
  set (b1 := pre_save (set_friends ub (friends ub ++ [id ua]))).
  assert (∀ y, friends_of (replace_doc b1 (replace_doc a1 s)) y =
    if bool_decide (y = id ub) then Some (friends ub ++ [id ua])
    else if bool_decide (y = id ua) then Some (friends ua ++ [id ub])
    else friends_of s y) as H2.
  { intros y. rewrite !friends_of_replace_doc. simpl.
    case_bool_decide as E1; case_bool_decide as E2; subst; try done.
    - by rewrite (friends_of_find _ _ _ Hb).
    - by rewrite (friends_of_find _ _ _ Ha). }
  assert (∀ y, friends_of (calc_store a1 (replace_doc b1 (replace_doc a1 s))) y =
    friends_of (replace_doc b1 (replace_doc a1 s)) y) as H3.
  { intros y. apply friends_of_calc_store. rewrite H2. simpl.
    rewrite bool_decide_eq_false_2 by done. by rewrite bool_decide_eq_true_2. }
  rewrite friends_of_calc_store; [by rewrite H3, H2|].
  rewrite H3, H2. simpl. by rewrite bool_decide_eq_true_2.
Qed.

Lemma unlink_store_friends (ua ub : User) (s : Store) (x : string) :
  List.find (has_id (id ua)) s = Some ua → List.find (has_id (id ub)) s = Some ub →
  friends_of (unlink_store ua ub s) x =
  if bool_decide (x = id ub) then Some (filter (λ i, i ≠ (id ua)) (friends ub))
  else if bool_decide (x = id ua) then Some (filter (λ i, i ≠ (id ub)) (friends ua))
  else friends_of s x.
Proof.
  intros Ha Hb. unfold unlink_store.
  set (a1 := pre_save (set_friends ua (filter (λ i, i ≠ (id ub)) (friends ua)))).
  set (b1 := pre_save (set_friends ub (filter (λ i, i ≠ (id ua)) (friends ub)))).
  assert (∀ y, friends_of (replace_doc b1 (replace_doc a1 s)) y =
    if bool_decide (y = id ub) then Some (filter (λ i, i ≠ (id ua)) (friends ub))
    else if bool_decide (y = id ua) then Some (filter (λ i, i ≠ (id ub)) (friends ua))
    else friends_of s y) as H2.
  { intros y. rewrite !friends_of_replace_doc. simpl.
    case_bool_decide as E1; case_bool_decide as E2; subst; try done.
    - rewrite E2 in *. by rewrite (friends_of_find _ _ _ Hb).
    - by rewrite (friends_of_find _ _ _ Hb).
    - by rewrite (friends_of_find _ _ _ Ha). }
  assert (∀ y, friends_of (calc_store a1 (replace_doc b1 (replace_doc a1 s))) y =
    friends_of (replace_doc b1 (replace_doc a1 s)) y) as H3.
  { intros y. apply friends_of_calc_store. rewrite H2. simpl.
    case_bool_decide as E; [|by rewrite bool_decide_eq_true_2].
    assert (ua = ub) as -> by congruence. done. }
  rewrite friends_of_calc_store; [by rewrite H3, H2|].
  rewrite H3, H2. simpl. by rewrite bool_decide_eq_true_2.
Qed.

Lemma find_id_self (s : Store) (x : string) (u : User) :
  List.find (has_id x) s = Some u → List.find (has_id (id u)) s = Some u.
Proof. intros H. pose proof (find_has_id _ _ _ H) as [_ E]. by rewrite E. Qed.

Lemma link_symmetric (ua ub : User) (s : Store) :
  ids_unique s → symmetric s →
  List.find (has_id (id ua)) s = Some ua → List.find (has_id (id ub)) s = Some ub →
  id ua ≠ id ub →
  ids_unique (link_store ua ub s) ∧ symmetric (link_store ua ub s).
Proof.
  intros Hs Hsym Ha Hb Hab.
  assert (ids_unique (link_store ua ub s)) as Hs'.
  { unfold ids_unique, link_store. by rewrite !ids_calc_store, !ids_replace_doc. }
  split; [done|]. apply symmetric_sym_find; [done|].
  apply symmetric_sym_find in Hsym; [|done].
  pose proof (friends_of_find _ _ _ Ha) as Fa.
  pose proof (friends_of_find _ _ _ Hb) as Fb.
  intros x y fx fy. rewrite !link_store_friends by done.
  repeat case_bool_decide; intros Hx Hy Hin; subst;
    try (injection Hx as <-); try (injection Hy as <-);
    rewrite ?elem_of_app, ?list_elem_of_singleton in *; try tauto;
    first [left | idtac]; eapply Hsym; try eassumption; tauto.
Qed.

Lemma unlink_symmetric (ua ub : User) (s : Store) :
  ids_unique s → symmetric s →
  List.find (has_id (id ua)) s = Some ua → List.find (has_id (id ub)) s = Some ub →
  ids_unique (unlink_store ua ub s) ∧ symmetric (unlink_store ua ub s).
Proof.
  intros Hs Hsym Ha Hb.
  assert (ids_unique (unlink_store ua ub s)) as Hs'.
  { unfold ids_unique, unlink_store. by rewrite !ids_calc_store, !ids_replace_doc. }
  split; [done|]. apply symmetric_sym_find; [done|].
  apply symmetric_sym_find in Hsym; [|done].
  pose proof (friends_of_find _ _ _ Ha) as Fa.
  pose proof (friends_of_find _ _ _ Hb) as Fb.
  intros x y fx fy. rewrite !unlink_store_friends by done.
  repeat case_bool_decide; intros Hx Hy Hin; subst;
    try (injection Hx as <-); try (injection Hy as <-);
    rewrite ?list_elem_of_filter in *; try tauto;
    first [split; [congruence|] | idtac]; eapply Hsym; try eassumption; tauto.
Qed.

Lemma create_symmetric (s : Store) (n : User) :
  ids_unique s → symmetric s →
  (id n ∉ id <$> s) → Forall (λ u, id n ∉ friends u) s → friends n = [] →
  ids_unique (s ++ [n]) ∧ symmetric (s ++ [n]).
Proof.
  intros Hs Hsym Hid Hfr Hn. split.
  - unfold ids_unique. rewrite fmap_app. apply NoDup_app. split; [done|]. split.
    + intros x Hx Hx'%list_elem_of_singleton. by subst.
    + apply NoDup_singleton.
  - unfold symmetric in *. rewrite Forall_forall in Hfr.
    apply Forall_forall. intros a Ha. apply Forall_forall. intros b Hb.
    apply elem_of_app in Ha as [Ha|Ha%list_elem_of_singleton];
      apply elem_of_app in Hb as [Hb|Hb%list_elem_of_singleton]; subst.
    + by apply (consistent_sym s Hsym).
    + rewrite Hn. split; [intros H; by apply Hfr in H|by intros ?%elem_of_nil].
    + rewrite Hn. split; [by intros ?%elem_of_nil|intros H; by apply Hfr in H].
    + done.
Qed.

Lemma remove_doc_sublist (i : string) (s : Store) : remove_doc i s `sublist_of` s.
Proof.
  induction s as [|u r IH]; simpl; [done|].
  destruct (has_id i u); [by apply sublist_cons|by apply sublist_skip].
Qed.

Lemma delete_symmetric (i : string) (s : Store) :
  ids_unique s → symmetric s →
  ids_unique (remove_doc i s) ∧ symmetric (remove_doc i s).
Proof.
  intros Hs Hsym. pose proof (remove_doc_sublist i s) as Hsub. split.
  - unfold ids_unique in *. eapply sublist_NoDup; [done|]. by apply fmap_sublist.
  - unfold symmetric. apply Forall_forall. intros a Ha. apply Forall_forall. intros b Hb.
    apply (consistent_sym s Hsym); by eapply elem_of_sublist.
Qed.

(** C3. A completed create, update, delete, link, unlink or hobby removal
    takes a collection with unique identifiers and a symmetric friendship
    relation to one with the same two properties; for a creation the new
    identifier is one the collection does not use. *)
Theorem symmetry_preserved (s s' : Store) (op : Op) (r : unit) :
  ids_unique s → symmetric s → op_fresh s op →
  run op s = (inr r, s') →
  ids_unique s' ∧ symmetric s'.
Proof.
  intros Hs Hsym Hfresh Hrun. destruct op as [newId now d|i d|i|a b|a b|i h]; cbv [run] in Hrun.
  - apply run_forget in Hrun as [u Hrun].
    apply createUser_success in Hrun as (-> & -> & _).
    destruct Hfresh as [H1 H2].
    by apply (create_symmetric s (pre_save (new_User newId now d))).
  - apply run_forget in Hrun as [u Hrun].
    apply update_success in Hrun as [[_ ->]|(u0 & Hu & ->)]; [done|].
    apply find_id_self in Hu.
    apply (same_friends_symmetric s); try done.
    + unfold update_store. destruct (up_hobbies d);
        by rewrite ?ids_calc_store, ?ids_replace_doc.
    + intros x. by apply update_store_friends.
  - apply run_forget in Hrun as [u Hrun].
    apply delete_success in Hrun as [[_ ->]|(u0 & Hu & _ & ->)]; [done|].
    by apply delete_symmetric.
  - apply link_success in Hrun as (ua & ub & Ha & Hb & Hab & _ & ->).
    pose proof (find_has_id _ _ _ Ha) as [_ Ea].
    pose proof (find_has_id _ _ _ Hb) as [_ Eb].
    apply link_symmetric; try done; [by eapply find_id_self..|congruence].
  - apply unlink_success in Hrun as (ua & ub & Ha & Hb & _ & ->).
    apply unlink_symmetric; try done; by eapply find_id_self.
  - apply run_forget in Hrun as [u Hrun].
    apply removeHobby_success in Hrun as [[_ ->]|(u0 & Hu & _ & ->)]; [done|].
    apply find_id_self in Hu.
    apply (same_friends_symmetric s); try done.
    + unfold removeHobby_store. by rewrite ?ids_calc_store, ?ids_replace_doc.
    + intros x. by apply removeHobby_store_friends.
Qed.


(** ** Stored scores after a mutation *)

Lemma score_formula_ext (s s' : Store) (u u' : User) :
  friends u = friends u' → hobby_set u = hobby_set u' →
  (∀ f, f ∈ friends u → hobbies_of s f = hobbies_of s' f) →
  score_formula s u = score_formula s' u'.
Proof.
  intros Hf Hh Hs. unfold score_formula, exact_score, shared_total, friend_set.
  rewrite <- Hf. do 5 f_equal.
  apply sum_list_with_ext. intros f Hin.
  apply elem_of_elements, elem_of_list_to_set in Hin.
  unfold shared_with. by rewrite Hh, (Hs f Hin).
Qed.

Lemma hobbies_of_find (s : Store) (x : string) (u : User) :
  List.find (has_id x) s = Some u → hobbies_of s x = hobby_set u.
Proof. intros H. unfold hobbies_of. by rewrite H. Qed.

Lemma hobbies_of_replace_doc (f : string) (d : User) (s : Store) :
  f ≠ id d → hobbies_of (replace_doc d s) f = hobbies_of s f.
Proof.
  intros H. unfold hobbies_of. rewrite find_replace_doc.
  by rewrite bool_decide_eq_false_2.
Qed.

Lemma hobbies_of_replace_same (f : string) (d u : User) (s : Store) :
  List.find (has_id (id d)) s = Some u → hobby_set d = hobby_set u →
  hobbies_of (replace_doc d s) f = hobbies_of s f.
Proof.
  intros Hu Hh. destruct (decide (f = id d)) as [->|Hne].
  - unfold hobbies_of. rewrite find_replace_doc, bool_decide_eq_true_2 by done.
    rewrite Hu. simpl. done.
  - by apply hobbies_of_replace_doc.
Qed.

Lemma pre_save_not_blank (u : User) : Forall not_blank (hobbies (pre_save u)).
Proof.
  apply Forall_forall. intros h Hh. simpl in Hh.
  apply new_Set_elem, list_elem_of_filter in Hh as [Hh _]. done.
Qed.

Lemma hobby_set_pre_save (u : User) :
  Forall not_blank (hobbies u) → hobby_set (pre_save u) = hobby_set u.
Proof.
  intros H. unfold hobby_set. simpl. rewrite new_Set_to_set.
  apply set_eq. intros h. rewrite !elem_of_list_to_set, list_elem_of_filter.
  rewrite Forall_forall in H. split; [tauto|]. intros Hh. split; [by apply H|done].
Qed.

Lemma hobby_set_pre_save_of (u v : User) :
  hobbies v = hobbies u → Forall not_blank (hobbies u) →
  hobby_set (pre_save v) = hobby_set u.
Proof.
  intros E H. rewrite hobby_set_pre_save by (by rewrite E).
  unfold hobby_set. by rewrite E.
Qed.

Lemma scored_hobby_set (this : User) (s : Store) :
  Forall not_blank (hobbies this) → hobby_set (scored this s) = hobby_set this.
Proof. intros H. unfold scored. by rewrite hobby_set_pre_save. Qed.

Lemma scored_score (this : User) (s : Store) :
  popularityScore (scored this s) = code_score this s.
Proof. done. Qed.

(** [calculatePopularityScore] on the stored copy of a user with friends. *)
Lemma calc_store_ok (this : User) (s : Store) :
  ids_unique s → NoDup (friends this) → Forall not_blank (hobbies this) →
  List.find (has_id (id this)) s = Some this → friends this ≠ [] →
  List.find (has_id (id this)) (calc_store this s) = Some (scored this s) ∧
  score_ok (calc_store this s) (scored this s).
Proof.
  intros Hs Hnd Hnb Hfind Hne. unfold calc_store.
  rewrite bool_decide_eq_false_2 by (destruct (friends this); [done|simpl; lia]).
  split.
  - rewrite find_replace_doc, scored_id, bool_decide_eq_true_2 by done.
    by rewrite Hfind.
  - unfold score_ok. rewrite scored_score, (code_score_formula s this Hs Hnd).
    apply score_formula_ext; [done|by rewrite scored_hobby_set|].
    intros f _. symmetry.
    apply (hobbies_of_replace_same f _ this); [done|by apply scored_hobby_set].
Qed.

Lemma calc_store_hobbies (this : User) (s : Store) (f : string) :
  Forall not_blank (hobbies this) →
  List.find (has_id (id this)) s = Some this →
  hobbies_of (calc_store this s) f = hobbies_of s f.
Proof.
  intros Hnb Hfind. unfold calc_store. case_bool_decide; [done|].
  apply (hobbies_of_replace_same f _ this); [done|by apply scored_hobby_set].
Qed.

Lemma find_calc_store_ne (this : User) (s : Store) (x : string) :
  x ≠ id this → List.find (has_id x) (calc_store this s) = List.find (has_id x) s.
Proof.
  intros H. unfold calc_store. case_bool_decide; [done|].
  rewrite find_replace_doc, scored_id. by rewrite bool_decide_eq_false_2.
Qed.

Lemma find_calc_store_eq (this : User) (s : Store) :
  List.find (has_id (id this)) s = Some this →
  List.find (has_id (id this)) (calc_store this s) =
  Some (if bool_decide (length (friends this) = 0%nat) then this else scored this s).
Proof.
  intros H. unfold calc_store. case_bool_decide; [done|].
  rewrite find_replace_doc, scored_id, bool_decide_eq_true_2 by done. by rewrite H.
Qed.

Lemma find_replace_doc_eq (d u : User) (s : Store) :
  List.find (has_id (id d)) s = Some u →
  List.find (has_id (id d)) (replace_doc d s) = Some d.
Proof. intros H. rewrite find_replace_doc, bool_decide_eq_true_2 by done. by rewrite H. Qed.

Lemma find_replace_doc_ne (d : User) (s : Store) (x : string) :
  x ≠ id d → List.find (has_id x) (replace_doc d s) = List.find (has_id x) s.
Proof. intros H. rewrite find_replace_doc. by rewrite bool_decide_eq_false_2. Qed.

Lemma elem_find (s : Store) (u : User) :
  ids_unique s → u ∈ s → List.find (has_id (id u)) s = Some u.
Proof. apply find_unique. Qed.

Lemma ids_unique_replace_doc (d : User) (s : Store) :
  ids_unique s → ids_unique (replace_doc d s).
Proof. unfold ids_unique. by rewrite ids_replace_doc. Qed.

Lemma ids_unique_calc_store (this : User) (s : Store) :
  ids_unique s → ids_unique (calc_store this s).
Proof. unfold ids_unique. by rewrite ids_calc_store. Qed.

(** One run of [calculatePopularityScore] on the stored copy [this]. *)
Lemma calc_step (this : User) (s : Store) :
  ids_unique s → NoDup (friends this) → Forall not_blank (hobbies this) →
  List.find (has_id (id this)) s = Some this →
  (∃ t, List.find (has_id (id this)) (calc_store this s) = Some t ∧
        ((t = this ∧ friends this = []) ∨ score_ok (calc_store this s) t)) ∧
  (∀ f, hobbies_of (calc_store this s) f = hobbies_of s f) ∧
  (∀ x, x ≠ id this →
        List.find (has_id x) (calc_store this s) = List.find (has_id x) s) ∧
  ids_unique (calc_store this s).
Proof.
  intros Hs Hnd Hnb Hfind. split; [|split; [|split]].
  - destruct (decide (friends this = [])) as [Hf|Hf].
    + exists this. unfold calc_store. rewrite Hf. simpl. split; [done|]. by left.
    + destruct (calc_store_ok this s Hs Hnd Hnb Hfind Hf) as [H1 H2].
      exists (scored this s). split; [done|by right].
  - intros f. by apply calc_store_hobbies.
  - intros x Hx. by apply find_calc_store_ne.
  - by apply ids_unique_calc_store.
Qed.

Lemma score_ok_transfer (s s' : Store) (u : User) :
  (∀ f, f ∈ friends u → hobbies_of s' f = hobbies_of s f) →
  score_ok s u → score_ok s' u.
Proof.
  intros H Hok. unfold score_ok in *. rewrite Hok.
  apply score_formula_ext; [done..|]. intros f Hf. by rewrite H.
Qed.

(** Both ends of a link or unlink: [a1] and [b1] are the two documents as
    they are saved. *)
Lemma pair_scores (ua ub a1 b1 : User) (s : Store) :
  ids_unique s → (∀ u, u ∈ s → score_ok s u) →
  List.find (has_id (id ua)) s = Some ua → List.find (has_id (id ub)) s = Some ub →
  id ua ≠ id ub → id a1 = id ua → id b1 = id ub →
  hobby_set a1 = hobby_set ua → hobby_set b1 = hobby_set ub →
  Forall not_blank (hobbies a1) → Forall not_blank (hobbies b1) →
  NoDup (friends a1) → NoDup (friends b1) →
  ∀ u', u' ∈ calc_store b1 (calc_store a1 (replace_doc b1 (replace_doc a1 s))) →
    score_ok (calc_store b1 (calc_store a1 (replace_doc b1 (replace_doc a1 s)))) u' ∨
    (friends u' = [] ∧ (u' = a1 ∨ u' = b1)).
Proof.
  intros Hs Hok Ha Hb Hab Ia Ib Hha Hhb Hna Hnb Hda Hdb.
  set (s1 := replace_doc a1 s). set (s2 := replace_doc b1 s1).
  assert (List.find (has_id (id a1)) s1 = Some a1) as F1a.
  { apply (find_replace_doc_eq a1 ua). by rewrite Ia. }
  assert (List.find (has_id (id b1)) s1 = Some ub) as F1b.
  { unfold s1. rewrite find_replace_doc_ne by congruence. by rewrite Ib. }
  assert (∀ f, hobbies_of s1 f = hobbies_of s f) as H1.
  { intros f. apply (hobbies_of_replace_same f a1 ua); [by rewrite Ia|done]. }
  assert (List.find (has_id (id b1)) s2 = Some b1) as F2b.
  { by apply (find_replace_doc_eq b1 ub). }
  assert (List.find (has_id (id a1)) s2 = Some a1) as F2a.
  { unfold s2. rewrite find_replace_doc_ne by congruence. done. }
  assert (∀ f, hobbies_of s2 f = hobbies_of s f) as H2.
  { intros f. unfold s2. rewrite (hobbies_of_replace_same f b1 ub); done. }
  assert (ids_unique s2) as U2 by (by do 2 apply ids_unique_replace_doc).
  destruct (calc_step a1 s2) as ((ta & F3a & Ta) & H3 & N3 & U3); try done.
  set (s3 := calc_store a1 s2) in *.
  assert (List.find (has_id (id b1)) s3 = Some b1) as F3b.
  { rewrite N3 by congruence. done. }
  destruct (calc_step b1 s3) as ((tb & F4b & Tb) & H4 & N4 & U4); try done.
  set (s4 := calc_store b1 s3) in *.
  assert (∀ f, hobbies_of s4 f = hobbies_of s f) as H.
  { intros f. by rewrite H4, H3, H2. }
  intros u' Hu'. pose proof (elem_find s4 u' U4 Hu') as Fu.
  destruct (decide (id u' = id b1)) as [Eb|Eb].
  - rewrite Eb, F4b in Fu. injection Fu as <-.
    destruct Tb as [[-> Hf]|Tb]; [right|left]; auto.
  - rewrite N4 in Fu by done.
    destruct (decide (id u' = id a1)) as [Ea|Ea].
    + rewrite Ea, F3a in Fu. injection Fu as <-.
      destruct Ta as [[-> Hf]|Ta]; [right; auto|left].
      apply (score_ok_transfer s3); [|done]. intros f _. apply H4.
    + rewrite N3 in Fu by done. unfold s2, s1 in Fu.
      rewrite !find_replace_doc_ne in Fu by done.
      apply find_has_id in Fu as [Hin _]. left.
      apply (score_ok_transfer s); [|by apply Hok]. intros f _. apply H.
Qed.

(** A user's own record is edited, saved and rescored. *)
Lemma edit_scores (u u1 : User) (s : Store) :
  ids_unique s → (∀ v, v ∈ s → score_ok s v) →
  List.find (has_id (id u)) s = Some u →
  id u1 = id u → friends u1 = friends u → popularityScore u1 = popularityScore u →
  Forall not_blank (hobbies u1) → NoDup (friends u1) →
  ∀ u', u' ∈ calc_store u1 (replace_doc u1 s) →
    score_ok (calc_store u1 (replace_doc u1 s)) u' ∨ (id u ∈ friends u' ∧ u' ∈ s).
Proof.
  intros Hs Hok Hu Iu Hf Hp Hnb Hnd.
  set (s1 := replace_doc u1 s).
  assert (List.find (has_id (id u1)) s1 = Some u1) as F1.
  { apply (find_replace_doc_eq u1 u). by rewrite Iu. }
  assert (ids_unique s1) as U1 by (by apply ids_unique_replace_doc).
  destruct (calc_step u1 s1) as ((t & F2 & T) & H2 & N2 & U2); try done.
  set (s2 := calc_store u1 s1) in *.
  intros u' Hu'. pose proof (elem_find s2 u' U2 Hu') as Fu.
  destruct (decide (id u' = id u1)) as [E|E].
  - rewrite E, F2 in Fu. injection Fu as <-. left.
    destruct T as [[-> Hnil]|T]; [|done].
    unfold score_ok. rewrite Hp.
    pose proof (find_has_id _ _ _ Hu) as [Hin _].
    rewrite (Hok u Hin), !score_formula_no_friends; [done..|congruence].
  - rewrite N2 in Fu by done. unfold s1 in Fu.
    rewrite find_replace_doc_ne in Fu by done.
    apply find_has_id in Fu as [Hin _].
    destruct (decide (id u ∈ friends u')) as [Hfr|Hfr]; [by right|left].
    apply (score_ok_transfer s); [|by apply Hok].
    intros f Hfin. rewrite H2. unfold s1. apply hobbies_of_replace_doc.
    intros ->. apply Hfr. by rewrite <- Iu.
Qed.

(** A record is saved with the same friends, hobbies (as a set) and score. *)
Lemma resave_scores (u u1 : User) (s : Store) :
  ids_unique s → (∀ v, v ∈ s → score_ok s v) →
  List.find (has_id (id u)) s = Some u →
  id u1 = id u → friends u1 = friends u → popularityScore u1 = popularityScore u →
  hobby_set u1 = hobby_set u →
  ∀ u', u' ∈ replace_doc u1 s → score_ok (replace_doc u1 s) u'.
Proof.
  intros Hs Hok Hu Iu Hf Hp Hh.
  assert (∀ f, hobbies_of (replace_doc u1 s) f = hobbies_of s f) as H1.
  { intros f. apply (hobbies_of_replace_same f u1 u); [by rewrite Iu|done]. }
  intros u' Hu'.
  pose proof (elem_find _ u' (ids_unique_replace_doc u1 s Hs) Hu') as Fu.
  pose proof (find_has_id _ _ _ Hu) as [Hin _].
  destruct (decide (id u' = id u1)) as [E|E].
  - rewrite E, (find_replace_doc_eq u1 u) in Fu by (by rewrite Iu).
    injection Fu as <-. unfold score_ok. rewrite Hp, (Hok u Hin).
    apply score_formula_ext; [done..|]. intros f _. by rewrite H1.
  - rewrite find_replace_doc_ne in Fu by done.
    apply find_has_id in Fu as [Hin' _].
    apply (score_ok_transfer s); [|by apply Hok]. intros f _. apply H1.
Qed.

Lemma find_app_old (x : string) (s : Store) (n : User) :
  x ∈ id <$> s → List.find (has_id x) (s ++ [n]) = List.find (has_id x) s.
Proof.
  induction s as [|u r IH]; simpl; [by intros ?%elem_of_nil|].
  intros H. destruct (has_id x u) eqn:E; [done|].
  apply IH. apply elem_of_cons in H as [H|H]; [|done].
  unfold has_id in E. apply bool_decide_eq_false in E. congruence.
Qed.

Lemma find_remove_doc_ne (x i : string) (s : Store) :
  x ≠ i → List.find (has_id x) (remove_doc i s) = List.find (has_id x) s.
Proof.
  intros Hne. induction s as [|u r IH]; simpl; [done|].
  destruct (has_id i u) eqn:Ei; destruct (has_id x u) eqn:Ex; simpl; rewrite ?Ex; try done.
  unfold has_id in Ei, Ex. apply bool_decide_eq_true in Ei, Ex. congruence.
Qed.

Lemma create_scores (s : Store) (n : User) :
  friends_exist s → (∀ u, u ∈ s → score_ok s u) →
  friends n = [] → popularityScore n = 0%Q →
  ∀ u', u' ∈ s ++ [n] → score_ok (s ++ [n]) u'.
Proof.
  intros Hex Hok Hn Hp u' [Hu|Hu%list_elem_of_singleton]%elem_of_app.
  - apply (score_ok_transfer s); [|by apply Hok]. intros f Hf.
    unfold hobbies_of. rewrite find_app_old; [done|].
    unfold friends_exist in Hex. rewrite Forall_forall in Hex.
    specialize (Hex u' Hu). rewrite Forall_forall in Hex. by apply Hex.
  - subst u'. unfold score_ok. by rewrite Hp, score_formula_no_friends.
Qed.

Lemma delete_scores (s : Store) (i : string) (u : User) :
  ids_unique s → symmetric s → (∀ v, v ∈ s → score_ok s v) →
  List.find (has_id i) s = Some u → friends u = [] →
  ∀ u', u' ∈ remove_doc i s → score_ok (remove_doc i s) u'.
Proof.
  intros Hs Hsym Hok Hu Hnil u' Hu'.
  apply (remove_doc_ids i s Hs) in Hu' as [Hin Hne].
  apply (score_ok_transfer s); [|by apply Hok]. intros f Hf.
  unfold hobbies_of. rewrite find_remove_doc_ne; [done|]. intros ->.
  apply find_has_id in Hu as [Hu <-].
  apply (consistent_sym s Hsym u' u Hin Hu) in Hf. rewrite Hnil in Hf.
  by apply elem_of_nil in Hf.
Qed.

Lemma Object_assign_score (u : User) (d : IUserUpdate) :
  popularityScore (Object_assign u d) = popularityScore u.
Proof. unfold Object_assign. by destruct (up_username d), (up_age d), (up_hobbies d). Qed.

Lemma Object_assign_hobbies (u : User) (d : IUserUpdate) :
  up_hobbies d = None → hobbies (Object_assign u d) = hobbies u.
Proof. intros H. unfold Object_assign. rewrite H. by destruct (up_username d), (up_age d). Qed.

Lemma consistent_elem (s : Store) (u : User) :
  consistent s → u ∈ s → NoDup (friends u) ∧ id u ∉ friends u.
Proof.
  intros (_ & Hsets & _ & Hirr & _) Hu.
  unfold friends_are_sets, irreflexive in *. rewrite Forall_forall in Hsets, Hirr.
  split; [by apply Hsets|by apply Hirr].
Qed.

Lemma no_blank_elem (s : Store) (u : User) :
  no_blank_hobbies s → u ∈ s → Forall not_blank (hobbies u).
Proof. unfold no_blank_hobbies. rewrite Forall_forall. auto. Qed.

(** C1, as the code has it.  Take a collection that satisfies the
    invariants of the data model, stores no blank hobby and in which every
    stored score agrees with the formula.  After a completed operation every
    stored score again agrees with the formula applied to the new
    collection, except possibly: after an unlink, an end of the removed
    friendship that is left without friends; after an update of hobbies or
    a hobby removal, the friends of the edited user, whose records are
    untouched. *)
Theorem scores_after_mutation (s s' : Store) (op : Op) (r : unit) :
  consistent s → no_blank_hobbies s →
  (∀ u, u ∈ s → score_ok s u) →
  run op s = (inr r, s') →
  ∀ u', u' ∈ s' → score_ok s' u' ∨ stale s op u'.
Proof.
  intros Hc Hnb Hok Hrun.
  pose proof Hc as (Hs & Hsets & Hex & Hirr & Hsym).
  destruct op as [newId now d|i d|i|a b|a b|i h]; cbv [run] in Hrun.
  - apply run_forget in Hrun as [u Hrun].
    apply createUser_success in Hrun as (-> & -> & _).
    intros u' Hu'. left. revert u' Hu'. by apply create_scores.
  - apply run_forget in Hrun as [u Hrun].
    apply update_success in Hrun as [[_ ->]|(u0 & Hu & ->)]; [by left; apply Hok|].
    pose proof (find_has_id _ _ _ Hu) as [Hin Ei].
    apply find_id_self in Hu.
    destruct (consistent_elem s u0 Hc Hin) as [Hnd _].
    unfold update_store. destruct (up_hobbies d) as [hs|] eqn:Hh.
    + intros u' Hu'.
      destruct (edit_scores u0 (pre_save (Object_assign u0 d)) s) with (u' := u')
        as [H|[H1 H2]]; try done.
      * simpl. apply Object_assign_id.
      * simpl. apply Object_assign_friends.
      * simpl. apply Object_assign_score.
      * apply pre_save_not_blank.
      * simpl. by rewrite Object_assign_friends.
      * by left.
      * right. simpl. rewrite <- Ei. eauto.
    + intros u' Hu'. left. revert u' Hu'. apply (resave_scores u0); try done.
      * simpl. apply Object_assign_id.
      * simpl. apply Object_assign_friends.
      * simpl. apply Object_assign_score.
      * apply hobby_set_pre_save_of; [by apply Object_assign_hobbies|].
        by apply (no_blank_elem s).
  - apply run_forget in Hrun as [u Hrun].
    apply delete_success in Hrun as [[_ ->]|(u0 & Hu & Hnil & ->)]; [by left; apply Hok|].
    intros u' Hu'. left. revert u' Hu'. by apply (delete_scores s i u0).
  - apply link_success in Hrun as (ua & ub & Ha & Hb & Hab & Hnin & ->).
    pose proof (find_has_id _ _ _ Ha) as [Hina Ea].
    pose proof (find_has_id _ _ _ Hb) as [Hinb Eb].
    apply find_id_self in Ha, Hb.
    destruct (consistent_elem s ua Hc Hina) as [Hnda _].
    destruct (consistent_elem s ub Hc Hinb) as [Hndb _].
    intros u' Hu'. left. unfold link_store in *.
    destruct (pair_scores ua ub
      (pre_save (set_friends ua (friends ua ++ [id ub])))
      (pre_save (set_friends ub (friends ub ++ [id ua]))) s) with (u' := u')
      as [H|[H1 H2]]; try done.
    + congruence.
    + apply hobby_set_pre_save_of; [done|]. by apply (no_blank_elem s).
    + apply hobby_set_pre_save_of; [done|]. by apply (no_blank_elem s).
    + apply pre_save_not_blank.
    + apply pre_save_not_blank.
    + simpl. apply NoDup_app. split; [done|]. split; [|apply NoDup_singleton].
      intros x Hx Hx'%list_elem_of_singleton. subst x. apply Hnin. by rewrite <- Eb.
    + simpl. apply NoDup_app. split; [done|]. split; [|apply NoDup_singleton].
      intros x Hx Hx'%list_elem_of_singleton. subst x. apply Hnin. rewrite <- Eb.
      by apply (consistent_sym s Hsym ua ub Hina Hinb).
    + exfalso. destruct H2 as [-> | ->]; simpl in H1;
        [destruct (friends ua)|destruct (friends ub)]; discriminate H1.
  - apply unlink_success in Hrun as (ua & ub & Ha & Hb & Hin & ->).
    pose proof (find_has_id _ _ _ Ha) as [Hina Ea].
    pose proof (find_has_id _ _ _ Hb) as [Hinb Eb].
    apply find_id_self in Ha, Hb.
    destruct (consistent_elem s ua Hc Hina) as [Hnda Hirra].
    destruct (consistent_elem s ub Hc Hinb) as [Hndb _].
    intros u' Hu'. unfold unlink_store in *.
    destruct (pair_scores ua ub
      (pre_save (set_friends ua (filter (λ i, i ≠ (id ub)) (friends ua))))
      (pre_save (set_friends ub (filter (λ i, i ≠ (id ua)) (friends ub)))) s) with (u' := u')
      as [H|[H1 H2]]; try done.
    + intros E. apply Hirra. by rewrite E, Eb.
    + apply hobby_set_pre_save_of; [done|]. by apply (no_blank_elem s).
    + apply hobby_set_pre_save_of; [done|]. by apply (no_blank_elem s).
    + apply pre_save_not_blank.
    + apply pre_save_not_blank.
    + simpl. by apply NoDup_filter.
    + simpl. by apply NoDup_filter.
    + by left.
    + right. simpl. split; [done|]. destruct H2 as [-> | ->]; simpl; auto.
  - apply run_forget in Hrun as [u Hrun].
    apply removeHobby_success in Hrun as [[_ ->]|(u0 & Hu & Hh & ->)];
      [by left; apply Hok|].
    pose proof (find_has_id _ _ _ Hu) as [Hin Ei].
    apply find_id_self in Hu.
    destruct (consistent_elem s u0 Hc Hin) as [Hnd _].
    unfold removeHobby_store. intros u' Hu'.
    destruct (edit_scores u0
      (pre_save (set_hobbies u0 (filter (λ x, x ≠ h) (hobbies u0)))) s) with (u' := u')
      as [H|[H1 H2]]; try done.
    + apply pre_save_not_blank.
    + by left.
    + right. simpl. rewrite <- Ei. eauto.
Qed.


(** ** The invariants of the data model are preserved *)

Lemma friends_of_is_Some (s : Store) (x : string) :
  is_Some (friends_of s x) ↔ x ∈ id <$> s.
Proof.
  unfold friends_of. rewrite fmap_is_Some. split.
  - intros [u Hu]. apply find_has_id in Hu as [Hu <-]. by apply list_elem_of_fmap_2.
  - apply find_has_id_Some.
Qed.

Lemma consistent_friends_wf (s : Store) :
  ids_unique s →
  friends_are_sets s ∧ friends_exist s ∧ irreflexive s ↔ friends_wf s.
Proof.
  intros Hs. unfold friends_are_sets, friends_exist, irreflexive.
  rewrite !Forall_forall. split.
  - intros (Hsets & Hex & Hirr) x fx (u & Hu & <- & <-)%friends_of_Some.
    split; [by apply Hsets|]. split; [by apply Hirr|].
    intros f Hf. apply friends_of_is_Some.
    specialize (Hex u Hu). rewrite Forall_forall in Hex. by apply Hex.
  - intros H. split; [|split]; intros u Hu;
      destruct (H _ _ (friends_of_elem s u Hs Hu)) as (H1 & H2 & H3); try done.
    apply Forall_forall. intros f Hf. by apply friends_of_is_Some, H3.
Qed.

Lemma friends_wf_same (s s' : Store) :
  (∀ x, friends_of s' x = friends_of s x) → friends_wf s → friends_wf s'.
Proof.
  intros E H x fx. rewrite E. intros Hx.
  destruct (H x fx Hx) as (H1 & H2 & H3). split; [done|]. split; [done|].
  intros f Hf. rewrite E. by apply H3.
Qed.

Lemma link_friends_wf (ua ub : User) (s : Store) :
  sym_find s → friends_wf s →
  List.find (has_id (id ua)) s = Some ua → List.find (has_id (id ub)) s = Some ub →
  id ua ≠ id ub → id ub ∉ friends ua →
  friends_wf (link_store ua ub s).
Proof.
  intros Hsym Hwf Ha Hb Hab Hnin.
  pose proof (friends_of_find _ _ _ Ha) as Fa.
  pose proof (friends_of_find _ _ _ Hb) as Fb.
  destruct (Hwf _ _ Fa) as (Na & Ia & Ea). destruct (Hwf _ _ Fb) as (Nb & Ib & Eb).
  assert (id ua ∉ friends ub) as Hnin'.
  { intros H. apply Hnin. by apply (Hsym _ _ _ _ Fb Fa). }
  assert (∀ f, is_Some (friends_of s f) → is_Some (friends_of (link_store ua ub s) f)) as Hsome.
  { intros f Hf. rewrite link_store_friends by done. by repeat case_bool_decide. }
  intros x fx. rewrite link_store_friends by done.
  repeat case_bool_decide; intros Hx; subst; try injection Hx as <-.
  - split; [|split].
    + apply NoDup_app. split; [done|]. split; [|apply NoDup_singleton].
      intros y Hy Hy'%list_elem_of_singleton. by subst.
    + rewrite elem_of_app, list_elem_of_singleton. intros [?|?]; [done|congruence].
    + intros f [Hf|Hf%list_elem_of_singleton]%elem_of_app; apply Hsome; [by apply Eb|].
      subst. by rewrite Fa.
  - split; [|split].
    + apply NoDup_app. split; [done|]. split; [|apply NoDup_singleton].
      intros y Hy Hy'%list_elem_of_singleton. by subst.
    + rewrite elem_of_app, list_elem_of_singleton. intros [?|?]; [done|congruence].
    + intros f [Hf|Hf%list_elem_of_singleton]%elem_of_app; apply Hsome; [by apply Ea|].
      subst. by rewrite Fb.
  - destruct (Hwf _ _ Hx) as (H1 & H2 & H3). split; [done|]. split; [done|].
    intros f Hf. by apply Hsome, H3.
Qed.

Lemma unlink_friends_wf (ua ub : User) (s : Store) :
  friends_wf s →
  List.find (has_id (id ua)) s = Some ua → List.find (has_id (id ub)) s = Some ub →
  friends_wf (unlink_store ua ub s).
Proof.
  intros Hwf Ha Hb.
  pose proof (friends_of_find _ _ _ Ha) as Fa.
  pose proof (friends_of_find _ _ _ Hb) as Fb.
  destruct (Hwf _ _ Fa) as (Na & Ia & Ea). destruct (Hwf _ _ Fb) as (Nb & Ib & Eb).
  assert (∀ f, is_Some (friends_of s f) → is_Some (friends_of (unlink_store ua ub s) f)) as Hsome.
  { intros f Hf. rewrite unlink_store_friends by done. by repeat case_bool_decide. }
  intros x fx. rewrite unlink_store_friends by done.
  repeat case_bool_decide; intros Hx; subst; try injection Hx as <-.
  - split; [by apply NoDup_filter|]. split.
    + rewrite list_elem_of_filter. tauto.
    + intros f [_ Hf]%list_elem_of_filter. by apply Hsome, Eb.
  - split; [by apply NoDup_filter|]. split.
    + rewrite list_elem_of_filter. tauto.
    + intros f [_ Hf]%list_elem_of_filter. by apply Hsome, Ea.
  - destruct (Hwf _ _ Hx) as (H1 & H2 & H3). split; [done|]. split; [done|].
    intros f Hf. by apply Hsome, H3.
Qed.

Lemma find_app_new (x : string) (s : Store) (n : User) :
  x ∉ id <$> s →
  List.find (has_id x) (s ++ [n]) = if has_id x n then Some n else None.
Proof.
  induction s as [|u r IH]; simpl; [done|].
  intros [Hne Hx]%not_elem_of_cons.
  unfold has_id at 1. rewrite bool_decide_eq_false_2 by congruence. by apply IH.
Qed.

Lemma create_friends_wf (s : Store) (n : User) :
  friends_wf s → friends n = [] → friends_wf (s ++ [n]).
Proof.
  intros Hwf Hn.
  assert (∀ f, is_Some (friends_of s f) → friends_of (s ++ [n]) f = friends_of s f) as Hold.
  { intros f Hf%friends_of_is_Some. unfold friends_of. by rewrite find_app_old. }
  intros x fx Hx. destruct (decide (x ∈ id <$> s)) as [Hin|Hnin].
  - apply friends_of_is_Some in Hin. rewrite (Hold x Hin) in Hx.
    destruct (Hwf x fx Hx) as (H1 & H2 & H3). split; [done|]. split; [done|].
    intros f Hf. rewrite Hold; by apply H3.
  - unfold friends_of in Hx. rewrite find_app_new in Hx by done.
    destruct (has_id x n); [|done]. simpl in Hx. rewrite Hn in Hx.
    injection Hx as <-. split; [apply NoDup_nil_2|]. split; [apply not_elem_of_nil|].
    by intros f ?%elem_of_nil.
Qed.

Lemma find_remove_doc_eq (i : string) (s : Store) :
  ids_unique s → List.find (has_id i) (remove_doc i s) = None.
Proof.
  intros Hs. apply find_has_id_None. intros (v & -> & Hv)%list_elem_of_fmap.
  by apply (remove_doc_ids (id v) s Hs) in Hv as [_ Hv].
Qed.

Lemma delete_friends_wf (s : Store) (i : string) (u : User) :
  ids_unique s → sym_find s → friends_wf s →
  List.find (has_id i) s = Some u → friends u = [] →
  friends_wf (remove_doc i s).
Proof.
  intros Hs Hsym Hwf Hu Hnil x fx Hx.
  pose proof (friends_of_find _ _ _ Hu) as Fi. rewrite Hnil in Fi.
  assert (x ≠ i) as Hne.
  { intros ->. unfold friends_of in Hx. by rewrite find_remove_doc_eq in Hx. }
  unfold friends_of in Hx. rewrite find_remove_doc_ne in Hx by done.
  destruct (Hwf x fx Hx) as (H1 & H2 & H3). split; [done|]. split; [done|].
  intros f Hf. unfold friends_of. rewrite find_remove_doc_ne; [by apply H3|].
  intros ->. by apply (Hsym _ _ _ _ Hx Fi), elem_of_nil in Hf.
Qed.

Lemma elem_replace_doc (u' d : User) (s : Store) :
  u' ∈ replace_doc d s → u' = d ∨ u' ∈ s.
Proof.
  induction s as [|u r IH]; simpl; [by right|].
  destruct (has_id (id d) u); rewrite !elem_of_cons; [tauto|].
  intros [->|H]; [by right; left|]. destruct (IH H); auto.
Qed.

Lemma elem_calc_store (u' this : User) (s : Store) :
  u' ∈ calc_store this s → u' = scored this s ∨ u' ∈ s.
Proof. unfold calc_store. case_bool_decide; [by right|apply elem_replace_doc]. Qed.

Lemma no_blank_after (s s' : Store) :
  no_blank_hobbies s →
  (∀ u', u' ∈ s' → u' ∈ s ∨ ∃ d, u' = pre_save d) →
  no_blank_hobbies s'.
Proof.
  intros Hnb H. unfold no_blank_hobbies. apply Forall_forall. intros u' Hu'.
  destruct (H u' Hu') as [Hin|[d ->]]; [by apply (no_blank_elem s)|].
  apply pre_save_not_blank.
Qed.

Lemma no_blank_pair (a1 b1 : User) (s : Store) :
  no_blank_hobbies s →
  no_blank_hobbies
    (calc_store (pre_save b1) (calc_store (pre_save a1)
       (replace_doc (pre_save b1) (replace_doc (pre_save a1) s)))).
Proof.
  intros Hnb. apply (no_blank_after s); [done|]. intros u' Hu'.
  apply elem_calc_store in Hu' as [->|Hu']; [right; by eexists|].
  apply elem_calc_store in Hu' as [->|Hu']; [right; by eexists|].
  apply elem_replace_doc in Hu' as [->|Hu']; [right; by eexists|].
  apply elem_replace_doc in Hu' as [->|Hu']; [right; by eexists|by left].
Qed.

Lemma no_blank_edit (u1 : User) (s : Store) :
  no_blank_hobbies s →
  no_blank_hobbies (replace_doc (pre_save u1) s) ∧
  no_blank_hobbies (calc_store (pre_save u1) (replace_doc (pre_save u1) s)).
Proof.
  intros Hnb. split; apply (no_blank_after s); try done; intros u' Hu'.
  - apply elem_replace_doc in Hu' as [->|Hu']; [right; by eexists|by left].
  - apply elem_calc_store in Hu' as [->|Hu']; [right; by eexists|].
    apply elem_replace_doc in Hu' as [->|Hu']; [right; by eexists|by left].
Qed.

Lemma consistent_intro (s : Store) :
  ids_unique s → symmetric s → friends_wf s → consistent s.
Proof.
  intros Hs Hsym Hwf. apply (consistent_friends_wf s Hs) in Hwf as (H1 & H2 & H3).
  by repeat split.
Qed.

(** The invariants under which the theorems on scores, edges and
    statistics are stated hold in every state the operations reach: a completed
    operation takes a consistent collection without blank hobbies to
    another one (the identifier of a creation being unused). *)
Theorem invariants_preserved (s s' : Store) (op : Op) (r : unit) :
  consistent s → no_blank_hobbies s → op_fresh s op →
  run op s = (inr r, s') →
  consistent s' ∧ no_blank_hobbies s'.
Proof.
  intros Hc Hnb Hfresh Hrun.
  pose proof Hc as (Hs & Hsets & Hex & Hirr & Hsym).
  assert (friends_wf s) as Hwf by (by apply consistent_friends_wf).
  pose proof Hsym as Hsf. apply symmetric_sym_find in Hsf; [|done].
  destruct op as [newId now d|i d|i|a b|a b|i h]; cbv [run] in Hrun.
  - apply run_forget in Hrun as [u Hrun].
    apply createUser_success in Hrun as (-> & -> & _).
    destruct Hfresh as [H1 H2].
    destruct (create_symmetric s (pre_save (new_User newId now d))) as [U S]; try done.
    split.
    + apply consistent_intro; [done..|]. by apply create_friends_wf.
    + apply (no_blank_after s); [done|]. intros u' [Hu'|Hu'%list_elem_of_singleton]%elem_of_app;
        [by left|right; by eexists].
  - apply run_forget in Hrun as [u Hrun].
    apply update_success in Hrun as [[_ ->]|(u0 & Hu & ->)]; [done|].
    apply find_id_self in Hu.
    destruct (same_friends_symmetric s (update_store u0 d s)) as [U S]; try done.
    { unfold update_store. destruct (up_hobbies d);
        by rewrite ?ids_calc_store, ?ids_replace_doc. }
    { intros x. by apply update_store_friends. }
    split.
    + apply consistent_intro; [done..|]. apply (friends_wf_same s); [|done].
      intros x. by apply update_store_friends.
    + unfold update_store.
      destruct (no_blank_edit (Object_assign u0 d) s Hnb). by destruct (up_hobbies d).
  - apply run_forget in Hrun as [u Hrun].
    apply delete_success in Hrun as [[_ ->]|(u0 & Hu & Hnil & ->)]; [done|].
    destruct (delete_symmetric i s) as [U S]; try done. split.
    + apply consistent_intro; [done..|]. by apply (delete_friends_wf s i u0).
    + apply (no_blank_after s); [done|]. intros u' Hu'. left.
      by apply (remove_doc_ids i s Hs) in Hu' as [? _].
  - apply link_success in Hrun as (ua & ub & Ha & Hb & Hab & Hnin & ->).
    pose proof (find_has_id _ _ _ Ha) as [_ Ea].
    pose proof (find_has_id _ _ _ Hb) as [_ Eb].
    apply find_id_self in Ha, Hb.
    destruct (link_symmetric ua ub s) as [U S]; try done; [congruence|]. split.
    + apply consistent_intro; [done..|].
      apply link_friends_wf; try done; congruence.
    + apply no_blank_pair. done.
  - apply unlink_success in Hrun as (ua & ub & Ha & Hb & _ & ->).
    apply find_id_self in Ha, Hb.
    destruct (unlink_symmetric ua ub s) as [U S]; try done. split.
    + apply consistent_intro; [done..|]. by apply unlink_friends_wf.
    + apply no_blank_pair. done.
  - apply run_forget in Hrun as [u Hrun].
    apply removeHobby_success in Hrun as [[_ ->]|(u0 & Hu & _ & ->)]; [done|].
    apply find_id_self in Hu.
    destruct (same_friends_symmetric s (removeHobby_store u0 h s)) as [U S]; try done.
    { unfold removeHobby_store. by rewrite ?ids_calc_store, ?ids_replace_doc. }
    { intros x. by apply removeHobby_store_friends. }
    split.
    + apply consistent_intro; [done..|]. apply (friends_wf_same s); [|done].
      intros x. by apply removeHobby_store_friends.
    + unfold removeHobby_store.
      by destruct (no_blank_edit (set_hobbies u0 (filter (λ x, x ≠ h) (hobbies u0))) s Hnb).
Qed.

(** X2. Every state of the collection that is reached from the empty
    collection by completed operations of the service, where each creation
    gets an identifier that is not in use, satisfies the invariants of the
    data model (unique identifiers; lists of friends without repetition
    that name stored users other than the owner; symmetry) and stores no
    blank hobby. *)
Lemma reachable_consistent (s : Store) :
  reachable s → consistent s ∧ no_blank_hobbies s.
Proof.
  induction 1 as [|s op r s' _ [Hc Hnb] Hfresh Hrun].
  - split; by_computation.
  - by apply (invariants_preserved s s' op r).
Qed.

(** ** The theorems at work on the example collections *)

Lemma ex_linked_eq : ex_linked = [ex_A_linked; ex_B_linked; ex_C_linked].
Proof. vm_compute. reflexivity. Qed.

(** Linking A and B a second time. *)
Lemma failed_link_unlink_changes_nothing_witness :
  addFriendship "A" "B" ex_linked = (inl E_already_friends, ex_linked) ∧
  E_already_friends ∈ link_errors ∧ ex_linked = ex_linked.
Proof.
  assert (addFriendship "A" "B" ex_linked = (inl E_already_friends, ex_linked)) as H
    by (vm_compute; reflexivity).
  split; [exact H|].
  apply (failed_link_unlink_changes_nothing ex_linked ex_linked "A" "B"). by left.
Defined.

(** Deleting A with its two friends, and without. *)
Lemma delete_guard_witness :
  deleteUser "A" ex_linked = (inl E_has_friends, ex_linked) ∧
  ∃ s', deleteUser "A" ex_unlinked = (inr true, s') ∧ S (length s') = length ex_unlinked ∧
        ∀ v, v ∈ s' ↔ v ∈ ex_unlinked ∧ id v ≠ "A".
Proof.
  split.
  - apply (delete_guard ex_linked "A" ex_A_linked).
    + unfold ids_unique. by_computation.
    + vm_compute. reflexivity.
    + discriminate.
  - apply (delete_guard ex_unlinked "A" ex_A).
    + unfold ids_unique. by_computation.
    + vm_compute. reflexivity.
    + reflexivity.
Defined.

(** A second bob, and alice renamed to bob. *)
Lemma duplicate_name_rejected_witness :
  createUser "D" 0 (mkInput "bob" 41 ["chess"]) ex_unlinked = (inl E_username_exists, ex_unlinked) ∧
  updateUser "A" (mkUpdate (Some "bob") None None) ex_unlinked = (inl E_username_exists, ex_unlinked).
Proof.
  destruct (duplicate_name_rejected ex_unlinked) as (H1 & _ & H3). split.
  - apply (H1 _ _ _ ex_B); [by_computation|reflexivity].
  - apply (H3 "A" _ "bob" ex_A ex_B); try (reflexivity || discriminate). by_computation.
Defined.

(** A linked to itself, and an unknown identifier linked to itself. *)
Lemma self_link_rejected_witness :
  addFriendship "A" "A" ex_unlinked = (inl E_self_friend, ex_unlinked) ∧
  addFriendship "Z" "Z" ex_unlinked = (inl E_user_not_found, ex_unlinked).
Proof.
  split.
  - apply (self_link_rejected ex_unlinked "A"). by_computation.
  - apply (self_link_rejected ex_unlinked "Z"). by_computation.
Defined.

(** Two friendships among A, B and C. *)
Lemma stats_totalFriendships_witness :
  ∃ st, getUserStats ex_linked = (inr st, ex_linked) ∧
        totalUsers st = 3%nat ∧ totalFriendships st = 2%Q.
Proof.
  destruct (stats_totalFriendships ex_linked) as (st & H1 & H2 & H3 & _).
  - by_computation.
  - exists st. split; [exact H1|]. split; [exact H2|]. rewrite H3. reflexivity.
Defined.

(** The second link of the example. *)
Lemma symmetry_preserved_witness :
  ids_unique ex_linked ∧ symmetric ex_linked.
Proof.
  apply (symmetry_preserved (snd (addFriendship "A" "B" ex_unlinked)) ex_linked
           (OpLink "A" "C") tt).
  - unfold ids_unique. by_computation.
  - unfold symmetric. by_computation.
  - exact I.
  - vm_compute. reflexivity.
Defined.

(** Two calls with the same draws. *)
Lemma projection_up_to_jitter_witness :
  ∃ g, getGraphData (λ _, 0%R) ex_linked = (inr g, ex_linked).
Proof.
  destruct (projection_up_to_jitter (λ _, 0%R) (λ _, 0%R) ex_linked)
    as (g1 & g2 & H1 & H2 & _ & _ & H5 & _).
  exists g2. rewrite <- (H5 (λ k _, eq_refl)). exact H1.
Defined.

Lemma ex_linked_scores : ∀ u, u ∈ ex_linked → score_ok ex_linked u.
Proof.
  rewrite ex_linked_eq. intros u Hu.
  repeat (apply elem_of_cons in Hu as [->|Hu]); [vm_compute; reflexivity..|].
  by apply elem_of_nil in Hu.
Qed.

(** A after its friendship with B is removed: it keeps C and is rescored. *)
Lemma scores_after_mutation_witness :
  score_ok ex_after_unlink (mkUser "A" "alice" 25 ["coding"; "gaming"] ["C"] 0 (3 # 2)) ∨
  stale ex_linked (OpUnlink "A" "B") (mkUser "A" "alice" 25 ["coding"; "gaming"] ["C"] 0 (3 # 2)).
Proof.
  apply (scores_after_mutation ex_linked ex_after_unlink (OpUnlink "A" "B") tt).
  - by_computation.
  - by_computation.
  - apply ex_linked_scores.
  - vm_compute. reflexivity.
  - by_computation.
Defined.

(** C1 as stated fails: A adds a hobby that B has; the update completes,
    A is rescored, and B's stored score stays 3/2 while the formula on the
    new collection gives 2. *)
Lemma friend_score_left_stale :
  consistent ex_pair ∧ Forall (score_ok ex_pair) ex_pair ∧
  run (OpUpdate "A" (mkUpdate None None (Some ["coding"; "gaming"]))) ex_pair
    = (inr tt, ex_pair_updated) ∧
  ex_pair_B ∈ ex_pair_updated ∧
  popularityScore ex_pair_B = (3 # 2)%Q ∧
  score_formula ex_pair_updated ex_pair_B = 2%Q ∧
  ¬ score_ok ex_pair_updated ex_pair_B.
Proof.
  split; [by_computation|]. split.
  { repeat constructor; vm_compute; reflexivity. }
  split; [vm_compute; reflexivity|].
  split; [by_computation|]. split; [reflexivity|].
  split; [vm_compute; reflexivity|].
  unfold score_ok. vm_compute. discriminate.
Qed.

(** The early return of [calculatePopularityScore]: when the last
    friendship of a user is removed the stored score is not reset. *)
Lemma last_unlink_keeps_score :
  removeFriendship "A" "B" ex_pair = (inr tt, ex_pair_unlinked) ∧
  Forall (λ u, friends u = [] ∧ score_formula ex_pair_unlinked u = 0%Q ∧
               popularityScore u = (3 # 2)%Q) ex_pair_unlinked.
Proof.
  split; [vm_compute; reflexivity|].
  repeat constructor; vm_compute; reflexivity.
Qed.

(** * More properties of the code *)

(** ** Valid documents *)

Lemma prefix_nil (s : string) : String.prefix "" s = true.
Proof. by destruct s. Qed.

Lemma is_space_starts (c : ascii) (r : string) :
  Ascii.is_space c = true → starts_with_space (String c r) = true.
Proof.
  intros H.
  destruct c as [[] [] [] [] [] [] [] []]; try discriminate H;
    unfold starts_with_space, js_white_space, bytes; simpl; by rewrite prefix_nil.
Qed.

Lemma valid_hobby_not_blank (h : string) : valid_hobby h → not_blank h.
Proof.
  intros [[Hs _] [Hlen _]]. unfold not_blank.
  destruct h as [|c r]; [vm_compute in Hlen; lia|].
  simpl. destruct (Ascii.is_space c) eqn:E; [|done].
  by rewrite is_space_starts in Hs.
Qed.

Lemma valid_hobbies_pre_save (hs : list string) :
  Forall valid_hobby hs → Forall valid_hobby (JSSet.new_Set (filter not_blank hs)).
Proof.
  rewrite !Forall_forall. intros H h Hh.
  apply new_Set_elem, list_elem_of_filter in Hh as [_ Hh]. by apply H.
Qed.

Lemma code_score_nonneg (this : User) (s : Store) : (0 <= code_score this s)%Q.
Proof.
  unfold code_score.
  rewrite (round2_compat _ (inject_Z (Z.of_nat (length (friends this)))
    + (1 # 2) * inject_Z (Z.of_nat (sum_list_with
        (λ v, length (sharedHobbies (JSSet.new_Set (hobbies this))
                                    (JSSet.new_Set (hobbies v))))
        (filter (λ u, id u ∈ friends this) s))))).
  - rewrite round2_halves.
    apply Qle_trans with (inject_Z (Z.of_nat (length (friends this))) + 0)%Q.
    + rewrite Qplus_0_r. change 0%Q with (inject_Z 0). rewrite <- Zle_Qle. lia.
    + apply Qplus_le_r. apply Qmult_le_0_compat; [done|].
      change 0%Q with (inject_Z 0). rewrite <- Zle_Qle. lia.
  - rewrite foldl_add_shared. ring.
Qed.

Lemma valid_pre_save (d : User) : valid_user d → valid_user (pre_save d).
Proof.
  intros (? & ? & ? & ? & ?). split_and!; try done. by apply valid_hobbies_pre_save.
Qed.

Lemma valid_scored (this : User) (s : Store) : valid_user this → valid_user (scored this s).
Proof.
  intros (? & ? & ? & ? & ?). apply valid_pre_save.
  split_and!; try done. apply code_score_nonneg.
Qed.

Lemma valid_replace_doc (d : User) (s : Store) :
  valid_store s → valid_user d → valid_store (replace_doc d s).
Proof.
  unfold valid_store. rewrite !Forall_forall. intros Hs Hd u Hu.
  apply elem_replace_doc in Hu as [->|Hu]; auto.
Qed.

Lemma valid_calc_store (this : User) (s : Store) :
  valid_store s → valid_user this → valid_store (calc_store this s).
Proof.
  unfold valid_store. rewrite !Forall_forall. intros Hs Hd u Hu.
  apply elem_calc_store in Hu as [->|Hu]; auto. by apply valid_scored.
Qed.

Lemma valid_find (s : Store) (x : string) (u : User) :
  valid_store s → List.find (has_id x) s = Some u → valid_user u.
Proof.
  unfold valid_store. rewrite Forall_forall. intros Hs Hu.
  apply find_has_id in Hu as [Hu _]. by apply Hs.
Qed.

(** The documents of a collection stay valid: what an operation with valid
    input stores passes the validators of the schema again. *)
Lemma valid_store_preserved (s s' : Store) (op : Op) (r : unit) :
  valid_store s → valid_op op → run op s = (inr r, s') → valid_store s'.
Proof.
  intros Hs Hop Hrun.
  destruct op as [newId now d|i d|i|a b|a b|i h]; cbv [run] in Hrun.
  - apply run_forget in Hrun as [u Hrun].
    apply createUser_success in Hrun as (-> & -> & _).
    apply Forall_app. split; [done|]. apply Forall_singleton, valid_pre_save.
    destruct Hop as (? & ? & ?). split_and!; try done. by intros ?%elem_of_nil.
  - apply run_forget in Hrun as [o Hrun].
    apply update_success in Hrun as [[_ ->]|(u & Hu & ->)]; [done|].
    pose proof (valid_find _ _ _ Hs Hu) as (Hn & Ha & Hh & Hf & Hq).
    assert (valid_user (pre_save (Object_assign u d))) as Hv1.
    { apply valid_pre_save. destruct Hop as (Hdn & Hda & Hdh).
      unfold Object_assign.
      destruct (up_username d), (up_age d), (up_hobbies d); by split_and!. }
    unfold update_store. destruct (up_hobbies d).
    + by apply valid_calc_store; [apply valid_replace_doc|].
    + by apply valid_replace_doc.
  - apply run_forget in Hrun as [o Hrun].
    apply delete_success in Hrun as [[_ ->]|(u & Hu & _ & ->)]; [done|].
    unfold valid_store in *. rewrite Forall_forall in Hs |- *. intros v Hv.
    apply Hs. eapply elem_of_sublist; [exact Hv|apply remove_doc_sublist].
  - apply link_success in Hrun as (ua & ub & Ha & Hb & Hab & Hin & ->).
    pose proof (valid_find _ _ _ Hs Ha) as (? & ? & ? & Hfa & ?).
    pose proof (valid_find _ _ _ Hs Hb) as (? & ? & ? & Hfb & ?).
    pose proof (find_has_id _ _ _ Ha) as [_ Ea].
    pose proof (find_has_id _ _ _ Hb) as [_ Eb].
    assert (valid_user (pre_save (set_friends ua (friends ua ++ [id ub])))) as Hv1.
    { apply valid_pre_save. split_and!; try done. simpl.
      rewrite elem_of_app, list_elem_of_singleton. intros [?|?]; [done|congruence]. }
    assert (valid_user (pre_save (set_friends ub (friends ub ++ [id ua])))) as Hv2.
    { apply valid_pre_save. split_and!; try done. simpl.
      rewrite elem_of_app, list_elem_of_singleton. intros [?|?]; [done|congruence]. }
    unfold link_store. by repeat first [apply valid_calc_store | apply valid_replace_doc].
  - apply unlink_success in Hrun as (ua & ub & Ha & Hb & Hin & ->).
    pose proof (valid_find _ _ _ Hs Ha) as (? & ? & ? & Hfa & ?).
    pose proof (valid_find _ _ _ Hs Hb) as (? & ? & ? & Hfb & ?).
    assert (valid_user (pre_save (set_friends ua (filter (λ i, i ≠ id ub) (friends ua))))) as Hv1.
    { apply valid_pre_save. split_and!; try done. simpl.
      by intros [_ ?]%list_elem_of_filter. }
    assert (valid_user (pre_save (set_friends ub (filter (λ i, i ≠ id ua) (friends ub))))) as Hv2.
    { apply valid_pre_save. split_and!; try done. simpl.
      by intros [_ ?]%list_elem_of_filter. }
    unfold unlink_store. by repeat first [apply valid_calc_store | apply valid_replace_doc].
  - apply run_forget in Hrun as [o Hrun].
    apply removeHobby_success in Hrun as [[_ ->]|(u & Hu & _ & ->)]; [done|].
    pose proof (valid_find _ _ _ Hs Hu) as (? & ? & Hh & ? & ?).
    assert (valid_user (pre_save (set_hobbies u (filter (λ x, x ≠ h) (hobbies u))))) as Hv1.
    { apply valid_pre_save. split_and!; try done. simpl.
      rewrite Forall_forall in Hh |- *. intros x [_ Hx]%list_elem_of_filter. by apply Hh. }
    unfold removeHobby_store. by apply valid_calc_store; [apply valid_replace_doc|].
Qed.

(** ** The service in closed form *)

Lemma createUser_eq (newId : string) (now : Z) (d : IUserInput) (s : Store) :
  createUser newId now d s =
  match List.find (λ u, bool_decide (username u = in_username d)) s with
  | Some _ => (inl E_username_exists, s)
  | None => (inr (pre_save (new_User newId now d)), s ++ [pre_save (new_User newId now d)])
  end.
Proof.
  unfold createUser, try_catch, bind, findOne_username.
  destruct (List.find _ s); [reflexivity|].
  unfold save_new. rewrite calc_eq. reflexivity.
Qed.

Lemma updateUser_eq (i : string) (d : IUserUpdate) (s : Store) :
  updateUser i d s =
  match List.find (has_id i) s with
  | None => (inr None, s)
  | Some user =>
    if name_taken i user d s then (inl E_username_exists, s)
    else
      let u1 := pre_save (Object_assign user d) in
      match up_hobbies d with
      | Some _ => (inr (Some (calc_doc u1 (replace_doc u1 s))), update_store user d s)
      | None => (inr (Some u1), update_store user d s)
      end
  end.
Proof.
  unfold updateUser, try_catch, bind, findOne_id, name_taken, update_store.
  destruct (List.find (has_id i) s) as [u|] eqn:Hu; [|reflexivity].
  destruct (up_username d) as [n|]; simpl.
  - destruct (truthy n && negb (bool_decide (n = username u))); simpl.
    + unfold findOne_username_ne.
      destruct (List.find (λ w, bool_decide (username w = n) && negb (has_id i w)) s)
        eqn:E; simpl.
      * reflexivity.
      * destruct (up_hobbies d); [rewrite calc_eq|]; reflexivity.
    + destruct (up_hobbies d); [rewrite calc_eq|]; reflexivity.
  - destruct (up_hobbies d); [rewrite calc_eq|]; reflexivity.
Qed.

Lemma deleteUser_eq (i : string) (s : Store) :
  deleteUser i s =
  match List.find (has_id i) s with
  | None => (inr false, s)
  | Some u =>
    if bool_decide (length (friends u) = 0%nat) then (inr true, remove_doc i s)
    else (inl E_has_friends, s)
  end.
Proof.
  unfold deleteUser, try_catch, bind, findOne_id, canDeleteUser, bind, findOne_id.
  destruct (List.find (has_id i) s) as [u|] eqn:Hu; [|reflexivity].
  simpl. rewrite Hu. simpl. by case_bool_decide.
Qed.

Lemma removeHobby_eq (i h : string) (s : Store) :
  removeHobby i h s =
  match List.find (has_id i) s with
  | None => (inr None, s)
  | Some u =>
    if bool_decide (h ∈ hobbies u) then
      let u1 := pre_save (set_hobbies u (filter (λ x, x ≠ h) (hobbies u))) in
      (inr (Some (calc_doc u1 (replace_doc u1 s))), removeHobby_store u h s)
    else (inl E_hobby_not_found, s)
  end.
Proof.
  unfold removeHobby, try_catch, bind, findOne_id, removeHobby_store.
  destruct (List.find (has_id i) s) as [u|] eqn:Hu; [|reflexivity].
  case_bool_decide; simpl; [|reflexivity]. rewrite calc_eq. reflexivity.
Qed.

Lemma forget_eq {A} (m : M A) (s : Store) :
  forget m s = (match fst (m s) with inl e => inl e | inr _ => inr tt end, snd (m s)).
Proof. unfold forget, bind. by destruct (m s) as [[e|a] s1]. Qed.

(** X1. On a collection of documents the schema accepts, an operation of
    the service whose input the schema accepts (and, for a creation, whose
    identifier is not in use) and that fails has changed nothing: the
    collection it leaves behind is the one it started from, and the error
    is one of the eight messages the service and the model throw on
    purpose.  This holds for every operation (create, update, delete,
    link, unlink, hobby removal).  The three hypotheses are what lets every
    [save] of the operation pass the validators and the unique index; on
    other input the code fails in [save] with an error of the database
    layer, which the model does not have. *)
Theorem failed_run_changes_nothing (s s' : Store) (op : Op) (e : Err) :
  valid_store s → valid_op op → op_fresh s op →
  run op s = (inl e, s') → s' = s ∧ e ∈ business_errors.
Proof.
  intros _ _ _. unfold business_errors.
  destruct op as [newId now d|i d|i|a b|a b|i h]; cbv [run]; rewrite ?forget_eq.
  - rewrite createUser_eq. destruct (List.find _ s); simpl; intros [= <- <-].
    split; [done|set_solver].
  - rewrite updateUser_eq. destruct (List.find _ s) as [u|]; [|done].
    destruct (name_taken i u d s); simpl.
    + intros [= <- <-]. split; [done|set_solver].
    + by destruct (up_hobbies d).
  - rewrite deleteUser_eq. destruct (List.find _ s) as [u|]; [|done].
    case_bool_decide; simpl; [done|]. intros [= <- <-]. split; [done|set_solver].
  - rewrite addFriendship_eq. destruct (List.find (has_id a) s) as [ua|].
    + case_bool_decide; [intros [= <- <-]; split; [done|set_solver]|].
      rewrite addFriend_eq.
      repeat case_bool_decide; try (intros [= <- <-]; split; [done|set_solver]).
      destruct (List.find (has_id b) s); [done|].
      intros [= <- <-]; split; [done|set_solver].
    + intros [= <- <-]; split; [done|set_solver].
  - rewrite removeFriendship_eq. destruct (List.find (has_id a) s) as [ua|].
    + rewrite removeFriend_eq. case_bool_decide.
      * destruct (List.find (has_id b) s); [done|].
        intros [= <- <-]; split; [done|set_solver].
      * intros [= <- <-]; split; [done|set_solver].
    + intros [= <- <-]; split; [done|set_solver].
  - rewrite removeHobby_eq. destruct (List.find _ s) as [u|]; [|done].
    case_bool_decide; simpl; [done|]. intros [= <- <-]. split; [done|set_solver].
Qed.

(** ** Links and unlinks, one after the other *)

Lemma friends_of_find_inv (s : Store) (x : string) (fx : list string) :
  friends_of s x = Some fx → ∃ u, List.find (has_id x) s = Some u ∧ friends u = fx.
Proof.
  unfold friends_of. destruct (List.find (has_id x) s) as [u|]; [|done].
  intros [= <-]. eauto.
Qed.

Lemma link_store_find_other (ua ub : User) (s : Store) (x : string) :
  x ≠ id ua → x ≠ id ub →
  List.find (has_id x) (link_store ua ub s) = List.find (has_id x) s.
Proof.
  intros Ha Hb. unfold link_store.
  rewrite !find_calc_store_ne, !find_replace_doc_ne by done. done.
Qed.

Lemma unlink_store_find_other (ua ub : User) (s : Store) (x : string) :
  x ≠ id ua → x ≠ id ub →
  List.find (has_id x) (unlink_store ua ub s) = List.find (has_id x) s.
Proof.
  intros Ha Hb. unfold unlink_store.
  rewrite !find_calc_store_ne, !find_replace_doc_ne by done. done.
Qed.

(** X3. After [addFriendship a b] has completed, linking the same two
    users again fails with 'Users are already friends', in either
    direction, and leaves the collection as the first call left it. *)
Theorem link_twice_rejected (s s1 : Store) (a b : string) (r : unit) :
  addFriendship a b s = (inr r, s1) →
  addFriendship a b s1 = (inl E_already_friends, s1) ∧
  addFriendship b a s1 = (inl E_already_friends, s1).
Proof.
  intros (ua & ub & Ha & Hb & Hab & Hnin & ->)%link_success.
  pose proof (find_has_id _ _ _ Ha) as [_ Ea].
  pose proof (find_has_id _ _ _ Hb) as [_ Eb].
  apply find_id_self in Ha, Hb.
  assert (id ua ≠ id ub) as Hne by congruence.
  pose proof (link_store_friends ua ub s (id ua) Ha Hb Hne) as Fa.
  pose proof (link_store_friends ua ub s (id ub) Ha Hb Hne) as Fb.
  rewrite bool_decide_eq_false_2, bool_decide_eq_true_2 in Fa by done.
  rewrite bool_decide_eq_true_2 in Fb by done.
  apply friends_of_find_inv in Fa as (a' & Fa & Hfa).
  apply friends_of_find_inv in Fb as (b' & Fb & Hfb).
  subst a b. rewrite !addFriendship_eq, Fa, Fb, !addFriend_eq, Hfa, Hfb.
  rewrite (bool_decide_eq_false_2 (id ua = id ub)) by done.
  rewrite (bool_decide_eq_false_2 (id ub = id ua)) by congruence.
  split; rewrite bool_decide_eq_true_2; try done;
    apply elem_of_app; right; apply list_elem_of_here.
Qed.

(** X4. After [removeFriendship a b] has completed, unlinking the same two
    users again fails with 'Users are not friends', in either direction,
    and leaves the collection as the first call left it. *)
Theorem unlink_twice_rejected (s s1 : Store) (a b : string) (r : unit) :
  removeFriendship a b s = (inr r, s1) →
  removeFriendship a b s1 = (inl E_not_friends, s1) ∧
  removeFriendship b a s1 = (inl E_not_friends, s1).
Proof.
  intros (ua & ub & Ha & Hb & Hin & ->)%unlink_success.
  pose proof (find_has_id _ _ _ Ha) as [_ Ea].
  pose proof (find_has_id _ _ _ Hb) as [_ Eb].
  apply find_id_self in Ha, Hb.
  pose proof (unlink_store_friends ua ub s (id ua) Ha Hb) as Fa.
  pose proof (unlink_store_friends ua ub s (id ub) Ha Hb) as Fb.
  rewrite bool_decide_eq_true_2 in Fb by done.
  apply friends_of_find_inv in Fb as (b' & Fb & Hfb).
  assert (∃ a', List.find (has_id (id ua)) (unlink_store ua ub s) = Some a' ∧
                id ub ∉ friends a') as (a' & Fa' & Hfa).
  { case_bool_decide as E.
    - apply friends_of_find_inv in Fa as (a' & Fa & Hfa). exists a'. split; [done|].
      rewrite Hfa, list_elem_of_filter, <- E. tauto.
    - rewrite bool_decide_eq_true_2 in Fa by done.
      apply friends_of_find_inv in Fa as (a' & Fa & Hfa). exists a'. split; [done|].
      rewrite Hfa, list_elem_of_filter. tauto. }
  subst a b. rewrite !removeFriendship_eq, Fa', Fb, !removeFriend_eq.
  split; rewrite bool_decide_eq_false_2; try done.
  rewrite Hfb, list_elem_of_filter. tauto.
Qed.

(** X5. On a collection with unique identifiers and symmetric friendships,
    a completed link followed by the unlink of the same pair completes and
    gives back every user's list of friends; the records of all other
    users are the ones they were (the two users may be rescored). *)
Theorem link_then_unlink_restores_friends (s s1 : Store) (a b : string) (r : unit) :
  ids_unique s → symmetric s →
  addFriendship a b s = (inr r, s1) →
  ∃ s2, removeFriendship a b s1 = (inr tt, s2) ∧
        (∀ x, friends_of s2 x = friends_of s x) ∧
        (∀ x, x ≠ a → x ≠ b → List.find (has_id x) s2 = List.find (has_id x) s).
Proof.
  intros Hs Hsym (ua & ub & Ha & Hb & Hab & Hnin & ->)%link_success.
  apply symmetric_sym_find in Hsym; [|done].
  pose proof (find_has_id _ _ _ Ha) as [_ Ea].
  pose proof (find_has_id _ _ _ Hb) as [_ Eb].
  apply find_id_self in Ha, Hb.
  assert (id ua ≠ id ub) as Hne by congruence.
  pose proof (friends_of_find _ _ _ Ha) as Fa0.
  pose proof (friends_of_find _ _ _ Hb) as Fb0.
  assert (id ua ∉ friends ub) as Hnin'.
  { intros H. apply Hnin. rewrite <- Eb. by apply (Hsym _ _ _ _ Fb0 Fa0). }
  pose proof (link_store_friends ua ub s (id ua) Ha Hb Hne) as Fa.
  pose proof (link_store_friends ua ub s (id ub) Ha Hb Hne) as Fb.
  rewrite bool_decide_eq_false_2, bool_decide_eq_true_2 in Fa by done.
  rewrite bool_decide_eq_true_2 in Fb by done.
  apply friends_of_find_inv in Fa as (a' & Fa & Hfa).
  apply friends_of_find_inv in Fb as (b' & Fb & Hfb).
  pose proof (find_has_id _ _ _ Fa) as [_ Ea'].
  pose proof (find_has_id _ _ _ Fb) as [_ Eb'].
  subst a b. exists (unlink_store a' b' (link_store ua ub s)).
  rewrite removeFriendship_eq, Fa, removeFriend_eq.
  rewrite bool_decide_eq_true_2
    by (rewrite Hfa; apply elem_of_app; right; apply list_elem_of_here).
  rewrite Fb. split; [unfold unlink_store; by rewrite Eb'|].
  pose proof Fa as Fa'. pose proof Fb as Fb'.
  rewrite <- Ea' in Fa'. rewrite <- Eb' in Fb'. split.
  - intros x. rewrite unlink_store_friends by done. rewrite Ea', Eb', Hfa, Hfb.
    rewrite !filter_app, !filter_cons, !filter_nil.
    rewrite !decide_False by (by intros H; apply H).
    rewrite !app_nil_r.
    assert (∀ (l : list string) (y : string), y ∉ l → filter (λ i, i ≠ y) l = l) as Hfil.
    { intros l y Hy. induction l as [|z l IH]; [done|].
      apply not_elem_of_cons in Hy as [Hz Hy].
      rewrite filter_cons, decide_True by done. by rewrite IH. }
    rewrite !Hfil by done.
    rewrite (link_store_friends ua ub s x Ha Hb Hne).
    repeat case_bool_decide; subst; done.
  - intros x Hxa Hxb. rewrite unlink_store_find_other by congruence.
    by apply link_store_find_other.
Qed.

Lemma ids_unlink_store (ua ub : User) (s : Store) :
  id <$> unlink_store ua ub s = id <$> s.
Proof. unfold unlink_store. by rewrite !ids_calc_store, !ids_replace_doc. Qed.

Lemma find_is_Some_ids (s : Store) (x : string) :
  is_Some (List.find (has_id x) s) ↔ x ∈ id <$> s.
Proof.
  split; [|apply find_has_id_Some].
  intros [u Hu]. apply find_has_id in Hu as [Hu <-]. by apply list_elem_of_fmap_2.
Qed.

Lemma filter_ne_not_in (l : list string) (y : string) :
  y ∉ l → filter (λ i, i ≠ y) l = l.
Proof.
  intros Hy. induction l as [|z l IH]; [done|].
  apply not_elem_of_cons in Hy as [Hz Hy].
  rewrite filter_cons, decide_True by done. by rewrite IH.
Qed.

Lemma ids_remove_doc_ext (i : string) (s1 s2 : Store) :
  id <$> s1 = id <$> s2 → id <$> remove_doc i s1 = id <$> remove_doc i s2.
Proof.
  revert s2. induction s1 as [|u r IH]; intros [|v t] E; try done.
  injection E as Ei Er. simpl. unfold has_id. rewrite Ei.
  case_bool_decide; [done|]. rewrite !fmap_cons, Ei. f_equal. by apply IH.
Qed.

Lemma unlink_each_then_delete (a : string) (fs : list string) (s : Store) (u : User) :
  List.find (has_id a) s = Some u → friends u = fs → NoDup fs → a ∉ fs →
  (∀ f, f ∈ fs → f ∈ id <$> s) →
  ∃ s', (let* _ := sequence_ (removeFriendship a <$> fs) in deleteUser a) s
        = (inr true, s') ∧ id <$> s' = id <$> remove_doc a s.
Proof.
  revert s u. induction fs as [|f fs IH]; intros s u Hu Hf Hnd Ha Hex.
  - exists (remove_doc a s). unfold bind. simpl. rewrite deleteUser_eq, Hu, Hf. done.
  - apply NoDup_cons in Hnd as [Hfin Hnd]. apply not_elem_of_cons in Ha as [Haf Ha].
    destruct (find_has_id_Some f s) as [uf Huf]; [apply Hex, list_elem_of_here|].
    pose proof (find_has_id _ _ _ Hu) as [_ Eu].
    pose proof (find_has_id _ _ _ Huf) as [_ Euf].
    pose proof (find_id_self _ _ _ Hu) as Hu'.
    pose proof (find_id_self _ _ _ Huf) as Huf'.
    pose proof (unlink_store_friends u uf s a Hu' Huf') as Fa.
    rewrite bool_decide_eq_false_2, bool_decide_eq_true_2 in Fa by congruence.
    apply friends_of_find_inv in Fa as (u1 & Hu1 & Hf1).
    rewrite Euf, Hf, filter_cons, decide_False, filter_ne_not_in in Hf1
      by (done || (by intros H; apply H)).
    destruct (IH (unlink_store u uf s) u1 Hu1 Hf1 Hnd Ha) as (s' & Hrun & Hids).
    { intros g Hg. rewrite ids_unlink_store. apply Hex. by apply list_elem_of_further. }
    exists s'. split.
    + rewrite fmap_cons. cbn [sequence_]. unfold bind at 1 2.
      rewrite removeFriendship_eq, Hu, removeFriend_eq, Hf.
      rewrite bool_decide_eq_true_2 by apply list_elem_of_here. rewrite Huf.
      cbn zeta. rewrite <- Hf. subst a f. exact Hrun.
    + rewrite Hids. apply ids_remove_doc_ext, ids_unlink_store.
Qed.

(** ** Creation, update and hobby removal *)

Lemma getUserById_eq (i : string) (s : Store) :
  getUserById i s = (inr (List.find (has_id i) s), s).
Proof. done. Qed.

(** X6. The way out of the deletion guard: for a stored user whose list of
    friends has no repetition, does not name the user and names stored
    users, removing the friendships one after the other, in the order of
    the list, succeeds each time, and the deletion that follows returns
    [true]; the identifiers left are those of the collection without the
    user. *)
Theorem unlink_all_then_delete (s : Store) (a : string) (u : User) :
  friends_wf s → List.find (has_id a) s = Some u →
  ∃ s', (let* _ := sequence_ (removeFriendship a <$> friends u) in deleteUser a) s
        = (inr true, s') ∧ id <$> s' = id <$> remove_doc a s.
Proof.
  intros Hwf Hu.
  destruct (Hwf a (friends u)) as (Hnd & Ha & Hex); [unfold friends_of; by rewrite Hu|].
  apply (unlink_each_then_delete a (friends u) s u); try done.
  intros f Hf. apply find_is_Some_ids. destruct (Hex f Hf) as [x Hx].
  unfold friends_of in Hx. destruct (List.find (has_id f) s); [eauto|done].
Qed.

(** X7. A creation that completes, with input the schema accepts (name
    and hobbies trimmed and of the lengths allowed, age from 13 to 120) and
    an identifier not in use, appends one record and returns it: it has
    the identifier, name and age asked for, no friends, score 0, the time
    stamp of the clock, and as hobbies those of the input without
    repetition, each of them valid.  [getUserById] then finds this record
    under the new identifier and finds the older users as before.  No
    stored user had the name. *)
Theorem createUser_round_trip (s s' : Store) (newId : string) (now : Z)
    (d : IUserInput) (u : User) :
  valid_input d →
  newId ∉ id <$> s →
  createUser newId now d s = (inr u, s') →
  s' = s ++ [u] ∧
  id u = newId ∧ username u = in_username d ∧ age u = in_age d ∧
  friends u = [] ∧ popularityScore u = 0%Q ∧ createdAt u = now ∧
  NoDup (hobbies u) ∧ (∀ h, h ∈ hobbies u ↔ h ∈ in_hobbies d) ∧
  valid_user u ∧
  getUserById newId s' = (inr (Some u), s') ∧
  (∀ x, x ∈ id <$> s → fst (getUserById x s') = fst (getUserById x s)) ∧
  Forall (λ v, username v ≠ in_username d) s.
Proof.
  intros (Hname & Hage & Hhob) Hfresh Hrun. rewrite createUser_eq in Hrun.
  destruct (List.find _ s) eqn:E; [done|].
  injection Hrun as <- <-.
  split_and!; try done.
  - apply new_Set_NoDup.
  - intros h. simpl. rewrite new_Set_elem, list_elem_of_filter.
    split; [tauto|]. intros Hh. split; [|done].
    rewrite Forall_forall in Hhob. by apply valid_hobby_not_blank, Hhob.
  - split_and!; try done; simpl.
    + by apply valid_hobbies_pre_save.
    + by intros ?%elem_of_nil.
  - rewrite getUserById_eq, find_app_new by done. unfold has_id. simpl.
    by rewrite bool_decide_eq_true_2.
  - intros x Hx. rewrite !getUserById_eq. simpl. by rewrite find_app_old.
  - apply Forall_forall. intros v Hv Hn.
    apply list_elem_of_In in Hv.
    eapply find_none in E; [|exact Hv]. simpl in E.
    by rewrite bool_decide_eq_true_2 in E.
Qed.

(** X8. What a completed [updateUser] changes, for an update whose fields
    the schema accepts (name and hobbies trimmed and of the lengths
    allowed, age from 13 to 120).  For an unknown identifier it returns
    [null] and the collection is untouched.  Otherwise the record returned
    is the one now stored under the identifier; identifier, friends and
    time stamp are those of the old record, name and age are the new ones
    where given, the hobbies are the non-blank ones of the new list (or of
    the old one) without repetition, and without new hobbies the score is
    the old one.  No identifier is added or removed, and the records of all
    other users are the ones they were. *)
Theorem updateUser_frame (s s' : Store) (i : string) (d : IUserUpdate) (r : option User) :
  valid_update d →
  updateUser i d s = (inr r, s') →
  match List.find (has_id i) s with
  | None => r = None ∧ s' = s
  | Some u => ∃ u', r = Some u' ∧ List.find (has_id i) s' = Some u' ∧
      id u' = i ∧ friends u' = friends u ∧ createdAt u' = createdAt u ∧
      username u' = default (username u) (up_username d) ∧
      age u' = default (age u) (up_age d) ∧
      NoDup (hobbies u') ∧
      (∀ h, h ∈ hobbies u' ↔ h ∈ default (hobbies u) (up_hobbies d) ∧ not_blank h) ∧
      (up_hobbies d = None → popularityScore u' = popularityScore u)
  end ∧
  id <$> s' = id <$> s ∧
  (∀ x, x ≠ i → List.find (has_id x) s' = List.find (has_id x) s).
Proof.
  intros _ Hrun. rewrite updateUser_eq in Hrun.
  destruct (List.find (has_id i) s) as [u|] eqn:Hu.
  2:{ injection Hrun as <- <-. done. }
  destruct (name_taken i u d s); [done|].
  pose proof (find_has_id _ _ _ Hu) as [_ Ei].
  set (u1 := pre_save (Object_assign u d)) in *.
  assert (id u1 = i) as E1 by (unfold u1; simpl; by rewrite Object_assign_id).
  assert (List.find (has_id (id u1)) (replace_doc u1 s) = Some u1) as F1.
  { apply (find_replace_doc_eq u1 u). by rewrite E1. }
  assert (∀ v, (v = u1 ∨ v = scored u1 (replace_doc u1 s)) →
    id v = i ∧ friends v = friends u ∧ createdAt v = createdAt u ∧
    username v = default (username u) (up_username d) ∧
    age v = default (age u) (up_age d) ∧ NoDup (hobbies v) ∧
    (∀ h, h ∈ hobbies v ↔ h ∈ default (hobbies u) (up_hobbies d) ∧ not_blank h)) as Hv.
  { intros v Hv. 
    assert (id v = i ∧ friends v = friends u ∧ createdAt v = createdAt u ∧
            username v = username (Object_assign u d) ∧ age v = age (Object_assign u d))
      as (-> & -> & -> & -> & ->).
    { destruct Hv as [-> | ->]; simpl; rewrite Object_assign_id, Object_assign_friends;
      repeat split; try done; unfold Object_assign;
      by destruct (up_username d), (up_age d), (up_hobbies d). }
    split_and!; try done.
    - unfold Object_assign. by destruct (up_username d), (up_age d), (up_hobbies d).
    - unfold Object_assign. by destruct (up_username d), (up_age d), (up_hobbies d).
    - destruct Hv as [-> | ->]; apply new_Set_NoDup.
    - assert (∀ h, h ∈ hobbies u1 ↔ h ∈ default (hobbies u) (up_hobbies d) ∧ not_blank h) as H1.
      { intros h'. unfold u1. simpl. rewrite new_Set_elem, list_elem_of_filter.
        unfold Object_assign. destruct (up_username d), (up_age d), (up_hobbies d); simpl; tauto. }
      intros h. destruct Hv as [-> | ->]; [apply H1|].
      simpl. rewrite new_Set_elem, list_elem_of_filter.
      change (JSSet.new_Set (filter not_blank (hobbies (Object_assign u d)))) with (hobbies u1).
      rewrite H1. tauto. }
  unfold update_store in Hrun. fold u1 in Hrun.
  destruct (up_hobbies d) as [l|] eqn:Eh; injection Hrun as <- <-.
  - split_and!.
    + exists (calc_doc u1 (replace_doc u1 s)). split; [done|].
      split; [rewrite <- E1; by apply find_calc_store_eq|].
      assert (calc_doc u1 (replace_doc u1 s) = u1 ∨
              calc_doc u1 (replace_doc u1 s) = scored u1 (replace_doc u1 s)) as Hc
        by (unfold calc_doc; case_bool_decide; tauto).
      destruct (Hv _ Hc) as (? & ? & ? & ? & ? & ? & ?). by split_and!.
    + by rewrite ids_calc_store, ids_replace_doc.
    + intros x Hx. rewrite find_calc_store_ne, find_replace_doc_ne by congruence. done.
  - split_and!.
    + exists u1. split; [done|]. split; [by rewrite <- E1|].
      destruct (Hv u1) as (? & ? & ? & ? & ? & ? & ?); [by left|].
      split_and!; try done. intros _. unfold u1. simpl. apply Object_assign_score.
    + by rewrite ids_replace_doc.
    + intros x Hx. rewrite find_replace_doc_ne by congruence. done.
Qed.

(** X9. [removeHobby] on a stored user: when the user has the hobby, the
    call completes, the record returned is the one now stored, it no longer
    has the hobby, keeps every other non-blank hobby and nothing else, and
    keeps identifier, name, age and friends; the records of the other users
    are untouched.  When the user does not have the hobby, the call fails
    with 'Hobby not found' and changes nothing. *)
Theorem removeHobby_removes (s : Store) (i h : string) (u : User) :
  List.find (has_id i) s = Some u →
  if bool_decide (h ∈ hobbies u) then
    ∃ u' s', removeHobby i h s = (inr (Some u'), s') ∧
      List.find (has_id i) s' = Some u' ∧
      (h ∉ hobbies u') ∧
      (∀ h', h' ∈ hobbies u' ↔ h' ∈ hobbies u ∧ h' ≠ h ∧ not_blank h') ∧
      id u' = i ∧ username u' = username u ∧ age u' = age u ∧ friends u' = friends u ∧
      id <$> s' = id <$> s ∧
      (∀ x, x ≠ i → List.find (has_id x) s' = List.find (has_id x) s)
  else removeHobby i h s = (inl E_hobby_not_found, s).
Proof.
  intros Hu. rewrite removeHobby_eq, Hu.
  pose proof (find_has_id _ _ _ Hu) as [_ Ei].
  case_bool_decide as Hh.
  2:{ done. }
  set (u1 := pre_save (set_hobbies u (filter (λ x, x ≠ h) (hobbies u)))).
  assert (List.find (has_id (id u1)) (replace_doc u1 s) = Some u1) as F1.
  { apply (find_replace_doc_eq u1 u). simpl. by rewrite Ei. }
  assert (∀ h', h' ∈ hobbies u1 ↔ h' ∈ hobbies u ∧ h' ≠ h ∧ not_blank h') as H1.
  { intros h'. unfold u1. simpl. rewrite new_Set_elem, !list_elem_of_filter. tauto. }
  exists (calc_doc u1 (replace_doc u1 s)), (removeHobby_store u h s).
  split; [done|]. unfold removeHobby_store. fold u1.
  assert (∀ h', h' ∈ hobbies (calc_doc u1 (replace_doc u1 s)) ↔ h' ∈ hobbies u1) as H2.
  { intros h'. unfold calc_doc. case_bool_decide; [done|].
    simpl. rewrite new_Set_elem, list_elem_of_filter.
    change (JSSet.new_Set (filter not_blank (filter (λ x, x ≠ h) (hobbies u))))
      with (hobbies u1).
    rewrite H1. tauto. }
  split_and!.
  - replace i with (id u1) by (simpl; done). by apply find_calc_store_eq.
  - rewrite H2, H1. tauto.
  - intros h'. by rewrite H2, H1.
  - unfold calc_doc. by case_bool_decide.
  - unfold calc_doc. by case_bool_decide.
  - unfold calc_doc. by case_bool_decide.
  - unfold calc_doc. by case_bool_decide.
  - by rewrite ids_calc_store, ids_replace_doc.
  - intros x Hx. rewrite find_calc_store_ne, find_replace_doc_ne; [done|simpl; congruence..].
Qed.

(** ** The list of all hobbies *)

Lemma str_ltb_lt (a b : string) : String.ltb a b = true ↔ OrderedTypeEx.String_as_OT.lt a b.
Proof.
  unfold String.ltb. rewrite <- OrderedTypeEx.String_as_OT.cmp_lt.
  unfold OrderedTypeEx.String_as_OT.cmp.
  destruct (String.compare a b); split; congruence.
Qed.

Lemma ltb_total (a b : string) : String.ltb b a = false ∨ String.ltb a b = false.
Proof.
  destruct (String.ltb b a) eqn:E1; [|by left]. right.
  destruct (String.ltb a b) eqn:E2; [|done].
  apply str_ltb_lt in E1, E2.
  pose proof (OrderedTypeEx.String_as_OT.lt_trans _ _ _ E1 E2) as H.
  by apply OrderedTypeEx.String_as_OT.lt_not_eq in H.
Qed.

Lemma ltb_antisym (a b : string) :
  String.ltb b a = false → String.ltb a b = false → a = b.
Proof.
  unfold String.ltb. intros H1 H2.
  apply String.compare_eq_iff. rewrite String.compare_antisym in H1.
  destruct (String.compare a b); simpl in *; congruence.
Qed.

Lemma ltb_trans (a b c : string) :
  String.ltb b a = false → String.ltb c b = false → String.ltb c a = false.
Proof.
  intros H1 H2.
  destruct (String.ltb c a) eqn:E; [|done].
  destruct (decide (a = b)) as [->|Hab]; [congruence|].
  apply str_ltb_lt in E.
  assert (String.ltb a b = true) as Hlt.
  { destruct (String.ltb a b) eqn:E2; [done|]. destruct Hab. by apply ltb_antisym. }
  apply str_ltb_lt in Hlt.
  pose proof (OrderedTypeEx.String_as_OT.lt_trans _ _ _ E Hlt) as H.
  apply str_ltb_lt in H. congruence.
Qed.

Lemma utf16_key_byte_involutive (c : ascii) : utf16_key_byte (utf16_key_byte c) = c.
Proof. destruct c as [[] [] [] [] [] [] [] []]; reflexivity. Qed.

Lemma utf16_key_involutive (s : string) : utf16_key (utf16_key s) = s.
Proof.
  induction s as [|c s IH]; [done|]. simpl.
  by rewrite utf16_key_byte_involutive, IH.
Qed.

Global Instance utf16_key_inj : Inj (=) (=) utf16_key.
Proof.
  intros a b H. by rewrite <- (utf16_key_involutive a), H, utf16_key_involutive.
Qed.

Global Instance str_le_total : Total str_le.
Proof. intros a b. unfold str_le. apply ltb_total. Qed.

Global Instance str_le_antisym : AntiSymm eq str_le.
Proof.
  intros a b. unfold str_le. intros H1 H2.
  by apply (inj utf16_key), ltb_antisym.
Qed.

Global Instance str_le_trans : Transitive str_le.
Proof. intros a b c. unfold str_le. apply ltb_trans. Qed.

Lemma getAllHobbies_eq (s : Store) :
  getAllHobbies s = (inr (merge_sort str_le (JSSet.new_Set (s ≫= hobbies))), s).
Proof. done. Qed.

Lemma all_hobbies_NoDup (t : Store) :
  NoDup (merge_sort str_le (JSSet.new_Set (t ≫= hobbies))).
Proof. rewrite merge_sort_Permutation. apply new_Set_NoDup. Qed.

Lemma all_hobbies_elem (t : Store) (h : string) :
  h ∈ merge_sort str_le (JSSet.new_Set (t ≫= hobbies)) ↔ ∃ u, u ∈ t ∧ h ∈ hobbies u.
Proof.
  rewrite merge_sort_Permutation, new_Set_elem, list_elem_of_bind.
  split; intros (u & ? & ?); eauto.
Qed.

(** X10. [getAllHobbies] leaves the collection alone and returns the
    hobbies of the users without repetition, in strictly ascending order
    of their UTF-16 code units, the order of [sort()]; a string is in the
    list exactly when some user has it.  The list depends only on which
    hobbies occur: two collections with the same hobbies get the same
    answer, whatever the order of their users. *)
Theorem getAllHobbies_sorted_set (s : Store) :
  ∃ l, getAllHobbies s = (inr l, s) ∧
       NoDup l ∧ StronglySorted str_lt l ∧
       (∀ h, h ∈ l ↔ ∃ u, u ∈ s ∧ h ∈ hobbies u) ∧
       ∀ s', (∀ h, (∃ u, u ∈ s ∧ h ∈ hobbies u) ↔ (∃ u, u ∈ s' ∧ h ∈ hobbies u)) →
             getAllHobbies s' = (inr l, s').
Proof.
  exists (merge_sort str_le (JSSet.new_Set (s ≫= hobbies))).
  pose proof all_hobbies_NoDup as Hnd. pose proof all_hobbies_elem as Hel.
  split_and!; try done.
  - pose proof (StronglySorted_merge_sort str_le (JSSet.new_Set (s ≫= hobbies))) as Hs.
    specialize (Hnd s). revert Hnd Hs.
    generalize (merge_sort str_le (JSSet.new_Set (s ≫= hobbies))) as l.
    induction l as [|a l IH]; intros Hnd Hs; [constructor|].
    apply NoDup_cons in Hnd as [Ha Hnd]. apply StronglySorted_inv in Hs as [Hs Hall].
    constructor; [by apply IH|].
    rewrite Forall_forall in Hall |- *. intros b Hb. unfold str_lt.
    destruct (String.ltb (utf16_key a) (utf16_key b)) eqn:E; [done|].
    assert (a = b) as -> by (apply (anti_symm str_le); [by apply Hall|done]). done.
  - intros s' Hs'. rewrite getAllHobbies_eq. do 2 f_equal.
    apply (Sorted_unique str_le); [apply Sorted_merge_sort, _..|].
    apply NoDup_Permutation; [apply Hnd..|].
    intros h. rewrite !Hel. by rewrite Hs'.
Qed.

(** The order beyond ASCII: U+FF5E is after U+1F600, whose first code unit
    is a surrogate, and both are after the letters. *)
Lemma getAllHobbies_code_units :
  fst (getAllHobbies
         [mkUser "A" "alice" 25 [bytes [239; 189; 158]; "zen"; bytes [240; 159; 152; 128]]
            [] 0 0])
  = inr ["zen"; bytes [240; 159; 152; 128]; bytes [239; 189; 158]].
Proof. vm_compute. reflexivity. Qed.

(** ** The edges and nodes of the projection *)

Lemma edge_step_inv (users : list User) (u : User) (f : string)
    (st : list GraphEdge * list string) :
  u ∈ users → f ∈ friends u → edges_inv users st → edges_inv users (edge_step u st f).
Proof.
  intros Hu Hf [H1 H2]. unfold edge_step.
  destruct (JSSet.has (snd st) (pairKey (id u) f)) eqn:E; cbn [negb]; [done|].
  split; cbn [fst snd].
  - unfold JSSet.add. rewrite E, fmap_app, H1. done.
  - apply Forall_app. split; [done|]. apply Forall_singleton. by exists u.
Qed.

Lemma inner_fold_inv (users : list User) (u : User) (fs : list string)
    (st : list GraphEdge * list string) :
  u ∈ users → fs ⊆ friends u → edges_inv users st →
  edges_inv users (foldl (edge_step u) st fs).
Proof.
  intros Hu. revert st. induction fs as [|f fs IH]; intros st Hfs Hst; simpl; [done|].
  apply IH.
  - intros x Hx. apply Hfs. by apply list_elem_of_further.
  - apply edge_step_inv; [done| |done]. apply Hfs, list_elem_of_here.
Qed.

Lemma outer_fold_inv (users l : list User) (st : list GraphEdge * list string) :
  l ⊆ users → edges_inv users st →
  edges_inv users (foldl (λ st user, foldl (edge_step user) st (friends user)) st l).
Proof.
  revert st. induction l as [|u l IH]; intros st Hl Hst; simpl; [done|].
  apply IH.
  - intros x Hx. apply Hl. by apply list_elem_of_further.
  - apply inner_fold_inv; [apply Hl, list_elem_of_here|done|done].
Qed.

Lemma graph_edges_keys (users : list User) :
  edge_key <$> graph_edges users = JSSet.new_Set (all_keys users).
Proof.
  unfold graph_edges.
  destruct (outer_fold_inv users users ([], [])) as [H1 _]; [done|by split|].
  rewrite H1. by destruct (outer_fold users ([], [])) as [_ ->].
Qed.

(** X11. The edges of [getGraphData], for every collection: no two edges
    have the same pair key; each edge goes from a stored user to an entry
    of that user's list of friends, has the identifier
    [edge-<source>-<target>] and the type 'smoothstep'; every entry of every
    list of friends is covered by an edge with its pair key; and no edge is
    the reverse of another one. *)
Theorem graph_edges_wf (s : Store) :
  NoDup (edge_key <$> graph_edges s) ∧
  (∀ e, e ∈ graph_edges s →
     ∃ u, u ∈ s ∧ source e = id u ∧ target e ∈ friends u ∧
          edge_id e = "edge-" +:+ source e +:+ "-" +:+ target e ∧
          edge_type e = "smoothstep") ∧
  (∀ u f, u ∈ s → f ∈ friends u →
     ∃ e, e ∈ graph_edges s ∧ edge_key e = pairKey (id u) f) ∧
  (∀ i j e1 e2, graph_edges s !! i = Some e1 → graph_edges s !! j = Some e2 →
     source e1 = target e2 → target e1 = source e2 → i = j).
Proof.
  assert (NoDup (edge_key <$> graph_edges s)) as Hnd
    by (rewrite graph_edges_keys; apply new_Set_NoDup).
  split_and!; [done| | |].
  - unfold graph_edges.
    destruct (outer_fold_inv s s ([], [])) as [_ H2]; [done|by split|].
    by rewrite Forall_forall in H2.
  - intros u f Hu Hf.
    assert (pairKey (id u) f ∈ edge_key <$> graph_edges s) as H.
    { rewrite graph_edges_keys, new_Set_elem, all_keys_elem. by exists u, f. }
    apply list_elem_of_fmap in H as (e & He & Hin). by exists e.
  - intros i j e1 e2 H1 H2 Hs Ht.
    apply (NoDup_lookup _ i j (edge_key e1) Hnd).
    + by rewrite list_lookup_fmap, H1.
    + rewrite list_lookup_fmap, H2. simpl. f_equal.
      unfold edge_key. rewrite Hs, Ht. apply pairKey_comm.
Qed.

(** X12. The nodes of [getGraphData] when [Math.random] draws from
    [0, 1): there is one node for each user, the node at an index carries
    the identifier, hobbies and score of the user at that index, its type
    is 'HighScoreNode' exactly when the score is above 5, and it lies in
    the rectangle from 150 to 650 by 50 to 550. *)
Theorem graph_nodes_layout (random : nat → R) (s : Store) :
  (∀ k, (0 <= random k < 1)%R) →
  ∃ g, getGraphData random s = (inr g, s) ∧
    length (nodes g) = length s ∧
    ∀ i nd, nodes g !! i = Some nd →
      ∃ u, s !! i = Some u ∧ node_id nd = id u ∧
        nd_hobbies (data nd) = hobbies u ∧
        nd_popularityScore (data nd) = popularityScore u ∧
        (type nd = HighScoreNode ↔ (5 < popularityScore u)%Q) ∧
        (150 <= pos_x (position nd) <= 650)%R ∧
        (50 <= pos_y (position nd) <= 550)%R.
Proof.
  intros Hr. eexists. split; [reflexivity|]. cbn [nodes]. split; [apply length_imap|].
  intros i nd Hnd. rewrite list_lookup_imap in Hnd.
  destruct (s !! i) as [u|] eqn:Hu; [|done]. injection Hnd as <-.
  exists u. split; [done|]. cbn [graph_node node_id data type position pos_x pos_y
    nd_hobbies nd_popularityScore].
  do 3 (split; [done|]). split; [|split; split].
  - destruct (Qle_bool (popularityScore u) 5) eqn:E; cbn [negb].
    + apply Qle_bool_iff in E. split; [done|]. intros H. by apply Qlt_not_le in H.
    + split; [|done]. intros _.
      apply Qnot_le_lt. intros Hle. apply Qle_bool_iff in Hle. congruence.
  - pose proof (COS_bound (INR i * 2 * PI / INR (length s))) as [? ?].
    pose proof (Hr (2 * i)%nat) as [? ?]. lra.
  - pose proof (COS_bound (INR i * 2 * PI / INR (length s))) as [? ?].
    pose proof (Hr (2 * i)%nat) as [? ?]. lra.
  - pose proof (SIN_bound (INR i * 2 * PI / INR (length s))) as [? ?].
    pose proof (Hr (2 * i + 1)%nat) as [? ?]. lra.
  - pose proof (SIN_bound (INR i * 2 * PI / INR (length s))) as [? ?].
    pose proof (Hr (2 * i + 1)%nat) as [? ?]. lra.
Qed.

(** ** The pre-save hook and the score *)

Lemma foldl_add_fresh (acc l : list string) :
  NoDup (acc ++ l) → foldl JSSet.add acc l = acc ++ l.
Proof.
  revert acc. induction l as [|x l IH]; intros acc Hnd; simpl; [by rewrite app_nil_r|].
  assert (x ∉ acc) as Hx.
  { apply NoDup_app in Hnd as (_ & H & _). intros Hin. apply (H x Hin), list_elem_of_here. }
  unfold JSSet.add at 2, JSSet.has. rewrite bool_decide_eq_false_2 by done.
  rewrite IH; rewrite <- app_assoc; done.
Qed.

Lemma new_Set_NoDup_id (l : list string) : NoDup l → JSSet.new_Set l = l.
Proof. intros H. unfold JSSet.new_Set. by rewrite foldl_add_fresh. Qed.

Lemma filter_all {A} (P : A → Prop) `{∀ x, Decision (P x)} (l : list A) :
  Forall P l → filter P l = l.
Proof.
  induction 1 as [|x l Hx _ IH]; [done|].
  by rewrite filter_cons, decide_True, IH.
Qed.

Lemma replace_doc_twice (d1 d2 : User) (s : Store) :
  id d1 = id d2 → replace_doc d2 (replace_doc d1 s) = replace_doc d2 s.
Proof.
  intros E. induction s as [|u r IH]; simpl; [done|].
  rewrite E. destruct (has_id (id d2) u) eqn:Hu; simpl.
  - unfold has_id. by rewrite bool_decide_eq_true_2.
  - by rewrite Hu, IH.
Qed.

(** X13. The pre-save hook is idempotent: after it the hobbies have no
    repetition and none is blank, they are the non-blank hobbies the
    document had, and running the hook again changes nothing.  So saving
    the document that [save] returned a second time leaves the collection
    as the first [save] left it; and [save] keeps the identifiers of the
    collection. *)
Theorem save_idempotent (d : User) (s : Store) :
  pre_save (pre_save d) = pre_save d ∧
  NoDup (hobbies (pre_save d)) ∧ Forall not_blank (hobbies (pre_save d)) ∧
  (∀ h, h ∈ hobbies (pre_save d) ↔ h ∈ hobbies d ∧ not_blank h) ∧
  (let* d1 := save d in save d1) s = save d s ∧
  id <$> snd (save d s) = id <$> s.
Proof.
  assert (pre_save (pre_save d) = pre_save d) as Hp.
  { unfold pre_save at 1. cbn [hobbies pre_save set_hobbies].
    rewrite filter_all by apply pre_save_not_blank.
    cbn [hobbies pre_save set_hobbies].
    rewrite new_Set_NoDup_id by apply new_Set_NoDup. done. }
  split_and!; try done.
  - apply new_Set_NoDup.
  - apply pre_save_not_blank.
  - intros h. simpl. rewrite new_Set_elem, list_elem_of_filter. tauto.
  - unfold bind, save. cbn [fst snd]. rewrite Hp. f_equal. by apply replace_doc_twice.
  - apply ids_replace_doc.
Qed.

Lemma new_Set_length (l : list string) : (length (JSSet.new_Set l) ≤ length l)%nat.
Proof.
  apply submseteq_length, NoDup_submseteq; [apply new_Set_NoDup|].
  intros x. by rewrite new_Set_elem.
Qed.

Lemma sum_list_with_bound {A} (f : A → nat) (b : nat) (l : list A) :
  (∀ x, f x ≤ b)%nat → (sum_list_with f l ≤ length l * b)%nat.
Proof.
  intros Hb. induction l as [|x l IH]; simpl; [done|]. specialize (Hb x). lia.
Qed.

(** X14. [calculatePopularityScore] always returns, on any document and
    any collection, the number of friends plus [k] halves, for a natural
    number [k] that is at most the number of records found for the friends
    times the number of hobbies of the document: [Math.round(x * 100) / 100]
    never changes the sum, and the score is at least the number of
    friends. *)
Theorem score_is_half_integer (this : User) (s : Store) :
  ∃ q this' s' (k : nat),
    calculatePopularityScore this s = (inr (q, this'), s') ∧
    (q == inject_Z (Z.of_nat (length (friends this)))
          + (1 # 2) * inject_Z (Z.of_nat k))%Q ∧
    (k ≤ length (filter (λ u, id u ∈ friends this) s) * length (hobbies this))%nat ∧
    (inject_Z (Z.of_nat (length (friends this))) <= q)%Q.
Proof.
  rewrite calc_eq. case_bool_decide as E.
  - exists 0%Q, (calc_doc this s), (calc_store this s), 0%nat.
    rewrite E. split_and!; [done|by vm_compute|lia|by vm_compute].
  - set (k := sum_list_with
      (λ v, length (sharedHobbies (JSSet.new_Set (hobbies this)) (JSSet.new_Set (hobbies v))))
      (filter (λ u, id u ∈ friends this) s)).
    assert (popularityScore (scored this s) ==
            inject_Z (Z.of_nat (length (friends this))) + (1 # 2) * inject_Z (Z.of_nat k))%Q
      as Hq.
    { cbn [scored pre_save set_hobbies set_popularityScore popularityScore]. unfold code_score.
      rewrite (round2_compat _ (inject_Z (Z.of_nat (length (friends this)))
                                + (1 # 2) * inject_Z (Z.of_nat k))).
      - apply round2_halves.
      - rewrite foldl_add_shared. unfold k. ring. }
    exists (popularityScore (scored this s)), (calc_doc this s), (calc_store this s), k.
    split_and!; [done|done| |].
    + unfold k. etrans; [apply (sum_list_with_bound _ (length (hobbies this)))|done].
      intros v. unfold sharedHobbies. etrans; [apply length_filter|apply new_Set_length].
    + rewrite Hq. rewrite <- (Qplus_0_r (inject_Z _)) at 1.
      apply Qplus_le_r. apply Qmult_le_0_compat; [done|].
      change 0%Q with (inject_Z 0). rewrite <- Zle_Qle. lia.
Qed.

(** X15. The method [updateHobbies] on a stored document that the schema
    accepts, with new hobbies that the schema accepts (trimmed, of 1 to 100
    characters), does what [updateUser] does with an update that carries
    only the hobbies: both complete and leave the same collection.  The
    record then stored has the new hobbies, the same friends, and is
    rescored when it has friends; when it has none the stored score stays
    what it was. *)
Theorem updateHobbies_as_updateUser (s : Store) (u : User) (newHobbies : list string) :
  valid_user u → Forall valid_hobby newHobbies →
  List.find (has_id (id u)) s = Some u →
  ∃ u' s', updateHobbies u newHobbies s = (inr tt, s') ∧
    updateUser (id u) (mkUpdate None None (Some newHobbies)) s = (inr (Some u'), s') ∧
    List.find (has_id (id u)) s' = Some u' ∧
    (∀ h, h ∈ hobbies u' ↔ h ∈ newHobbies) ∧
    friends u' = friends u ∧
    (friends u ≠ [] → popularityScore u' = code_score (pre_save (set_hobbies u newHobbies))
                                             (replace_doc (pre_save (set_hobbies u newHobbies)) s)) ∧
    (friends u = [] → popularityScore u' = popularityScore u).
Proof.
  intros _ Hval Hu.
  set (u1 := pre_save (set_hobbies u newHobbies)).
  exists (calc_doc u1 (replace_doc u1 s)), (calc_store u1 (replace_doc u1 s)).
  assert (List.find (has_id (id u1)) (replace_doc u1 s) = Some u1) as F1
    by (by apply (find_replace_doc_eq u1 u)).
  split_and!.
  - unfold updateHobbies, bind, save. cbn [fst snd]. fold u1. by rewrite calc_eq.
  - rewrite updateUser_eq, Hu. done.
  - by apply (find_calc_store_eq u1).
  - intros h. rewrite Forall_forall in Hval.
    assert (h ∈ newHobbies → not_blank h) as Hnb
      by (intros Hh; by apply valid_hobby_not_blank, Hval).
    unfold calc_doc. case_bool_decide; simpl;
      rewrite ?new_Set_elem, ?list_elem_of_filter, ?new_Set_elem, ?list_elem_of_filter; tauto.
  - unfold calc_doc. by case_bool_decide.
  - intros Hf. unfold calc_doc. rewrite bool_decide_eq_false_2; [done|].
    simpl. by destruct (friends u).
  - intros Hf. unfold calc_doc. rewrite bool_decide_eq_true_2; [done|].
    simpl. by rewrite Hf.
Qed.

(** ** The controllers *)

Lemma includes_has_friends : includes E_has_friends "Cannot delete user" = true.
Proof. by vm_compute. Qed.

(** X18. The handlers of [UserController] that read or change users, on a
    collection of documents the schema accepts and with a body the schema
    accepts (as the request validation passes it on; for a creation, with
    an identifier that is not in use), answer with one of the statuses 200,
    201, 400, 404 and 409: each error the service then throws is one the
    handler recognises, so the answer 500 is left for failures of the
    database layer.  [success] is true exactly for the statuses below 300,
    and a request that is not answered with success carries no data and
    leaves the collection as it was.  The handlers that save nothing
    ([getUserById], [deleteUser]) need no hypothesis. *)
Theorem controllers_answer (development : bool) :
  (∀ i, answers (λ _, True) (UserController_getUserById development i)) ∧
  (∀ newId now body, valid_input body →
     answers (λ s, newId ∉ id <$> s)
       (UserController_createUser development newId now body)) ∧
  (∀ i body, valid_update body →
     answers valid_store (UserController_updateUser development i body)) ∧
  (∀ i, answers (λ _, True) (UserController_deleteUser development i)) ∧
  (∀ i friendId,
     answers valid_store (UserController_addFriendship development i friendId)) ∧
  (∀ i friendId,
     answers valid_store (UserController_removeFriendship development i friendId)) ∧
  (∀ i hobby, answers valid_store (UserController_removeHobby development i hobby)).
Proof.
  split_and!.
  - intros i s _. unfold UserController_getUserById, try_catch, bind.
    rewrite getUserById_eq. destruct (List.find (has_id i) s); answered.
  - intros newId now body _ s _. unfold UserController_createUser, try_catch, bind.
    rewrite createUser_eq. destruct (List.find _ s); [|answered].
    rewrite bool_decide_eq_true_2 by done. answered.
  - intros i body _ s _. unfold UserController_updateUser, try_catch, bind.
    rewrite updateUser_eq. destruct (List.find (has_id i) s) as [u|]; [|answered].
    destruct (name_taken i u body s).
    + rewrite bool_decide_eq_true_2 by done. answered.
    + destruct (up_hobbies body); answered.
  - intros i s _. unfold UserController_deleteUser, try_catch, bind.
    rewrite deleteUser_eq. destruct (List.find (has_id i) s) as [u|]; [|answered].
    case_bool_decide; [answered|].
    rewrite includes_has_friends. answered.
  - intros i [f|] s _; unfold UserController_addFriendship, try_catch; cbn [falsy];
      [|answered].
    destruct (truthy f); cbn [negb]; [|answered].
    unfold bind. change (default "" (Some f)) with f. rewrite addFriendship_eq.
    destruct (List.find (has_id i) s) as [u|]; [|answered].
    case_bool_decide; [answered|]. rewrite addFriend_eq.
    case_bool_decide; [answered|]. case_bool_decide; [answered|].
    destruct (List.find (has_id f) s); answered.
  - intros i [f|] s _; unfold UserController_removeFriendship, try_catch; cbn [falsy];
      [|answered].
    destruct (truthy f); cbn [negb]; [|answered].
    unfold bind. change (default "" (Some f)) with f. rewrite removeFriendship_eq.
    destruct (List.find (has_id i) s) as [u|]; [|answered].
    rewrite removeFriend_eq. case_bool_decide; [|answered].
    destruct (List.find (has_id f) s); answered.
  - intros i hobby s _. unfold UserController_removeHobby, try_catch.
    destruct (truthy hobby); cbn [negb]; [|answered].
    unfold bind. rewrite removeHobby_eq.
    destruct (List.find (has_id i) s) as [u|]; [|answered].
    case_bool_decide; [answered|].
    rewrite bool_decide_eq_true_2 by done. answered.
Qed.

(** ** Validation of identifiers *)

Lemma matches_length (classes : list (list (ascii * ascii))) (cs : list ascii) :
  matches classes cs = true → length cs = length classes.
Proof.
  revert cs. induction classes as [|cl classes IH]; intros [|c cs]; simpl; try done.
  intros [_ H]%andb_true_iff. by rewrite (IH cs).
Qed.

Lemma length_list_ascii (s : string) : length (list_ascii_of_string s) = String.length s.
Proof. induction s as [|c s IH]; simpl; [done|by rewrite IH]. Qed.

Lemma uuid_length (i : string) : regex_test uuidRegex i = true → String.length i = 36%nat.
Proof.
  intros H. apply matches_length in H. by rewrite length_list_ascii in H.
Qed.

Lemma matches_lookup (classes : list (list (ascii * ascii))) (cs : list ascii) :
  matches classes cs = true →
  ∀ k cl, classes !! k = Some cl → ∃ c, cs !! k = Some c ∧ char_class cl c = true.
Proof.
  revert cs. induction classes as [|cl0 classes IH]; intros [|c0 cs]; simpl; try done.
  intros [H0 H]%andb_true_iff [|k] cl Hk; simpl in *.
  - injection Hk as <-. by exists c0.
  - by apply IH.
Qed.

Lemma get_lookup (k : nat) (s : string) : String.get k s = list_ascii_of_string s !! k.
Proof.
  revert k. induction s as [|c s IH]; intros [|k]; simpl; try done.
Qed.

Lemma dash_class (c : ascii) : char_class [("-", "-")]%char c = true → c = "-"%char.
Proof.
  destruct c as [[] [] [] [] [] [] [] []]; vm_compute; done.
Qed.

(** X16. [validateUUID] either hands the request on unchanged, and then
    the identifier has exactly 36 characters with '-' at the positions 8,
    13, 18 and 23, or it answers 400 itself without running the handler
    and without touching the collection. *)
Theorem validateUUID_fixed_length {A} (i : string) (next : M (IApiResponse A)) (s : Store) :
  (validateUUID i next s = next s ∧ String.length i = 36%nat ∧
   String.get 8 i = Some "-"%char ∧ String.get 13 i = Some "-"%char ∧
   String.get 18 i = Some "-"%char ∧ String.get 23 i = Some "-"%char)
  ∨
  (∃ r, validateUUID i next s = (inr r, s) ∧ statusCode r = 400%nat ∧ success r = false).
Proof.
  unfold validateUUID. destruct (regex_test uuidRegex i) eqn:E; cbn [negb].
  2:{ right. by eexists. }
  left. split; [done|]. split; [by apply uuid_length|].
  assert (∀ k, (uuidRegex ≫= λ p, replicate (snd p) (fst p)) !! k = Some [("-", "-")]%char →
               String.get k i = Some "-"%char) as Hd.
  { intros k Hk. destruct (matches_lookup _ _ E k _ Hk) as (c & Hc & Hcl).
    rewrite get_lookup, Hc. f_equal. by apply dash_class. }
  split_and!; by apply Hd.
Qed.

(** X17. Identifiers that [validateUUID] lets through cannot collide in
    the pair key of [getGraphData]: two pairs of such identifiers with the
    same key are the same unordered pair. *)
Theorem uuid_pair_keys (a b c d : string) :
  regex_test uuidRegex a = true → regex_test uuidRegex b = true →
  regex_test uuidRegex c = true → regex_test uuidRegex d = true →
  pairKey a b = pairKey c d → (a = c ∧ b = d) ∨ (a = d ∧ b = c).
Proof.
  intros Ha Hb Hc Hd. apply (pairKey_inj 36); by apply uuid_length.
Qed.

(** ** The history of the client *)

Lemma undo_snoc (p : list AppState) (x c : AppState) (f : list AppState) :
  undoRedoReducer (mkUndoRedo (p ++ [x]) c f) UNDO = mkUndoRedo p x (c :: f).
Proof.
  cbn [undoRedoReducer past present future].
  rewrite bool_decide_eq_false_2 by (rewrite length_app; simpl; lia).
  replace (length (p ++ [x]) - 1)%nat with (length p) by (rewrite length_app; simpl; lia).
  rewrite lookup_app_r, Nat.sub_diag by done. cbn [lookup list_lookup].
  by rewrite take_app_length.
Qed.

Lemma redo_cons (p : list AppState) (c x : AppState) (f : list AppState) :
  undoRedoReducer (mkUndoRedo p c (x :: f)) REDO = mkUndoRedo (p ++ [c]) x f.
Proof. done. Qed.

Lemma snoc_cases {A} (l : list A) : l = [] ∨ ∃ p x, l = p ++ [x].
Proof.
  induction l as [|x l _] using rev_ind; [by left|right; by eexists _, _].
Qed.

(** X19. The history reducer: UNDO and REDO move along the line of states
    (past, present, future) without changing it; UNDO with an empty past
    and REDO with an empty future do nothing; otherwise REDO takes back an
    UNDO and UNDO takes back a REDO. *)
Theorem undo_redo_inverse (state : UndoRedoState) :
  timeline (undoRedoReducer state UNDO) = timeline state ∧
  timeline (undoRedoReducer state REDO) = timeline state ∧
  (past state = [] → undoRedoReducer state UNDO = state) ∧
  (future state = [] → undoRedoReducer state REDO = state) ∧
  (past state ≠ [] → undoRedoReducer (undoRedoReducer state UNDO) REDO = state) ∧
  (future state ≠ [] → undoRedoReducer (undoRedoReducer state REDO) UNDO = state).
Proof.
  destruct state as [p c f]. cbn [past future].
  split_and!.
  - destruct (snoc_cases p) as [->|(q & x & ->)]; [done|].
    rewrite undo_snoc. unfold timeline. cbn [past present future].
    by rewrite <- app_assoc.
  - destruct f as [|x f]; [done|]. rewrite redo_cons. unfold timeline.
    cbn [past present future]. by rewrite <- app_assoc.
  - by intros ->.
  - by intros ->.
  - intros Hp. destruct (snoc_cases p) as [->|(q & x & ->)]; [done|].
    by rewrite undo_snoc, redo_cons.
  - intros Hf. destruct f as [|x f]; [done|]. by rewrite redo_cons, undo_snoc.
Qed.

Lemma edits_present (acts : list AppAction) (p : list AppState) (c : AppState)
    (f : list AppState) :
  Forall (λ a, is_edit a = true) acts →
  foldl undoRedoReducer (mkUndoRedo p c f) acts = mkUndoRedo p (foldl appReducer c acts) f.
Proof.
  revert c. induction acts as [|a acts IH]; intros c Ha; [done|].
  apply Forall_cons in Ha as [Ha Hacts]. cbn [foldl]. rewrite <- IH by done.
  f_equal. by destruct a.
Qed.

(** X20. After SAVE_STATE, any number of actions other than UNDO, REDO and
    SAVE_STATE act on the present state only, through [appReducer]; UNDO
    then brings back the state that was saved, with the past as it was
    before the save and the edited state as the only future, and REDO
    returns to the edited state. *)
Theorem save_edit_undo (state : UndoRedoState) (acts : list AppAction) :
  Forall (λ a, is_edit a = true) acts →
  let edited := foldl undoRedoReducer (undoRedoReducer state SAVE_STATE) acts in
  present edited = foldl appReducer (present state) acts ∧
  undoRedoReducer edited UNDO =
    mkUndoRedo (past state) (present state) [foldl appReducer (present state) acts] ∧
  undoRedoReducer (undoRedoReducer edited UNDO) REDO = edited.
Proof.
  intros Ha edited. destruct state as [p c f].
  assert (edited = mkUndoRedo (p ++ [c]) (foldl appReducer c acts) []) as ->.
  { unfold edited. cbn [undoRedoReducer past present future]. by apply edits_present. }
  cbn [present past]. split; [done|].
  rewrite undo_snoc. split; [done|]. by rewrite redo_cons.
Qed.

(** ** The client's users and hobbies against the server's *)

Lemma replace_doc_map (d : User) (s : Store) :
  ids_unique s →
  replace_doc d s = (λ user, if bool_decide (id user = id d) then d else user) <$> s.
Proof.
  unfold ids_unique. induction s as [|u r IH]; intros Hnd; [done|].
  rewrite fmap_cons in Hnd. apply NoDup_cons in Hnd as [Hu Hr].
  cbn [replace_doc fmap list_fmap]. unfold has_id at 1. case_bool_decide as E.
  - f_equal. symmetry. rewrite <- (list_fmap_id r) at 2. apply list_fmap_ext.
    intros i v Hv. rewrite bool_decide_eq_false_2; [done|].
    intros Hd. apply Hu. rewrite E, <- Hd. apply list_elem_of_fmap_2.
    by eapply list_elem_of_lookup_2.
  - f_equal. by apply IH.
Qed.

Lemma remove_doc_filter (i : string) (s : Store) :
  ids_unique s → remove_doc i s = filter (λ user, id user ≠ i) s.
Proof.
  unfold ids_unique. induction s as [|u r IH]; intros Hnd; [done|].
  rewrite fmap_cons in Hnd. apply NoDup_cons in Hnd as [Hu Hr].
  cbn [remove_doc]. rewrite filter_cons. unfold has_id at 1. case_bool_decide as E.
  - rewrite decide_False by (intros H; done). symmetry. apply filter_all.
    apply Forall_forall. intros v Hv Hd. apply Hu. rewrite E, <- Hd.
    by apply list_elem_of_fmap_2.
  - rewrite decide_True by done. f_equal. by apply IH.
Qed.

(** X21. The client keeps its list of users in step with the server.  When
    the list is the collection and the service call completes, dispatching
    ADD_USER with the user [createUser] returned gives the collection the
    call left; and with unique identifiers so do UPDATE_USER with the user
    [updateUser] returned and DELETE_USER after [deleteUser] returned
    [true]. *)
Theorem client_mirrors_create_update_delete (state : AppState) :
  (∀ newId now d u s',
     createUser newId now d (st_users state) = (inr u, s') →
     st_users (appReducer state (ADD_USER u)) = s') ∧
  (ids_unique (st_users state) →
   (∀ i d u s',
      updateUser i d (st_users state) = (inr (Some u), s') →
      st_users (appReducer state (UPDATE_USER u)) = s') ∧
   (∀ i s',
      deleteUser i (st_users state) = (inr true, s') →
      st_users (appReducer state (DELETE_USER i)) = s')).
Proof.
  destruct state as [s hs g l e sel q fh]. cbn [st_users]. split; [|intros Hs; split].
  - intros newId now d u s'. rewrite createUser_eq.
    destruct (List.find _ s); [done|]. by intros [= <- <-].
  - intros i d u s'. rewrite updateUser_eq.
    destruct (List.find (has_id i) s) as [u0|] eqn:Hu; [|done].
    destruct (name_taken i u0 d s); [done|].
    pose proof (find_has_id _ _ _ Hu) as [_ Ei].
    cbn [appReducer st_users with_users_selected].
    rewrite <- replace_doc_map by done.
    unfold update_store.
    destruct (up_hobbies d); intros [= <- <-]; [|done].
    unfold calc_doc, calc_store. case_bool_decide; [done|].
    symmetry. by apply replace_doc_twice.
  - intros i s'. rewrite deleteUser_eq.
    destruct (List.find (has_id i) s) as [u0|]; [|done].
    case_bool_decide; [|done]. intros [= <-].
    cbn [appReducer st_users with_users_selected]. symmetry. by apply remove_doc_filter.
Qed.

Lemma find_fmap_same_id (f : User → User) (s : Store) (x : string) :
  (∀ u, id (f u) = id u) →
  List.find (has_id x) (f <$> s) = f <$> List.find (has_id x) s.
Proof.
  intros Hf. induction s as [|u r IH]; [done|].
  cbn [fmap list_fmap List.find]. unfold has_id at 1 3. rewrite Hf.
  case_bool_decide; [done|]. apply IH.
Qed.

(** X22. After a completed [addFriendship] or [removeFriendship] the
    client's ADD_FRIENDSHIP or REMOVE_FRIENDSHIP gives every user the list
    of friends the server stored, and the same identifiers in the same
    order; the scores of the client are the old ones (the reducer does not
    rescore; they are renewed when the data is fetched again). *)
Theorem client_mirrors_link_unlink (state : AppState) (a b : string) (s' : Store) :
  (addFriendship a b (st_users state) = (inr tt, s') →
   let users := st_users (appReducer state (ADD_FRIENDSHIP a b)) in
   (∀ x, friends_of users x = friends_of s' x) ∧
   id <$> users = id <$> s' ∧
   popularityScore <$> users = popularityScore <$> st_users state) ∧
  (removeFriendship a b (st_users state) = (inr tt, s') →
   let users := st_users (appReducer state (REMOVE_FRIENDSHIP a b)) in
   (∀ x, friends_of users x = friends_of s' x) ∧
   id <$> users = id <$> s' ∧
   popularityScore <$> users = popularityScore <$> st_users state).
Proof.
  destruct state as [s hs g l e sel q fh]. cbn [st_users appReducer with_users]. split.
  - rewrite addFriendship_eq.
    destruct (List.find (has_id a) s) as [ua|] eqn:Ha; [|done].
    case_bool_decide as Hab; [done|]. rewrite addFriend_eq.
    case_bool_decide as Hin; [done|]. case_bool_decide as Hid; [done|].
    destruct (List.find (has_id b) s) as [ub|] eqn:Hb; [|done].
    intros [= <-].
    pose proof (find_has_id _ _ _ Ha) as [_ Ea].
    pose proof (find_has_id _ _ _ Hb) as [_ Eb].
    subst a b. cbn zeta.
    change (calc_store _ (calc_store _ (replace_doc _ (replace_doc _ s))))
      with (link_store ua ub s).
    split_and!.
    + intros x. unfold friends_of at 1. rewrite find_fmap_same_id
        by (intros u; repeat case_bool_decide; done).
      rewrite (link_store_friends ua ub s x Ha Hb Hab).
      case_bool_decide as E1; [|case_bool_decide as E2].
      * subst x. rewrite Hb. cbn [fmap option_fmap option_map].
        rewrite bool_decide_eq_false_2 by congruence.
        by rewrite bool_decide_eq_true_2.
      * subst x. rewrite Ha. cbn [fmap option_fmap option_map].
        by rewrite bool_decide_eq_true_2.
      * unfold friends_of. destruct (List.find (has_id x) s) as [u|] eqn:Hu; [|done].
        pose proof (find_has_id _ _ _ Hu) as [_ Eu]. cbn [fmap option_fmap option_map].
        by rewrite !bool_decide_eq_false_2 by congruence.
    + unfold link_store. rewrite !ids_calc_store, !ids_replace_doc, <- list_fmap_compose.
      apply list_fmap_ext. intros i u _. simpl. by repeat case_bool_decide.
    + rewrite <- list_fmap_compose.
      apply list_fmap_ext. intros i u _. simpl. by repeat case_bool_decide.
  - rewrite removeFriendship_eq.
    destruct (List.find (has_id a) s) as [ua|] eqn:Ha; [|done].
    rewrite removeFriend_eq.
    case_bool_decide as Hin; [|done].
    destruct (List.find (has_id b) s) as [ub|] eqn:Hb; [|done].
    intros [= <-].
    pose proof (find_has_id _ _ _ Ha) as [_ Ea].
    pose proof (find_has_id _ _ _ Hb) as [_ Eb].
    subst a b. cbn zeta.
    change (calc_store _ (calc_store _ (replace_doc _ (replace_doc _ s))))
      with (unlink_store ua ub s).
    split_and!.
    + intros x. unfold friends_of at 1. rewrite find_fmap_same_id
        by (intros u; repeat case_bool_decide; done).
      rewrite (unlink_store_friends ua ub s x Ha Hb).
      case_bool_decide as E1; [|case_bool_decide as E2].
      * subst x. rewrite Hb. cbn [fmap option_fmap option_map].
        case_bool_decide as E3; [|by rewrite bool_decide_eq_true_2].
        cbn [friends set_friends]. by rewrite E3.
      * subst x. rewrite Ha. cbn [fmap option_fmap option_map].
        by rewrite bool_decide_eq_true_2.
      * unfold friends_of. destruct (List.find (has_id x) s) as [u|] eqn:Hu; [|done].
        pose proof (find_has_id _ _ _ Hu) as [_ Eu]. cbn [fmap option_fmap option_map].
        by rewrite !bool_decide_eq_false_2 by congruence.
    + unfold unlink_store. rewrite !ids_calc_store, !ids_replace_doc, <- list_fmap_compose.
      apply list_fmap_ext. intros i u _. simpl. by repeat case_bool_decide.
    + rewrite <- list_fmap_compose.
      apply list_fmap_ext. intros i u _. simpl. by repeat case_bool_decide.
Qed.

Lemma add_hobbies_fold (state : AppState) (hs : list string) :
  foldl appReducer state (ADD_HOBBY <$> hs) =
  appReducer state (SET_HOBBIES (foldl JSSet.add (st_hobbies state) hs)).
Proof.
  revert state. induction hs as [|h hs IH]; intros state; [by destruct state|].
  cbn [fmap list_fmap foldl]. rewrite IH. done.
Qed.

Lemma foldl_add_prefix (acc l : list string) : acc `prefix_of` foldl JSSet.add acc l.
Proof.
  revert acc. induction l as [|x l IH]; intros acc; [done|].
  cbn [foldl]. etrans; [|apply IH]. unfold JSSet.add.
  destruct (JSSet.has acc x); [done|]. by apply prefix_app_r.
Qed.

(** X23. The client's list of hobbies: once it is set to the answer of
    [getAllHobbies], any number of ADD_HOBBY actions leave it without
    repetition; the server's list stays its beginning, the list holds the
    hobbies of the users and the ones added, and the users are not
    touched. *)
Theorem hobby_list_stays_a_set (state : AppState) (s : Store) (l hs : list string) :
  getAllHobbies s = (inr l, s) →
  let state' := foldl appReducer (appReducer state (SET_HOBBIES l)) (ADD_HOBBY <$> hs) in
  NoDup (st_hobbies state') ∧
  l `prefix_of` st_hobbies state' ∧
  (∀ h, h ∈ st_hobbies state' ↔ (∃ u, u ∈ s ∧ h ∈ hobbies u) ∨ h ∈ hs) ∧
  st_users state' = st_users state.
Proof.
  rewrite getAllHobbies_eq. intros [= <-] state'. unfold state'.
  rewrite add_hobbies_fold. cbn [appReducer st_hobbies st_users]. split_and!.
  - apply foldl_add_NoDup, all_hobbies_NoDup.
  - apply foldl_add_prefix.
  - intros h. by rewrite foldl_add_elem, all_hobbies_elem.
  - done.
Qed.

(** ** The node component *)

(** X24. The node component against the projection: for a collection whose
    stored scores are not negative, on every node [getGraphData] returns
    the component's [isHighScore] is true exactly when the server gave the
    node the type 'HighScoreNode'; the width [getNodeSize] computes lies
    between 200 and 300; and a node that is not being connected gets the
    colour of the high scores, selected or not, exactly when its type is
    'HighScoreNode'. *)
Theorem user_node_of_projection (random : nat → R) (s : Store) :
  Forall (λ u, 0 <= popularityScore u)%Q s →
  ∃ g, getGraphData random s = (inr g, s) ∧
    ∀ nd, nd ∈ nodes g →
      (isHighScore (data nd) = true ↔ type nd = HighScoreNode) ∧
      (200 <= getNodeSize (data nd) <= 300)%Q ∧
      (getNodeColor (data nd) false false = "#66bb6a" ↔ type nd = HighScoreNode) ∧
      (getNodeColor (data nd) true false = "#4caf50" ↔ type nd = HighScoreNode).
Proof.
  intros Hs. eexists. split; [reflexivity|]. cbn [nodes].
  intros nd Hnd. apply list_elem_of_lookup in Hnd as [i Hnd].
  rewrite list_lookup_imap in Hnd.
  destruct (s !! i) as [u|] eqn:Hu; [|done]. injection Hnd as <-.
  rewrite Forall_forall in Hs. specialize (Hs u (list_elem_of_lookup_2 _ _ _ Hu)).
  unfold getNodeSize, getNodeColor, isHighScore.
  cbn [graph_node data type nd_popularityScore].
  set (q := popularityScore u) in *.
  assert (0 <= Qmin (q / 10) 2 <= 2)%Q as [H0 H2].
  { split; [|apply Q.le_min_r]. apply Q.min_glb; [|done].
    apply Qle_shift_div_l; [done|]. by rewrite Qmult_0_l. }
  clearbody q. split; [|split; [|split]].
  - destruct (negb (Qle_bool q 5)); split; done.
  - split; Lqa.lra.
  - destruct (negb (Qle_bool q 5)); split; done.
  - destruct (negb (Qle_bool q 5)); split; done.
Qed.

(** ** The properties at work on the example collections *)

(** Deleting A while it has friends. *)
Lemma failed_run_changes_nothing_witness :
  ex_linked = ex_linked ∧ E_has_friends ∈ business_errors.
Proof.
  apply (failed_run_changes_nothing ex_linked ex_linked (OpDelete "A")).
  - by_computation.
  - exact I.
  - exact I.
  - vm_compute. reflexivity.
Defined.

(** A and B are created and linked, from the empty collection. *)
Lemma reachable_consistent_witness : consistent ex_pair ∧ no_blank_hobbies ex_pair.
Proof.
  apply (reachable_consistent ex_pair).
  apply (reach_step
           [mkUser "A" "alice" 25 ["coding"] [] 0 0;
            mkUser "B" "bob" 30 ["coding"; "gaming"] [] 0 0]
           (OpLink "A" "B") tt); [|exact I|vm_compute; reflexivity].
  apply (reach_step [mkUser "A" "alice" 25 ["coding"] [] 0 0]
           (OpCreate "B" 0 (mkInput "bob" 30 ["coding"; "gaming"])) tt);
    [|split; by_computation|vm_compute; reflexivity].
  apply (reach_step [] (OpCreate "A" 0 (mkInput "alice" 25 ["coding"])) tt);
    [apply reach_empty|split; by_computation|vm_compute; reflexivity].
Defined.

(** A and B linked once, then again in both directions. *)
Lemma link_twice_rejected_witness :
  ∃ s1, addFriendship "A" "B" ex_unlinked = (inr tt, s1) ∧
        addFriendship "A" "B" s1 = (inl E_already_friends, s1) ∧
        addFriendship "B" "A" s1 = (inl E_already_friends, s1).
Proof.
  exists (snd (addFriendship "A" "B" ex_unlinked)).
  split; [vm_compute; reflexivity|].
  apply (link_twice_rejected ex_unlinked _ "A" "B" tt). vm_compute. reflexivity.
Defined.

(** A and B unlinked once, then again in both directions. *)
Lemma unlink_twice_rejected_witness :
  removeFriendship "A" "B" ex_after_unlink = (inl E_not_friends, ex_after_unlink) ∧
  removeFriendship "B" "A" ex_after_unlink = (inl E_not_friends, ex_after_unlink).
Proof.
  apply (unlink_twice_rejected ex_linked ex_after_unlink "A" "B" tt).
  vm_compute. reflexivity.
Defined.

(** B and C linked and unlinked again in the example. *)
Lemma link_then_unlink_restores_friends_witness :
  ∃ s2, removeFriendship "B" "C" (snd (addFriendship "B" "C" ex_linked)) = (inr tt, s2) ∧
        friends_of s2 "B" = Some ["A"].
Proof.
  destruct (link_then_unlink_restores_friends ex_linked
              (snd (addFriendship "B" "C" ex_linked)) "B" "C" tt)
    as (s2 & H1 & H2 & _).
  - unfold ids_unique. by_computation.
  - unfold symmetric. by_computation.
  - vm_compute. reflexivity.
  - exists s2. split; [exact H1|]. rewrite H2. vm_compute. reflexivity.
Defined.

Lemma ex_linked_friends_wf : friends_wf ex_linked.
Proof.
  apply consistent_friends_wf; [unfold ids_unique; by_computation|].
  unfold friends_are_sets, friends_exist, irreflexive. by_computation.
Qed.

(** A gives up B and C and is deleted. *)
Lemma unlink_all_then_delete_witness :
  ∃ s', (let* _ := sequence_ (removeFriendship "A" <$> ["B"; "C"]) in deleteUser "A") ex_linked
        = (inr true, s') ∧ id <$> s' = ["B"; "C"].
Proof.
  destruct (unlink_all_then_delete ex_linked "A" ex_A_linked ex_linked_friends_wf)
    as (s' & H1 & H2).
  - vm_compute. reflexivity.
  - exists s'. split; [exact H1|]. rewrite H2. vm_compute. reflexivity.
Defined.

(** D is created with a repeated hobby. *)
Lemma createUser_round_trip_witness :
  ∃ u s', createUser "D" 7 (mkInput "dave" 41 ["chess"; "go"; "chess"]) ex_linked = (inr u, s') ∧
          hobbies u = ["chess"; "go"] ∧ getUserById "D" s' = (inr (Some u), s').
Proof.
  set (r := createUser "D" 7 (mkInput "dave" 41 ["chess"; "go"; "chess"]) ex_linked).
  assert (r = (inr (mkUser "D" "dave" 41 ["chess"; "go"] [] 7 0), snd r)) as Hr
    by (vm_compute; reflexivity).
  assert (valid_input (mkInput "dave" 41 ["chess"; "go"; "chess"])) as Hv
    by (split_and!; by_computation).
  assert ("D" ∉ id <$> ex_linked) as Hf by by_computation.
  destruct (createUser_round_trip ex_linked (snd r) "D" 7 _ _ Hv Hf Hr)
    as (_ & _ & _ & _ & _ & _ & _ & _ & _ & _ & H & _).
  eexists _, _. split; [exact Hr|]. split; [reflexivity|exact H].
Defined.

(** A is renamed. *)
Lemma updateUser_frame_witness :
  id <$> snd (updateUser "A" (mkUpdate (Some "alicia") None None) ex_linked) = ["A"; "B"; "C"].
Proof.
  set (r := updateUser "A" (mkUpdate (Some "alicia") None None) ex_linked).
  assert (r = (inr (Some (set_username ex_A_linked "alicia")), snd r)) as Hr
    by (vm_compute; reflexivity).
  assert (valid_update (mkUpdate (Some "alicia") None None)) as Hv
    by (split_and!; simpl; first [exact I | by_computation]).
  destruct (updateUser_frame ex_linked (snd r) "A" _ _ Hv Hr) as (_ & H & _).
  rewrite H. vm_compute. reflexivity.
Defined.

(** A loses its hobby gaming; it has no hobby chess. *)
Lemma removeHobby_removes_witness :
  (∃ u' s', removeHobby "A" "gaming" ex_linked = (inr (Some u'), s') ∧ "gaming" ∉ hobbies u') ∧
  removeHobby "A" "chess" ex_linked = (inl E_hobby_not_found, ex_linked).
Proof.
  assert (List.find (has_id "A") ex_linked = Some ex_A_linked) as Hu
    by (vm_compute; reflexivity).
  split.
  - destruct (removeHobby_removes ex_linked "A" "gaming" ex_A_linked Hu)
      as (u' & s' & H1 & _ & H3 & _).
    by exists u', s'.
  - apply (removeHobby_removes ex_linked "A" "chess" ex_A_linked Hu).
Defined.

(** The layout of the example without jitter. *)
Lemma graph_nodes_layout_witness :
  ∃ g, getGraphData (λ _, 0%R) ex_linked = (inr g, ex_linked) ∧ length (nodes g) = 3%nat.
Proof.
  destruct (graph_nodes_layout (λ _, 0%R) ex_linked) as (g & H1 & H2 & _).
  - intros _. lra.
  - exists g. split; [exact H1|]. rewrite H2. reflexivity.
Defined.

(** A state is saved, a hobby is added and the query set, then undone. *)
Lemma save_edit_undo_witness :
  present (undoRedoReducer
    (foldl undoRedoReducer (undoRedoReducer undoRedoInitialState SAVE_STATE)
       [ADD_HOBBY "chess"; SET_SEARCH_QUERY "al"]) UNDO) = initialState.
Proof.
  destruct (save_edit_undo undoRedoInitialState [ADD_HOBBY "chess"; SET_SEARCH_QUERY "al"])
    as (_ & H & _).
  - repeat constructor.
  - rewrite H. reflexivity.
Defined.

(** The hobbies of the example, then two added by hand. *)
Lemma hobby_list_stays_a_set_witness :
  NoDup (st_hobbies (foldl appReducer
    (appReducer initialState (SET_HOBBIES ["coding"; "gaming"; "music"; "sports"]))
    (ADD_HOBBY <$> ["chess"; "music"]))).
Proof.
  apply (hobby_list_stays_a_set initialState ex_linked
           ["coding"; "gaming"; "music"; "sports"] ["chess"; "music"]).
  vm_compute. reflexivity.
Defined.

(** A takes up chess through the method and through the service. *)
Lemma updateHobbies_as_updateUser_witness :
  snd (updateHobbies ex_A_linked ["chess"] ex_linked) =
  snd (updateUser "A" (mkUpdate None None (Some ["chess"])) ex_linked).
Proof.
  destruct (updateHobbies_as_updateUser ex_linked ex_A_linked ["chess"])
    as (u' & s' & H1 & H2 & _).
  - by_computation.
  - by_computation.
  - vm_compute. reflexivity.
  - change (id ex_A_linked) with "A" in H2. by rewrite H1, H2.
Defined.

(** The keys of a pair of UUIDs, in both orders. *)
Lemma uuid_pair_keys_witness :
  (ex_uuid_1 = ex_uuid_2 ∧ ex_uuid_2 = ex_uuid_1) ∨ (ex_uuid_1 = ex_uuid_1 ∧ ex_uuid_2 = ex_uuid_2).
Proof.
  apply (uuid_pair_keys ex_uuid_1 ex_uuid_2 ex_uuid_2 ex_uuid_1);
    [vm_compute; reflexivity..|apply pairKey_comm].
Defined.

(** The three nodes of the example. *)
Lemma user_node_of_projection_witness :
  ∃ g, getGraphData (λ _, 0%R) ex_linked = (inr g, ex_linked) ∧
       Forall (λ nd, 200 <= getNodeSize (data nd) <= 300)%Q (nodes g).
Proof.
  destruct (user_node_of_projection (λ _, 0%R) ex_linked) as (g & H1 & H2).
  - rewrite ex_linked_eq. repeat constructor; vm_compute; discriminate.
  - exists g. split; [exact H1|]. apply Forall_forall. intros nd Hnd.
    by destruct (H2 nd Hnd) as (_ & H & _).
Defined.
